(** * A desktop-metaphor window manager: Window and Environment

    Shallow embedding of [src/js/window.js] (with the remote-content
    methods of its longer revision) and [src/js/environment.js], and the
    properties of the window life cycle proved over it.

    Conventions of the embedding.
    - A JS number is an exact rational ([Q]); the rounding of IEEE doubles,
      NaN and the infinities are outside the model.
    - A JS object used as a record of named fields (a window configuration)
      is a finite map from field names to JS values.
    - A method that mutates [this] is a function from the object's state to
      its new state; the events it emits are returned next to the state and
      delivered by the owner of the listeners.
    - [window.innerWidth], [window.innerHeight] and the draws of
      [Math.random()] are inputs of the functions that read them.
    - The listeners of an emitter are a finite map from event names to
      callbacks. The source keeps them in a plain object, where a name
      that [Object.prototype] defines ([constructor], [toString], ...) is
      found before anything is registered and makes [on] throw: [on]
      and [emit] are modelled for the other names, and [Object.entries]
      for an [events] value that is an object. *)

From Stdlib Require Import ZArith QArith Qminmax Lqa Lia String.
From stdpp Require Import base option list gmap strings.

Local Open Scope string_scope.
Local Open Scope list_scope.

(** ** JavaScript values *)

Inductive exn :=
| TypeError (msg : string)
| NotFoundError (msg : string)
| Error (msg : string).

(** Outcome of a call: a value, a thrown exception, or [IllTyped] when a
    value read from an untyped object does not have the type its JSDoc
    declares (a non-numeric width, say); the model does not follow the
    source past that point. *)
Inductive result (A : Type) :=
| Ok (a : A)
| Throw (e : exn)
| IllTyped.
Arguments Ok {A} a.
Arguments Throw {A} e.
Arguments IllTyped {A}.

Definition rbind {A B} (r : result A) (k : A → result B) : result B :=
  match r with
  | Ok a => k a
  | Throw e => Throw e
  | IllTyped => IllTyped
  end.

Declare Scope result_scope.
Delimit Scope result_scope with result.
Notation "'let?' x := r 'in' k" := (rbind r (λ x, k))
  (at level 10, x pattern, r at level 100, k at level 200) : result_scope.

#[warnings="-register-all"]
Inductive jsval :=
| JUndefined
| JNull
| JBool (b : bool)
| JNum (n : Q)
| JStr (s : string)
| JObj (props : list (string * jsval))
| JArr (items : list jsval)
| JFun (f : string).

(** An object whose fields are read and written by name. *)
Abbreviation JsObject := (gmap string jsval).

(** ToBoolean. *)
Definition truthy (v : jsval) : bool :=
  match v with
  | JUndefined | JNull => false
  | JBool b => b
  | JNum n => negb (Qeq_bool n 0)
  | JStr s => negb (String.eqb s "")
  | JObj _ | JArr _ | JFun _ => true
  end.

(** [a || b] (the right operand is a value here, never an effect). *)
Definition js_or (a b : jsval) : jsval := if truthy a then a else b.

(** [o.k] on a field map: a missing field reads as [undefined]. *)
Definition get (o : JsObject) (k : string) : jsval := default JUndefined (o !! k).

Fixpoint assoc (k : string) (props : list (string * jsval)) : jsval :=
  match props with
  | [] => JUndefined
  | (k', v) :: rest => if String.eqb k k' then v else assoc k rest
  end.

(** [v.k] on a value: reading a property of [undefined] or [null] throws. *)
Definition member (v : jsval) (k : string) : result jsval :=
  match v with
  | JUndefined | JNull => Throw (TypeError "Cannot read properties of undefined")
  | JObj props => Ok (assoc k props)
  | _ => Ok JUndefined
  end.

(** [v?.k]. *)
Definition member_opt (v : jsval) (k : string) : jsval :=
  match v with
  | JObj props => assoc k props
  | _ => JUndefined
  end.

Definition as_number (v : jsval) : result Q :=
  match v with
  | JNum n => Ok n
  | _ => IllTyped
  end.

Record Viewport := { innerWidth : Q; innerHeight : Q }.

Record MouseEvent := { clientX : Q; clientY : Q }.

(** ** EventEmitter *)

(** The callbacks the program registers: the ones a configuration supplies
    under [events] are opaque functions; the others are the closures that
    [Environment.createWindow] attaches, named after their event. *)
Inductive callback :=
| UserCallback (f : jsval)
| OnClose
| OnFocus
| OnDragStart
| OnMinimize
| OnDrag
| OnDragEnd
| OnPopup
| OnExportIconConfig
| OnChangeTaskbarTitle.

Module EventEmitter.

Abbreviation listeners := (gmap string (list callback)).

(** [on] and [emit], for an event name that [Object.prototype] does not
    define. *)
Definition on (event : string) (cb : callback) (ls : listeners) : listeners :=
  let cbs := match ls !! event with
             | None => []
             | Some cbs => cbs
             end in
  <[event := cbs ++ [cb]]> ls.

(** The callbacks [emit] runs, in order. *)
Definition emit (event : string) (ls : listeners) : list callback :=
  match ls !! event with
  | Some cbs => cbs
  | None => []
  end.

End EventEmitter.

(** ** Window *)

Module Window.

Local Open Scope Q_scope.
Local Open Scope result_scope.

(** The part of the DOM subtree of a window that its methods write. *)
Record Element := {
  style_left : Q;
  style_top : Q;
  style_width : Q;
  style_height : Q;
  style_display : string;
  style_zIndex : option Q;
  titleText_textContent : jsval;
  titleText_fontSize : jsval;
  contentArea_innerHTML : jsval;
  contentArea_children : list string;
}.

(** The state of one [Window] object. [className] is
    [this.constructor.name]. The fields [initialWidth], [initialHeight],
    [resizeDirX] and [resizeDirY] do not exist before the first
    [startResize]; they are only read under [isResizing], which
    [startResize] alone sets, and hold 0 until then. *)
Record t := {
  className : string;
  listeners : EventEmitter.listeners;
  config : JsObject;
  id : string;
  width : Q;
  height : Q;
  title : jsval;
  content : jsval;
  zIndex : Q;
  isMinimized : bool;
  icon : jsval;
  isDragging : bool;
  isResizing : bool;
  initialX : Q;
  initialY : Q;
  initialMouseX : Q;
  initialMouseY : Q;
  x : Q;
  y : Q;
  element : Element;
  initialWidth : Q;
  initialHeight : Q;
  resizeDirX : Q;
  resizeDirY : Q;
}.

Definition set_element (f : Element → Element) (w : t) : t :=
  {| className := className w; listeners := listeners w; config := config w;
     id := id w; width := width w; height := height w; title := title w;
     content := content w; zIndex := zIndex w; isMinimized := isMinimized w;
     icon := icon w; isDragging := isDragging w; isResizing := isResizing w;
     initialX := initialX w; initialY := initialY w;
     initialMouseX := initialMouseX w; initialMouseY := initialMouseY w;
     x := x w; y := y w; element := f (element w);
     initialWidth := initialWidth w; initialHeight := initialHeight w;
     resizeDirX := resizeDirX w; resizeDirY := resizeDirY w |}.

Definition set_position (nx ny : Q) (w : t) : t :=
  {| className := className w; listeners := listeners w; config := config w;
     id := id w; width := width w; height := height w; title := title w;
     content := content w; zIndex := zIndex w; isMinimized := isMinimized w;
     icon := icon w; isDragging := isDragging w; isResizing := isResizing w;
     initialX := initialX w; initialY := initialY w;
     initialMouseX := initialMouseX w; initialMouseY := initialMouseY w;
     x := nx; y := ny; element := element w;
     initialWidth := initialWidth w; initialHeight := initialHeight w;
     resizeDirX := resizeDirX w; resizeDirY := resizeDirY w |}.

Definition set_size (nw nh : Q) (w : t) : t :=
  {| className := className w; listeners := listeners w; config := config w;
     id := id w; width := nw; height := nh; title := title w;
     content := content w; zIndex := zIndex w; isMinimized := isMinimized w;
     icon := icon w; isDragging := isDragging w; isResizing := isResizing w;
     initialX := initialX w; initialY := initialY w;
     initialMouseX := initialMouseX w; initialMouseY := initialMouseY w;
     x := x w; y := y w; element := element w;
     initialWidth := initialWidth w; initialHeight := initialHeight w;
     resizeDirX := resizeDirX w; resizeDirY := resizeDirY w |}.

Definition set_isMinimized (b : bool) (w : t) : t :=
  {| className := className w; listeners := listeners w; config := config w;
     id := id w; width := width w; height := height w; title := title w;
     content := content w; zIndex := zIndex w; isMinimized := b;
     icon := icon w; isDragging := isDragging w; isResizing := isResizing w;
     initialX := initialX w; initialY := initialY w;
     initialMouseX := initialMouseX w; initialMouseY := initialMouseY w;
     x := x w; y := y w; element := element w;
     initialWidth := initialWidth w; initialHeight := initialHeight w;
     resizeDirX := resizeDirX w; resizeDirY := resizeDirY w |}.

Definition set_isDragging (b : bool) (w : t) : t :=
  {| className := className w; listeners := listeners w; config := config w;
     id := id w; width := width w; height := height w; title := title w;
     content := content w; zIndex := zIndex w; isMinimized := isMinimized w;
     icon := icon w; isDragging := b; isResizing := isResizing w;
     initialX := initialX w; initialY := initialY w;
     initialMouseX := initialMouseX w; initialMouseY := initialMouseY w;
     x := x w; y := y w; element := element w;
     initialWidth := initialWidth w; initialHeight := initialHeight w;
     resizeDirX := resizeDirX w; resizeDirY := resizeDirY w |}.

Definition set_isResizing (b : bool) (w : t) : t :=
  {| className := className w; listeners := listeners w; config := config w;
     id := id w; width := width w; height := height w; title := title w;
     content := content w; zIndex := zIndex w; isMinimized := isMinimized w;
     icon := icon w; isDragging := isDragging w; isResizing := b;
     initialX := initialX w; initialY := initialY w;
     initialMouseX := initialMouseX w; initialMouseY := initialMouseY w;
     x := x w; y := y w; element := element w;
     initialWidth := initialWidth w; initialHeight := initialHeight w;
     resizeDirX := resizeDirX w; resizeDirY := resizeDirY w |}.

Definition set_zIndex (z : Q) (w : t) : t :=
  {| className := className w; listeners := listeners w; config := config w;
     id := id w; width := width w; height := height w; title := title w;
     content := content w; zIndex := z; isMinimized := isMinimized w;
     icon := icon w; isDragging := isDragging w; isResizing := isResizing w;
     initialX := initialX w; initialY := initialY w;
     initialMouseX := initialMouseX w; initialMouseY := initialMouseY w;
     x := x w; y := y w; element := element w;
     initialWidth := initialWidth w; initialHeight := initialHeight w;
     resizeDirX := resizeDirX w; resizeDirY := resizeDirY w |}.

Definition set_title (v : jsval) (w : t) : t :=
  {| className := className w; listeners := listeners w; config := config w;
     id := id w; width := width w; height := height w; title := v;
     content := content w; zIndex := zIndex w; isMinimized := isMinimized w;
     icon := icon w; isDragging := isDragging w; isResizing := isResizing w;
     initialX := initialX w; initialY := initialY w;
     initialMouseX := initialMouseX w; initialMouseY := initialMouseY w;
     x := x w; y := y w; element := element w;
     initialWidth := initialWidth w; initialHeight := initialHeight w;
     resizeDirX := resizeDirX w; resizeDirY := resizeDirY w |}.

Definition set_content (v : jsval) (w : t) : t :=
  {| className := className w; listeners := listeners w; config := config w;
     id := id w; width := width w; height := height w; title := title w;
     content := v; zIndex := zIndex w; isMinimized := isMinimized w;
     icon := icon w; isDragging := isDragging w; isResizing := isResizing w;
     initialX := initialX w; initialY := initialY w;
     initialMouseX := initialMouseX w; initialMouseY := initialMouseY w;
     x := x w; y := y w; element := element w;
     initialWidth := initialWidth w; initialHeight := initialHeight w;
     resizeDirX := resizeDirX w; resizeDirY := resizeDirY w |}.

Definition set_listeners (ls : EventEmitter.listeners) (w : t) : t :=
  {| className := className w; listeners := ls; config := config w;
     id := id w; width := width w; height := height w; title := title w;
     content := content w; zIndex := zIndex w; isMinimized := isMinimized w;
     icon := icon w; isDragging := isDragging w; isResizing := isResizing w;
     initialX := initialX w; initialY := initialY w;
     initialMouseX := initialMouseX w; initialMouseY := initialMouseY w;
     x := x w; y := y w; element := element w;
     initialWidth := initialWidth w; initialHeight := initialHeight w;
     resizeDirX := resizeDirX w; resizeDirY := resizeDirY w |}.

(** [startDrag] and [startResize] store the anchors. *)
Definition set_drag_anchor (ix iy mx my : Q) (w : t) : t :=
  {| className := className w; listeners := listeners w; config := config w;
     id := id w; width := width w; height := height w; title := title w;
     content := content w; zIndex := zIndex w; isMinimized := isMinimized w;
     icon := icon w; isDragging := isDragging w; isResizing := isResizing w;
     initialX := ix; initialY := iy;
     initialMouseX := mx; initialMouseY := my;
     x := x w; y := y w; element := element w;
     initialWidth := initialWidth w; initialHeight := initialHeight w;
     resizeDirX := resizeDirX w; resizeDirY := resizeDirY w |}.

Definition set_resize_anchor (iw ih dx dy : Q) (w : t) : t :=
  {| className := className w; listeners := listeners w; config := config w;
     id := id w; width := width w; height := height w; title := title w;
     content := content w; zIndex := zIndex w; isMinimized := isMinimized w;
     icon := icon w; isDragging := isDragging w; isResizing := isResizing w;
     initialX := initialX w; initialY := initialY w;
     initialMouseX := initialMouseX w; initialMouseY := initialMouseY w;
     x := x w; y := y w; element := element w;
     initialWidth := iw; initialHeight := ih;
     resizeDirX := dx; resizeDirY := dy |}.

Definition on (event : string) (cb : callback) (w : t) : t :=
  set_listeners (EventEmitter.on event cb (listeners w)) w.

(** *** Rendering *)

Definition updatePosition (w : t) : t :=
  set_element (λ e,
    {| style_left := x w; style_top := y w;
       style_width := style_width e; style_height := style_height e;
       style_display := style_display e; style_zIndex := style_zIndex e;
       titleText_textContent := titleText_textContent e;
       titleText_fontSize := titleText_fontSize e;
       contentArea_innerHTML := contentArea_innerHTML e;
       contentArea_children := contentArea_children e |}) w.

Definition set_display (d : string) (w : t) : t :=
  set_element (λ e,
    {| style_left := style_left e; style_top := style_top e;
       style_width := style_width e; style_height := style_height e;
       style_display := d; style_zIndex := style_zIndex e;
       titleText_textContent := titleText_textContent e;
       titleText_fontSize := titleText_fontSize e;
       contentArea_innerHTML := contentArea_innerHTML e;
       contentArea_children := contentArea_children e |}) w.

Definition minimize (w : t) : t :=
  set_display "none" (set_isMinimized true w).

Definition restore (w : t) : t :=
  set_display "block" (set_isMinimized false w).

Definition toggleMinimize (w : t) : t * list string :=
  let w := if isMinimized w then restore w else minimize w in
  (w, ["minimize"]).

Definition setZIndex (index : Q) (w : t) : t :=
  set_element (λ e,
    {| style_left := style_left e; style_top := style_top e;
       style_width := style_width e; style_height := style_height e;
       style_display := style_display e; style_zIndex := Some index;
       titleText_textContent := titleText_textContent e;
       titleText_fontSize := titleText_fontSize e;
       contentArea_innerHTML := contentArea_innerHTML e;
       contentArea_children := contentArea_children e |})
    (set_zIndex index w).

(** *** Construction *)

(** [#createElement], up to the first use of the configuration's styles:
    [this.#config.styles.titlebar_fontsize] throws when [styles] is
    [undefined] or [null]. The style takes a width and a height that are
    not negative; the DOM ignores the assignment of a negative length. *)
Definition createElement (w : t) : result t :=
  let? fontsize := member (get (config w) "styles") "titlebar_fontsize" in
  Ok (set_element (λ _,
    {| style_left := x w; style_top := y w;
       style_width := width w; style_height := height w;
       style_display := ""; style_zIndex := None;
       titleText_textContent := title w;
       titleText_fontSize := js_or fontsize (JStr "12px");
       contentArea_innerHTML := content w;
       contentArea_children := [] |}) w).

Definition blank : Element :=
  {| style_left := 0; style_top := 0; style_width := 0; style_height := 0;
     style_display := ""; style_zIndex := None;
     titleText_textContent := JUndefined; titleText_fontSize := JUndefined;
     contentArea_innerHTML := JUndefined; contentArea_children := [] |}.

(** The placement used when the configuration gives no (truthy) [x] or
    [y]; [rx] and [ry] are the two draws of [Math.random()]. *)
Definition randomX (vp : Viewport) (rx w : Q) : Q :=
  Qmin (Qmax 0 (rx * (innerWidth vp - w - 100))) (innerWidth vp - w).

Definition randomY (vp : Viewport) (ry h : Q) : Q :=
  Qmin (Qmax 100 (ry * (innerHeight vp - h) - 100)) (innerHeight vp - h).

(** [new C(Id, config)] for a class [C] named [cls] that runs this
    constructor. *)
Definition new (cls : string) (vp : Viewport) (rx ry : Q)
    (Id : string) (config : JsObject) : result t :=
  let? width := as_number (get config "width") in
  let? height := as_number (get config "height") in
  let title := get config "title" in
  let content := get config "content" in
  let? zIndex := as_number (js_or (get config "zIndex") (JNum 1)) in
  let minimized := js_or (get config "isMinimized") (JBool false) in
  let icon := js_or (get config "icon") JNull in
  let? x := as_number (js_or (get config "x") (JNum (randomX vp rx width))) in
  let? y := as_number (js_or (get config "y") (JNum (randomY vp ry height))) in
  let this :=
    {| className := cls; listeners := ∅; config := config; id := Id;
       width := width; height := height; title := title; content := content;
       zIndex := zIndex; isMinimized := truthy minimized; icon := icon;
       isDragging := false; isResizing := false;
       initialX := 0; initialY := 0; initialMouseX := 0; initialMouseY := 0;
       x := x; y := y; element := blank;
       initialWidth := 0; initialHeight := 0;
       resizeDirX := 0; resizeDirY := 0 |} in
  let? this := createElement this in
  Ok (if truthy minimized then minimize this else this).

(** *** Viewport resize *)

Definition handleResize (vp : Viewport) (w : t) : t :=
  let maxX := Qmax 0 (innerWidth vp - width w) in
  let maxY := Qmax 0 (innerHeight vp - height w) in
  updatePosition (set_position (Qmin (x w) maxX) (Qmin (y w) maxY) w).

(** *** Dragging *)

Definition startDrag (event : MouseEvent) (w : t) : t * list string :=
  let w := set_isDragging true w in
  let w := set_drag_anchor (x w) (y w) (clientX event) (clientY event) w in
  (w, ["dragStart"]).

Definition drag (vp : Viewport) (event : MouseEvent) (w : t) : t * list string :=
  if negb (isDragging w) then (w, []) else
  let deltaX := clientX event - initialMouseX w in
  let deltaY := clientY event - initialMouseY w in
  let newX := initialX w + deltaX in
  let newY := initialY w + deltaY in
  let newX := Qmax 0 (Qmin newX (innerWidth vp - width w)) in
  let newY := Qmax 0 (Qmin newY (innerHeight vp - height w)) in
  (updatePosition (set_position newX newY w), ["drag"]).

Definition dragEnd (w : t) : t * list string :=
  if negb (isDragging w) then (w, []) else
  (set_isDragging false w, ["dragEnd"]).

(** *** Snapshot *)

Definition getState (w : t) : list (string * jsval) :=
  [ ("width", JNum (width w));
    ("height", JNum (height w));
    ("x", JNum (x w));
    ("y", JNum (y w));
    ("zIndex", JNum (zIndex w));
    ("isMinimized", JBool (isMinimized w));
    ("icon", icon w);
    ("title", title w);
    ("content", content w);
    ("styles", get (config w) "styles");
    ("events", get (config w) "events") ].

(** *** Resizing *)

Definition startResize (event : MouseEvent) (dx dy : Q) (w : t) : t :=
  let w := set_isResizing true w in
  let w := set_resize_anchor (width w) (height w) dx dy w in
  set_drag_anchor (x w) (y w) (clientX event) (clientY event) w.

Definition resize (vp : Viewport) (event : MouseEvent) (w : t) : t :=
  if negb (isResizing w) then w else
  let deltaX := clientX event - initialMouseX w in
  let deltaY := clientY event - initialMouseY w in
  let newWidth := initialWidth w in
  let newHeight := height w in
  let newX := x w in
  let newY := y w in
  let '(newWidth, newX) :=
    if negb (Qeq_bool (resizeDirX w) 0) then
      let newWidth := Qmax 200 (initialWidth w + deltaX * resizeDirX w) in
      (newWidth,
       if Qlt_le_dec (resizeDirX w) 0
       then initialX w + (initialWidth w - newWidth) else newX)
    else (newWidth, newX) in
  let '(newHeight, newY) :=
    if negb (Qeq_bool (resizeDirY w) 0) then
      let newHeight := Qmax 100 (initialHeight w + deltaY * resizeDirY w) in
      (newHeight,
       if Qlt_le_dec (resizeDirY w) 0
       then initialY w + (initialHeight w - newHeight) else newY)
    else (newHeight, newY) in
  let newX := Qmax 0 (Qmin newX (innerWidth vp - newWidth)) in
  let newY := Qmax 0 (Qmin newY (innerHeight vp - newHeight)) in
  let w := set_position newX newY (set_size newWidth newHeight w) in
  updatePosition (set_element (λ e,
    {| style_left := style_left e; style_top := style_top e;
       style_width := width w; style_height := height w;
       style_display := style_display e; style_zIndex := style_zIndex e;
       titleText_textContent := titleText_textContent e;
       titleText_fontSize := titleText_fontSize e;
       contentArea_innerHTML := contentArea_innerHTML e;
       contentArea_children := contentArea_children e |}) w).

Definition endResize (w : t) : t * list string :=
  if negb (isResizing w) then (w, []) else
  (set_isResizing false w, ["resize"]).

(** *** Remote content *)

(** What the page's environment answers while [fetchWindowContents] runs:
    the result of calling [HTMLImageElement()], the outcome of awaiting
    [fetch(url)] (a rejected promise is a thrown exception), the document
    [DOMParser] builds from a text, and [new URL(url).origin]. *)
Record Response := { ok : bool; status : string; text : result string }.

Record Document := {
  doc_title : option string;
  doc_body : option string;
  doc_scripts : list string;
}.

Record Platform := {
  HTMLImageElement_call : result string;
  fetch : string → result Response;
  parseFromString : string → Document;
  URL_origin : string → result string;
}.

Definition set_contentArea (html : jsval) (children : list string) (w : t) : t :=
set_element (λ e,
  {| style_left := style_left e; style_top := style_top e;
     style_width := style_width e; style_height := style_height e;
     style_display := style_display e; style_zIndex := style_zIndex e;
     titleText_textContent := titleText_textContent e;
     titleText_fontSize := titleText_fontSize e;
     contentArea_innerHTML := html;
     contentArea_children := children |}) w.

(** [handleScripts]: a script without [src] is kept, every script is
    fetched, and a failed fetch is logged; the scripts are then appended
    to the content area. Returns the messages logged. *)
Definition handleScripts (p : Platform) (scripts : list string) (w : t)
  : t * list string :=
let '(outscripts, log) :=
  fold_left
    (λ '(out, log) src,
       let out := if String.eqb src "" then out ++ [src] else out in
       match fetch p src with
       | Ok response =>
           match text response with
           | Ok body => (out ++ [body], log)
           | _ => (out, log ++ ["Failed to load external script:"])
           end
       | _ => (out, log ++ ["Failed to load external script:"])
       end)
    scripts ([], []) in
(set_contentArea (contentArea_innerHTML (element w))
                 (contentArea_children (element w) ++ outscripts) w,
 log).

(** The body of the [try] block: the outcome, the state reached, and the
    messages logged. *)
Definition fetchAttempt (p : Platform) (url : string)
  (oldTitle oldContent : jsval) (w : t) : result unit * t * list string :=
match fetch p url with
| Ok response =>
    if negb (ok response)
    then (Throw (Error ("HTTP error! status: " +:+ status response)), w, [])
    else
      match text response with
      | Ok data =>
          let page := parseFromString p data in
          let w := set_title
                     (js_or (from_option JStr JUndefined (doc_title page))
                            oldTitle) w in
          let w := set_content
                     (js_or (from_option JStr JUndefined (doc_body page))
                            oldContent) w in
          match URL_origin p url with
          | Ok baseUrl =>
              let scripts :=
                (λ src, if String.prefix "/" src then baseUrl +:+ src else src)
                  <$> doc_scripts page in
              let '(w, log) := handleScripts p scripts w in
              (Ok tt, w, log)
          | Throw e => (Throw e, w, [])
          | IllTyped => (IllTyped, w, [])
          end
      | Throw e => (Throw e, w, [])
      | IllTyped => (IllTyped, w, [])
      end
| Throw e => (Throw e, w, [])
| IllTyped => (IllTyped, w, [])
end.

(** [fetchWindowContents(url)]: the outcome for the caller, the state of
    the window, and the messages logged. The loading image is the element
    that [HTMLImageElement()] returns; its [src] is not followed. *)
Definition fetchWindowContents (p : Platform) (url : string) (w : t)
  : result unit * t * list string :=
let oldTitle := title w in
let oldContent := content w in
let w := set_title (JStr "Loading...") w in
match HTMLImageElement_call p with
| Ok loadingGif =>
    let w := set_contentArea (JStr "") [loadingGif] w in
    match fetchAttempt p url oldTitle oldContent w with
    | (Throw err, w, log) =>
        (Ok tt, set_content oldContent (set_title oldTitle w),
         log ++ ["Failed to fetch window contents:"])
    | outcome => outcome
    end
| Throw e => (Throw e, w, [])
| IllTyped => (IllTyped, w, [])
end.

(** *** Geometry predicates *)

(** The window lies inside the viewport. *)
Definition inBounds (vp : Viewport) (w : t) : Prop :=
  0 <= x w ∧ x w <= innerWidth vp - width w ∧
  0 <= y w ∧ y w <= innerHeight vp - height w.

(** The window is no larger than the viewport. *)
Definition fits (vp : Viewport) (w : t) : Prop :=
  width w <= innerWidth vp ∧ height w <= innerHeight vp.

(** What the clamping of [drag], [resize] and [handleResize] gives for a
    window of any size. *)
Definition anchored (vp : Viewport) (w : t) : Prop :=
  0 <= x w ∧ x w <= Qmax 0 (innerWidth vp - width w) ∧
  0 <= y w ∧ y w <= Qmax 0 (innerHeight vp - height w).

(** Every field of a window but the private [#config]. *)
Definition fields (w : t) :=
  (className w, listeners w, id w, (width w, height w, x w, y w),
   (title w, content w, icon w), zIndex w, isMinimized w,
   (isDragging w, isResizing w),
   (initialX w, initialY w, initialMouseX w, initialMouseY w),
   (initialWidth w, initialHeight w, resizeDirX w, resizeDirY w),
   element w).

(** The configuration fields the constructor reads through [||]. *)
Definition defaulted : list string :=
  ["zIndex"; "isMinimized"; "icon"; "x"; "y"].

(** *** Messages *)

(** The text of a message is the sequence of its UTF-16 code units, as
    [String.prototype.slice], [trim] and a regular expression without the
    [u] flag see it. *)
Abbreviation codeUnit := N.

(** A fragment of a message; [type] is 'text' or 'code'. *)
Module TextFragment.
Record t := { type : string; content : list codeUnit }.
End TextFragment.

(** The code units [String.prototype.trim] strips at both ends, the
    WhiteSpace and LineTerminator ones: TAB, LF, VT, FF, CR, SP, NBSP,
    U+1680, U+2000 to U+200A, U+2028, U+2029, U+202F, U+205F, U+3000 and
    U+FEFF. *)
Definition isWhiteSpace (c : codeUnit) : bool :=
  bool_decide (c ∈ [9; 10; 11; 12; 13; 32; 160; 5760; 8232; 8233; 8239; 8287;
                    12288; 65279]%N)
  || bool_decide (8192 ≤ c ≤ 8202)%N.

Fixpoint trimStart (s : list codeUnit) : list codeUnit :=
  match s with
  | c :: rest => if isWhiteSpace c then trimStart rest else s
  | [] => []
  end.

Fixpoint trimEnd (s : list codeUnit) : list codeUnit :=
  match s with
  | c :: rest =>
      match trimEnd rest with
      | [] => if isWhiteSpace c then [] else [c]
      | kept => c :: kept
      end
  | [] => []
  end.

Definition trim (s : list codeUnit) : list codeUnit := trimEnd (trimStart s).

(** The backtick, and the fence of three. *)
Definition backtick : codeUnit := 96%N.

Definition fence : list codeUnit := [backtick; backtick; backtick].

(** The text before the first fence of [s] and the text after it. *)
Fixpoint splitFence (s : list codeUnit)
    : option (list codeUnit * list codeUnit) :=
  match s with
  | c :: rest =>
      if bool_decide (take 3 s = fence) then Some ([], drop 3 s)
      else match splitFence rest with
           | Some (before, after) => Some (c :: before, after)
           | None => None
           end
  | [] => None
  end.

(** [codeBlockRegex.exec(text)] for the pattern of a fenced block, three
    backticks, [([\s\S]*?)] and three backticks, on the part of the text
    that starts at [lastIndex]: the text before the match, the group
    [match[1]] and the text after the match. The match starts at the
    first fence that some later fence closes, which is the first fence
    of all when any is closed, and the lazy group ends at the next
    fence. *)
Definition exec (rest : list codeUnit)
    : option (list codeUnit * list codeUnit * list codeUnit) :=
  match splitFence rest with
  | Some (before, opened) =>
      match splitFence opened with
      | Some (group, after) => Some (before, group, after)
      | None => None
      end
  | None => None
  end.

(** The text [text.slice(currentIndex, end)] as a fragment, when it is
    not empty. *)
Definition textFragment (slice : list codeUnit) : list TextFragment.t :=
  match slice with
  | [] => []
  | _ => [ {| TextFragment.type := "text"; TextFragment.content := slice |} ]
  end.

(** The [while] loop and the statements after it, on the text that
    starts at [currentIndex] (which is the regular expression's
    [lastIndex] at every test of the loop); [fuel] bounds the number of
    matches. *)
Fixpoint parseFrom (fuel : nat) (rest : list codeUnit) : list TextFragment.t :=
  match fuel with
  | S fuel =>
      match exec rest with
      | Some (before, group, after) =>
          textFragment before ++
          {| TextFragment.type := "code"; TextFragment.content := trim group |}
            :: parseFrom fuel after
      | None => textFragment rest
      end
  | O => textFragment rest
  end.

(** A match takes six code units at least. *)
Definition parseMessageContent (text : list codeUnit) : list TextFragment.t :=
  parseFrom (length text) text.

End Window.

(** ** Map: keyed entries in insertion order *)

Module JsMap.
Section JsMap.
Context {A : Type}.

Abbreviation t := (list (string * A)).

Definition has (k : string) (m : t) : bool :=
  bool_decide (k ∈ m.*1).

Fixpoint get (k : string) (m : t) : option A :=
  match m with
  | [] => None
  | (k', v) :: rest => if String.eqb k k' then Some v else get k rest
  end.

(** [set] keeps the position of a key that is present and appends a new
    one. *)
Fixpoint set (k : string) (v : A) (m : t) : t :=
  match m with
  | [] => [(k, v)]
  | (k', v') :: rest =>
      if String.eqb k k' then (k', v) :: rest else (k', v') :: set k v rest
  end.

Fixpoint delete (k : string) (m : t) : t :=
  match m with
  | [] => []
  | (k', v') :: rest =>
      if String.eqb k k' then delete k rest else (k', v') :: delete k rest
  end.

Definition values (m : t) : list A := m.*2.

Definition keys (m : t) : list string := m.*1.

End JsMap.
End JsMap.

(** ** JSON *)

(** [JSON.stringify]: the text is represented by the document it denotes.
    A property whose value is [undefined] or a function is left out; such
    an array item becomes [null]. [None] is the [undefined] that
    [JSON.stringify] returns for such a value at the top. *)
Fixpoint JSON_stringify (v : jsval) : option jsval :=
  match v with
  | JUndefined | JFun _ => None
  | JObj props =>
      Some (JObj ((fix members (ps : list (string * jsval)) :=
                     match ps with
                     | [] => []
                     | (k, x) :: rest =>
                         match JSON_stringify x with
                         | Some j => (k, j) :: members rest
                         | None => members rest
                         end
                     end) props))
  | JArr items =>
      Some (JArr ((fix elements (xs : list jsval) :=
                     match xs with
                     | [] => []
                     | x :: rest =>
                         default JNull (JSON_stringify x) :: elements rest
                     end) items))
  | _ => Some v
  end.

(** ** Environment *)

Module Environment.

Local Open Scope Q_scope.

(** A reference to an object: windows and DOM nodes are compared by
    identity. *)
Abbreviation loc := nat.

(** Modelled from the spec: the window classes other than [Window]
    (chat.js, emojiselector.js, timedwindow.js and musicplayer.js), which
    [environment.js] imports and the sources do not contain. The spec
    has a class that is accepted as a window type share the constructor
    contract of the base Window. A value passed as [WindowClass] is its
    [name], and whether [WindowClass.prototype instanceof Window] holds;
    a subclass runs the constructor of [Window]. *)
Record Class := { name : string; isSubclass : bool }.

Definition Window : Class := {| name := "Window"; isSubclass := false |}.
Definition ChatWindow : Class := {| name := "ChatWindow"; isSubclass := true |}.
Definition Popup : Class := {| name := "Popup"; isSubclass := true |}.
Definition EmojiSelector : Class := {| name := "EmojiSelector"; isSubclass := true |}.
Definition MusicPlayerWindow : Class :=
  {| name := "MusicPlayerWindow"; isSubclass := true |}.

(** The keys of [windowTypes]: the constructor registers names, while
    [createWindow] registers the class object itself. *)
Abbreviation typeKey := (string + string)%type.
Abbreviation ByName := (@inl string string).
Abbreviation ByClass := (@inr string string).

(** What [icons] holds: an [Icon] object of the desktop, or the button
    that [pinWindow] puts in the taskbar (a DOM node). *)
Inductive handle :=
| IconObject (title : string)
| TaskbarItem (node : loc).

Record t := {
  heap : gmap loc Window.t;
  nextLoc : loc;
  windows : list (string * loc);
  icons : gmap string handle;
  zIndexBase : Q;
  windowTypes : gmap typeKey JsObject;
  currentlyDragging : option loc;
  environment_children : list loc;
  taskbarScrollContainer_children : list loc;
  localStorage : gmap string jsval;
  console : list string;
}.

Definition set_heap (f : gmap loc Window.t → gmap loc Window.t) (s : t) : t :=
  {| heap := f (heap s); nextLoc := nextLoc s; windows := windows s;
     icons := icons s; zIndexBase := zIndexBase s;
     windowTypes := windowTypes s; currentlyDragging := currentlyDragging s;
     environment_children := environment_children s;
     taskbarScrollContainer_children := taskbarScrollContainer_children s;
     localStorage := localStorage s; console := console s |}.

Definition set_nextLoc (n : loc) (s : t) : t :=
  {| heap := heap s; nextLoc := n; windows := windows s;
     icons := icons s; zIndexBase := zIndexBase s;
     windowTypes := windowTypes s; currentlyDragging := currentlyDragging s;
     environment_children := environment_children s;
     taskbarScrollContainer_children := taskbarScrollContainer_children s;
     localStorage := localStorage s; console := console s |}.

Definition set_windows (f : list (string * loc) → list (string * loc)) (s : t) : t :=
  {| heap := heap s; nextLoc := nextLoc s; windows := f (windows s);
     icons := icons s; zIndexBase := zIndexBase s;
     windowTypes := windowTypes s; currentlyDragging := currentlyDragging s;
     environment_children := environment_children s;
     taskbarScrollContainer_children := taskbarScrollContainer_children s;
     localStorage := localStorage s; console := console s |}.

Definition set_icons (f : gmap string handle → gmap string handle) (s : t) : t :=
  {| heap := heap s; nextLoc := nextLoc s; windows := windows s;
     icons := f (icons s); zIndexBase := zIndexBase s;
     windowTypes := windowTypes s; currentlyDragging := currentlyDragging s;
     environment_children := environment_children s;
     taskbarScrollContainer_children := taskbarScrollContainer_children s;
     localStorage := localStorage s; console := console s |}.

Definition set_windowTypes (f : gmap typeKey JsObject → gmap typeKey JsObject)
    (s : t) : t :=
  {| heap := heap s; nextLoc := nextLoc s; windows := windows s;
     icons := icons s; zIndexBase := zIndexBase s;
     windowTypes := f (windowTypes s); currentlyDragging := currentlyDragging s;
     environment_children := environment_children s;
     taskbarScrollContainer_children := taskbarScrollContainer_children s;
     localStorage := localStorage s; console := console s |}.

Definition set_currentlyDragging (d : option loc) (s : t) : t :=
  {| heap := heap s; nextLoc := nextLoc s; windows := windows s;
     icons := icons s; zIndexBase := zIndexBase s;
     windowTypes := windowTypes s; currentlyDragging := d;
     environment_children := environment_children s;
     taskbarScrollContainer_children := taskbarScrollContainer_children s;
     localStorage := localStorage s; console := console s |}.

Definition set_environment_children (f : list loc → list loc) (s : t) : t :=
  {| heap := heap s; nextLoc := nextLoc s; windows := windows s;
     icons := icons s; zIndexBase := zIndexBase s;
     windowTypes := windowTypes s; currentlyDragging := currentlyDragging s;
     environment_children := f (environment_children s);
     taskbarScrollContainer_children := taskbarScrollContainer_children s;
     localStorage := localStorage s; console := console s |}.

Definition set_taskbarScrollContainer_children (f : list loc → list loc)
    (s : t) : t :=
  {| heap := heap s; nextLoc := nextLoc s; windows := windows s;
     icons := icons s; zIndexBase := zIndexBase s;
     windowTypes := windowTypes s; currentlyDragging := currentlyDragging s;
     environment_children := environment_children s;
     taskbarScrollContainer_children := f (taskbarScrollContainer_children s);
     localStorage := localStorage s; console := console s |}.

Definition set_localStorage (f : gmap string jsval → gmap string jsval)
    (s : t) : t :=
  {| heap := heap s; nextLoc := nextLoc s; windows := windows s;
     icons := icons s; zIndexBase := zIndexBase s;
     windowTypes := windowTypes s; currentlyDragging := currentlyDragging s;
     environment_children := environment_children s;
     taskbarScrollContainer_children := taskbarScrollContainer_children s;
     localStorage := f (localStorage s); console := console s |}.

Definition set_console (f : list string → list string) (s : t) : t :=
  {| heap := heap s; nextLoc := nextLoc s; windows := windows s;
     icons := icons s; zIndexBase := zIndexBase s;
     windowTypes := windowTypes s; currentlyDragging := currentlyDragging s;
     environment_children := environment_children s;
     taskbarScrollContainer_children := taskbarScrollContainer_children s;
     localStorage := localStorage s; console := f (console s) |}.

(** *** Methods as state transformers

    A method runs on the environment's state and returns a value or
    throws; the state it had reached when it threw stays as it is. *)
Definition M (A : Type) : Type := t → result A * t.

Definition ret {A} (a : A) : M A := λ s, (Ok a, s).

Definition bind {A B} (m : M A) (k : A → M B) : M B :=
  λ s, match m s with
       | (Ok a, s') => k a s'
       | (Throw e, s') => (Throw e, s')
       | (IllTyped, s') => (IllTyped, s')
       end.

Definition throw {A} (e : exn) : M A := λ s, (Throw e, s).

Definition lift {A} (r : result A) : M A := λ s, (r, s).

Definition gets {A} (f : t → A) : M A := λ s, (Ok (f s), s).

Definition modify (f : t → t) : M unit := λ s, (Ok tt, f s).

Declare Scope env_scope.
Delimit Scope env_scope with env.
Notation "'let!' x := m 'in' k" := (bind m (λ x, k))
  (at level 10, x pattern, m at level 100, k at level 200) : env_scope.
Notation "m ;; k" := (bind m (λ _, k))
  (at level 100, k at level 200, right associativity) : env_scope.
Local Open Scope env_scope.

Fixpoint forEach {A} (f : A → M unit) (xs : list A) : M unit :=
  match xs with
  | [] => ret tt
  | a :: rest => f a ;; forEach f rest
  end.

Fixpoint mapM {A B} (f : A → M B) (xs : list A) : M (list B) :=
  match xs with
  | [] => ret []
  | a :: rest =>
      let! b := f a in
      let! bs := mapM f rest in
      ret (b :: bs)
  end.

(** Reading and writing the object behind a reference; a reference the
    heap does not hold cannot be formed by the program. *)
Definition deref (l : loc) : M Window.t :=
  λ s, match heap s !! l with
       | Some w => (Ok w, s)
       | None => (IllTyped, s)
       end.

Definition store (l : loc) (w : Window.t) : M unit :=
  modify (set_heap (λ h, <[l := w]> h)).

Definition update (l : loc) (f : Window.t → Window.t) : M unit :=
  let! w := deref l in store l (f w).

Definition alloc (w : Window.t) : M loc :=
  let! l := gets nextLoc in
  modify (λ s, set_nextLoc (S l) (set_heap (λ h, <[l := w]> h) s)) ;;
  ret l.

Definition fresh_node : M loc :=
  let! l := gets nextLoc in
  modify (set_nextLoc (S l)) ;;
  ret l.

Definition console_log (msg : string) : M unit :=
  modify (set_console (λ c, c ++ [msg])).

(** *** The DOM operations the methods use *)

(** [parent.appendChild(node)]: a node that is already a child moves to
    the end. *)
Definition appendChild (node : loc) (children : list loc) : list loc :=
  filter (λ n, n ≠ node) children ++ [node].

(** [parent.removeChild(node)] throws when [node] is not a child. *)
Definition removeChild (node : loc) (children : list loc) : result (list loc) :=
  if bool_decide (node ∈ children)
  then Ok (filter (λ n, n ≠ node) children)
  else Throw (NotFoundError "The node to be removed is not a child of this node").

(** [this.taskbarScrollContainer.removeChild(this.icons.get(id))]: the
    argument is [undefined] when the window has no pin, and an [Icon]
    object when [id] is the title of a desktop icon; neither is a Node,
    and [removeChild] throws. *)
Definition removeChild_handle (h : option handle) (children : list loc)
    : result (list loc) :=
  match h with
  | Some (TaskbarItem node) => removeChild node children
  | Some (IconObject _) | None =>
      Throw (TypeError "parameter 1 is not of type 'Node'")
  end.

(** *** Construction *)

Definition defaultConfig (title : string) (width height : Q)
    (extra : list (string * jsval)) (events : list (string * jsval)) : JsObject :=
  list_to_map
    ([ ("width", JNum width); ("height", JNum height); ("icon", JStr "");
       ("title", JStr title) ] ++ extra ++
     [ ("content", JStr ""); ("styles", JObj []); ("events", JObj events);
       ("savedstate", JObj []) ]).

(** The state the constructor leaves: no window, the four desktop icons,
    the four registered window types. *)
Definition new : t :=
  {| heap := ∅;
     nextLoc := 0%nat;
     windows := [];
     icons := list_to_map
                [ ("Welcome", IconObject "Welcome");
                  ("Current Projects", IconObject "Current Projects");
                  ("Music", IconObject "Music");
                  ("Bonzi", IconObject "Bonzi") ];
     zIndexBase := 1000;
     windowTypes :=
       list_to_map
         [ (ByName (name Window), defaultConfig "Window" 600 400 [] []);
           (ByName (name ChatWindow),
            defaultConfig "Chat" 600 400
              [ ("channel", JStr "general"); ("username", JStr "Anonymous") ]
              [ ("toggleEmojis", JFun "toggleEmojis");
                ("usernameChanged", JFun "usernameChanged") ]);
           (ByName (name Popup), defaultConfig "Popup" 300 200 [] []);
           (ByName (name EmojiSelector), defaultConfig "Emojis" 300 400 [] []) ];
     currentlyDragging := None;
     environment_children := [];
     taskbarScrollContainer_children := [];
     localStorage := ∅;
     console := [] |}.

(** *** Persistence *)

Definition storageKey : string := "windowEnvironmentState".

(** One entry of the snapshot: [{...window.getState(), className}]. *)
Definition savedWindow (w : Window.t) : jsval :=
  JObj (Window.getState w ++ [("className", JStr (Window.className w))]).

Definition saveState : M unit :=
  let! ws := gets (λ s, JsMap.values (windows s)) in
  let! entries := mapM (λ l, let! w := deref l in ret (savedWindow w)) ws in
  let state := JObj [("windows", JArr entries)] in
  modify (set_localStorage (λ st,
    match JSON_stringify state with
    | Some doc => <[storageKey := doc]> st
    | None => st
    end)).

Definition clearSavedState : M unit :=
  modify (set_localStorage (λ st, delete storageKey st)).

(** *** z-order *)

(** The loop of [updateZIndices]; [index] counts the windows visited,
    from 0 by ones. *)
Fixpoint setZIndices (base : Q) (index : nat) (ws : list loc) : M unit :=
  match ws with
  | [] => ret tt
  | window :: rest =>
      update window (Window.setZIndex (base + inject_Z (Z.of_nat index))) ;;
      setZIndices base (S index) rest
  end.

Definition updateZIndices : M unit :=
  let! base := gets zIndexBase in
  let! ws := gets (λ s, JsMap.values (windows s)) in
  setZIndices base 0 ws.

(** [Array.prototype.indexOf] on references; [None] is -1. *)
Fixpoint indexOf (l : loc) (arr : list loc) : option nat :=
  match arr with
  | [] => None
  | l' :: rest => if Nat.eqb l' l then Some 0%nat else S <$> indexOf l rest
  end.

Definition bringToFront (window : loc) : M unit :=
  let! windowArray := gets (λ s, JsMap.values (windows s)) in
  match indexOf window windowArray with
  | Some index =>
      let windowArray := delete index windowArray in
      let windowArray := windowArray ++ [window] in
      modify (set_windows (λ _, [])) ;;
      forEach (λ w, let! o := deref w in
                    modify (set_windows (JsMap.set (Window.id o) w)))
              windowArray ;;
      updateZIndices ;;
      saveState
  | None => ret tt
  end.

(** *** Taskbar pins and removal *)

Definition pinWindow (window : loc) : M unit :=
  let! w := deref window in
  let! taskbarItem := fresh_node in
  modify (set_taskbarScrollContainer_children (appendChild taskbarItem)) ;;
  modify (set_icons (λ i, <[Window.id w := TaskbarItem taskbarItem]> i)).

Definition removeWindow (window : loc) : M unit :=
  let! w := deref window in
  console_log ("Removing window: " +:+ Window.id w) ;;
  let! ws := gets windows in
  if JsMap.has (Window.id w) ws then
    modify (set_windows (JsMap.delete (Window.id w))) ;;
    let! children := gets environment_children in
    let! children := lift (removeChild window children) in
    modify (set_environment_children (λ _, children)) ;;
    let! pin := gets (λ s, icons s !! Window.id w) in
    let! items := gets taskbarScrollContainer_children in
    let! items := lift (removeChild_handle pin items) in
    modify (set_taskbarScrollContainer_children (λ _, items)) ;;
    modify (set_icons (λ i, delete (Window.id w) i)) ;;
    updateZIndices ;;
    saveState
  else ret tt.

(** *** The factory *)

(** The loop [for (const defaultKey in defaultconfig)] of [createWindow]:
    [config[defaultKey] = config[defaultKey] || defaultconfig[defaultKey]]. *)
Definition mergeDefaults (config defaultconfig : JsObject) : JsObject :=
  map_fold (λ defaultKey d config,
              <[defaultKey := js_or (get config defaultKey) d]> config)
           config defaultconfig.

(** The record [createWindow] stores for a subclass it has not seen. *)
Definition registration (config : JsObject) : JsObject :=
  list_to_map
    [ ("width", js_or (get config "width") (JNum 600));
      ("height", js_or (get config "height") (JNum 400));
      ("title", js_or (get config "title") (JStr ""));
      ("icon", js_or (get config "icon") (JStr ""));
      ("styles", js_or (get config "styles") (JObj []));
      ("events", js_or (get config "events") (JObj []));
      ("savedstate", js_or (get config "savedstate") (JObj [])) ].

(** [Object.entries] of the [events] object of a configuration, and of
    the object [JSON.parse] gives for a stored entry. An array and a
    string have index entries that are not modelled. *)
Definition entries (v : jsval) : list (string * jsval) :=
  match v with
  | JObj props => props
  | _ => []
  end.

(** The class and the configuration [createWindow] goes on with. *)
Definition resolveType (WindowClass : Class) (config : JsObject)
    : M (Class * JsObject) :=
  let! types := gets windowTypes in
  match types !! ByName (name WindowClass) with
  | None =>
      console_log (">> " +:+ name WindowClass +:+
                   " class not registered in windowTypes") ;;
      if isSubclass WindowClass then
        console_log
          ">>> Window class is a subclass of Window - Registering new Type" ;;
        modify (set_windowTypes (λ ty,
          <[ByClass (name WindowClass) := registration config]> ty)) ;;
        ret (WindowClass, config)
      else
        console_log
          ">>>Window class is not a subclass of Window - Using default Window class." ;;
        ret (Window, config)
  | Some defaultconfig =>
      ret (WindowClass, mergeDefaults config defaultconfig)
  end.

(** The subscriptions [createWindow] makes on the new window: the
    entries of [config.events], then its own listeners. *)
Definition attachListeners (newWindow : loc) (config : JsObject) : M unit :=
  (if truthy (get config "events") then
     forEach (λ '(event, handler),
                update newWindow (Window.on event (UserCallback handler)))
             (entries (get config "events"))
   else ret tt) ;;
  update newWindow (Window.on "close" OnClose) ;;
  update newWindow (Window.on "focus" OnFocus) ;;
  update newWindow (Window.on "dragStart" OnDragStart) ;;
  update newWindow (Window.on "minimize" OnMinimize) ;;
  update newWindow (Window.on "drag" OnDrag) ;;
  update newWindow (Window.on "dragEnd" OnDragEnd) ;;
  update newWindow (Window.on "popup" OnPopup) ;;
  update newWindow (Window.on "exportIconConfig" OnExportIconConfig) ;;
  update newWindow (Window.on "changeTaskbarTitle" OnChangeTaskbarTitle).

Definition createWindow (vp : Viewport) (rx ry : Q)
    (id : string) (WindowClass : Class) (config : JsObject) : M loc :=
  let! ws := gets windows in
  if JsMap.has id ws then
    console_log ("Window with id " +:+ id +:+
                 " already exists. Skipping creation.") ;;
    match JsMap.get id ws with
    | Some existing => ret existing
    | None => lift IllTyped
    end
  else
    let! resolved := resolveType WindowClass config in
    let '(WindowClass, config) := resolved in
    let! this := lift (Window.new (name WindowClass) vp rx ry id config) in
    let! newWindow := alloc this in
    attachListeners newWindow config ;;
    let! w := deref newWindow in
    modify (set_windows (JsMap.set (Window.id w) newWindow)) ;;
    modify (set_environment_children (appendChild newWindow)) ;;
    updateZIndices ;;
    saveState ;;
    ret newWindow.

(** [uuid] is the value of [crypto.randomUUID()]. *)
Definition newWindow (vp : Viewport) (rx ry : Q) (uuid : string)
    (WindowClass : Class) (config : JsObject) : M loc :=
  let! window := createWindow vp rx ry uuid WindowClass config in
  pinWindow window ;;
  bringToFront window ;;
  updateZIndices ;;
  saveState ;;
  ret window.

(** *** Pointer tracking and event delivery *)

Definition startDragging (window : loc) : M unit :=
  modify (set_currentlyDragging (Some window)) ;;
  bringToFront window.

(** Running one listener of a window. The callbacks of a configuration
    are opaque and take no part in the state of the environment;
    [popup], [exportIconConfig] and [changeTaskbarTitle] are emitted by
    content windows only, which are outside the sources. *)
Definition run (window : loc) (cb : callback) : M unit :=
  match cb with
  | OnClose => removeWindow window
  | OnFocus => bringToFront window
  | OnDragStart => startDragging window
  | OnMinimize | OnDrag | OnDragEnd => saveState
  | UserCallback _ | OnPopup | OnExportIconConfig | OnChangeTaskbarTitle =>
      ret tt
  end.

(** [window.emit(event, window)] for each event a method returned. *)
Definition emit (window : loc) (events : list string) : M unit :=
  forEach (λ event,
             let! w := deref window in
             forEach (run window) (EventEmitter.emit event (Window.listeners w)))
          events.

(** Calling a method of a window that emits. *)
Definition call (window : loc) (method : Window.t → Window.t * list string)
    : M unit :=
  let! w := deref window in
  let '(w, events) := method w in
  store window w ;;
  emit window events.

Definition onMouseMove (vp : Viewport) (event : MouseEvent) : M unit :=
  let! dragging := gets currentlyDragging in
  match dragging with
  | Some window => call window (Window.drag vp event)
  | None => ret tt
  end.

Definition onMouseUp (event : MouseEvent) : M unit :=
  let! dragging := gets currentlyDragging in
  match dragging with
  | Some window =>
      call window Window.dragEnd ;;
      modify (set_currentlyDragging None)
  | None => ret tt
  end.

End Environment.

(** ** Reference definitions and scenario data *)

Local Open Scope Q_scope.

(** [clamp(v, lo, hi)], as CSS defines it: [max(lo, min(v, hi))]. *)
Definition clamp (v lo hi : Q) : Q := Qmax lo (Qmin v hi).

Definition viewport1000x800 : Viewport :=
  {| innerWidth := 1000; innerHeight := 800 |}.

Definition viewport500x300 : Viewport :=
  {| innerWidth := 500; innerHeight := 300 |}.

Definition at_ (px py : Q) : MouseEvent := {| clientX := px; clientY := py |}.

(** Window A of the scenarios: 600 by 400 at (50, 50). *)
Definition configA : JsObject :=
  list_to_map
    [ ("width", JNum 600); ("height", JNum 400); ("x", JNum 50); ("y", JNum 50);
      ("title", JStr "A"); ("content", JStr ""); ("styles", JObj []) ].

(** The window the constructor builds from a configuration that has no
    zIndex, icon and isMinimized, as a record. *)
Definition windowOf (Id : string) (config : JsObject) (px py : Q) : Window.t :=
  {| Window.className := "Window"; Window.listeners := ∅;
     Window.config := config; Window.id := Id;
     Window.width := 600; Window.height := 400;
     Window.title := JStr "A"; Window.content := JStr "";
     Window.zIndex := 1; Window.isMinimized := false; Window.icon := JNull;
     Window.isDragging := false; Window.isResizing := false;
     Window.initialX := 0; Window.initialY := 0;
     Window.initialMouseX := 0; Window.initialMouseY := 0;
     Window.x := px; Window.y := py;
     Window.element :=
       {| Window.style_left := px; Window.style_top := py;
          Window.style_width := 600; Window.style_height := 400;
          Window.style_display := ""; Window.style_zIndex := None;
          Window.titleText_textContent := JStr "A";
          Window.titleText_fontSize := JStr "12px";
          Window.contentArea_innerHTML := JStr "";
          Window.contentArea_children := [] |};
     Window.initialWidth := 0; Window.initialHeight := 0;
     Window.resizeDirX := 0; Window.resizeDirY := 0 |}.

Definition windowA : Window.t := windowOf "A" configA 50 50.

(** The configuration of window A with x = 0 and zIndex = 0. *)
Definition configZero : JsObject :=
  <["x" := JNum 0]> (<["zIndex" := JNum 0]> configA).

Definition windowZero : Window.t :=
  windowOf "A" configZero (Window.randomX viewport1000x800 (1#2) 600) 50.

(** ** Specifications of the environment's methods *)

(** [wp m Q E s]: from [s], [m] returns a value and a state that satisfy
    [Q], or stops with an exception in a state that satisfies [E]. *)
Definition wp {A} (m : Environment.M A) (Q : A → Environment.t → Prop)
    (E : Environment.t → Prop) (s : Environment.t) : Prop :=
  match m s with
  | (Ok a, s') => Q a s'
  | (_, s') => E s'
  end.

(** What a snapshot records of a window, apart from its z-index. *)
Definition persistent (w : Window.t) :=
  (Window.className w, Window.config w, Window.id w,
   (Window.width w, Window.height w, Window.x w, Window.y w),
   (Window.title w, Window.content w, Window.icon w), Window.isMinimized w).

(** The heap after the loop of [updateZIndices]. *)
Fixpoint zheap (base : Q) (index : nat) (ws : list nat)
    (h : gmap nat Window.t) : gmap nat Window.t :=
  match ws with
  | [] => h
  | l :: rest =>
      zheap base (S index) rest
        (alter (Window.setZIndex (base + inject_Z (Z.of_nat index))) l h)
  end.

(** Well-formed environments: the keys of [windows] are distinct, each key
    is the id of the object it maps to, and references are allocated
    below [nextLoc]. *)
Record wf_fields (h : gmap nat Window.t) (ws : list (string * nat)) (n : nat)
    : Prop := {
  wf_keys : NoDup (JsMap.keys ws);
  wf_objs : ∀ k l, (k, l) ∈ ws → ∃ w, h !! l = Some w ∧ Window.id w = k;
  wf_next : ∀ l, is_Some (h !! l) → (l < n)%nat;
}.

Definition wf (s : Environment.t) : Prop :=
  wf_fields (Environment.heap s) (Environment.windows s) (Environment.nextLoc s).

(** The z-indices are base, base + 1, ... in the order of the collection. *)
Definition zOrdered_fields (h : gmap nat Window.t) (ws : list (string * nat))
    (base : Q) : Prop :=
  ∀ k l, JsMap.values ws !! k = Some l →
    ∃ w, h !! l = Some w ∧ Window.zIndex w = base + inject_Z (Z.of_nat k).

Definition zOrdered (s : Environment.t) : Prop :=
  zOrdered_fields (Environment.heap s) (Environment.windows s)
                  (Environment.zIndexBase s).

(** The z-index of the window behind a reference. *)
Definition zIndexOf (s : Environment.t) (l : nat) : option Q :=
  Window.zIndex <$> Environment.heap s !! l.

(** The entries [saveState] writes, in the order of the collection. *)
Definition savedEntries (s : Environment.t) : list jsval :=
  (λ l, from_option Environment.savedWindow JUndefined (Environment.heap s !! l))
    <$> JsMap.values (Environment.windows s).

(** The update of [localStorage] by [saveState]. *)
Definition savedStorage (s : Environment.t) (st : gmap string jsval)
    : gmap string jsval :=
  match JSON_stringify (JObj [("windows", JArr (savedEntries s))]) with
  | Some doc => <[Environment.storageKey := doc]> st
  | None => st
  end.

(** Every reference of the collection is in the heap. *)
Definition bound (s : Environment.t) : Prop :=
  ∀ l, l ∈ JsMap.values (Environment.windows s) →
       is_Some (Environment.heap s !! l).

(** The state [bringToFront] leaves for a member [l] stored under [k]:
    the entry moves to the end, the z-indices are renumbered and the
    snapshot is written. *)
Definition raised (k : string) (l : nat) (s : Environment.t) : Environment.t :=
  let ps := filter (λ p, p.2 ≠ l) (Environment.windows s) ++ [(k, l)] in
  let s1 := Environment.set_windows (λ _, ps) s in
  let s2 := Environment.set_heap
              (zheap (Environment.zIndexBase s) 0 (JsMap.values ps)) s1 in
  Environment.set_localStorage (savedStorage s2) s2.

(** The new window once [createWindow] has attached the listeners. *)
Definition wired (config : JsObject) (this : Window.t) : Window.t :=
  let this :=
    if truthy (get config "events")
    then fold_left (λ w eh, Window.on eh.1 (UserCallback eh.2) w)
                   (Environment.entries (get config "events")) this
    else this in
  Window.on "changeTaskbarTitle" OnChangeTaskbarTitle
    (Window.on "exportIconConfig" OnExportIconConfig
       (Window.on "popup" OnPopup
          (Window.on "dragEnd" OnDragEnd
             (Window.on "drag" OnDrag
                (Window.on "minimize" OnMinimize
                   (Window.on "dragStart" OnDragStart
                      (Window.on "focus" OnFocus
                         (Window.on "close" OnClose this)))))))).

(** The state [createWindow] leaves when it has built the window [this]
    from [config] for an id that was free. *)
Definition created (config : JsObject) (this : Window.t) (s : Environment.t)
    : Environment.t :=
  let n := Environment.nextLoc s in
  let s1 := Environment.set_heap (λ h, <[n := wired config this]> h)
              (Environment.set_nextLoc (S n) s) in
  let s2 := Environment.set_environment_children (Environment.appendChild n)
              (Environment.set_windows (JsMap.set (Window.id this) n) s1) in
  let s3 := Environment.set_heap
              (zheap (Environment.zIndexBase s) 0
                     (JsMap.values (Environment.windows s2))) s2 in
  Environment.set_localStorage (savedStorage s3) s3.

(** The operations of the z-order invariant, with the inputs each one
    reads. *)
Inductive operation :=
| CreateWindow (vp : Viewport) (rx ry : Q) (id : string)
    (WindowClass : Environment.Class) (config : JsObject)
| NewWindow (vp : Viewport) (rx ry : Q) (uuid : string)
    (WindowClass : Environment.Class) (config : JsObject)
| RemoveWindow (window : nat)
| BringToFront (window : nat).

Definition perform (o : operation) : Environment.M unit :=
  match o with
  | CreateWindow vp rx ry id WindowClass config =>
      Environment.bind (Environment.createWindow vp rx ry id WindowClass config)
                       (λ _, Environment.ret tt)
  | NewWindow vp rx ry uuid WindowClass config =>
      Environment.bind (Environment.newWindow vp rx ry uuid WindowClass config)
                       (λ _, Environment.ret tt)
  | RemoveWindow window => Environment.removeWindow window
  | BringToFront window => Environment.bringToFront window
  end.

(** The states an environment goes through, whether the operations return
    or throw. *)
Inductive reachable : Environment.t → Prop :=
| reachable_new : reachable Environment.new
| reachable_step s o r s' :
    reachable s → perform o s = (r, s') → reachable s'.

(** The states reached when every operation so far has returned. *)
Inductive completed : Environment.t → Prop :=
| completed_new : completed Environment.new
| completed_step s o s' :
    completed s → perform o s = (Ok tt, s') → completed s'.

(** The desktop of the scenarios: window A (600 by 400), then window B
    (300 by 200), created at the default placement in a 1000 by 800
    viewport. *)
Definition sized (w h : Q) : JsObject :=
  list_to_map [("width", JNum w); ("height", JNum h)].

Definition createA : operation :=
  CreateWindow viewport1000x800 (1#2) (1#2) "A" Environment.Window (sized 600 400).

Definition createB : operation :=
  CreateWindow viewport1000x800 (1#2) (1#2) "B" Environment.Window (sized 300 200).

Definition desktopA : Environment.t := (perform createA Environment.new).2.

Definition desktopAB : Environment.t := (perform createB desktopA).2.

(** A configuration with an empty title. *)
Definition untitled : JsObject := <["title" := JStr ""]> (sized 600 400).

(** The desktop after [removeWindow] has been called on window A, which
    has no taskbar pin. *)
Definition afterRemoval : Environment.t :=
  (perform (RemoveWindow 0%nat) desktopAB).2.

(** The desktop after [bringToFront] has been called on window A. *)
Definition raisedA : Environment.t :=
  (perform (BringToFront 0%nat) desktopAB).2.

(** A desktop with one window, created from a configuration whose title
    is the empty string. *)
Definition createUntitled : operation :=
  CreateWindow viewport1000x800 (1#2) (1#2) "A" Environment.Window untitled.

Definition desktopUntitled : Environment.t :=
  (perform createUntitled Environment.new).2.

(** A page environment: calling the interface object [HTMLImageElement]
    without [new] throws a TypeError, as Web IDL has it for every interface
    object; the network is down. *)
Definition offline : Window.Platform :=
  {| Window.HTMLImageElement_call := Throw (TypeError "Illegal constructor");
     Window.fetch := λ _, Throw (TypeError "Failed to fetch");
     Window.parseFromString :=
       λ _, {| Window.doc_title := None; Window.doc_body := None;
               Window.doc_scripts := [] |};
     Window.URL_origin := λ _, Throw (TypeError "Invalid URL") |}.

(** ** Restoring a snapshot *)

(** The members [JSON.stringify] keeps of an object. *)
Definition JSON_members (props : list (string * jsval)) : list (string * jsval) :=
  (fix members (ps : list (string * jsval)) :=
     match ps with
     | [] => []
     | (k, x) :: rest =>
         match JSON_stringify x with
         | Some j => (k, j) :: members rest
         | None => members rest
         end
     end) props.

(** [JSON.parse] of a stored object gives back an object with its
    members. *)
Definition configOfEntry (entry : jsval) : JsObject :=
  list_to_map (Environment.entries entry).

(** The class a saved [className] stands for: every class that builds
    windows, other than [Window] itself, extends [Window]. *)
Definition classNamed (n : string) : Environment.Class :=
  {| Environment.name := n; Environment.isSubclass := negb (String.eqb n "Window") |}.

Definition classOfEntry (entry : jsval) : Environment.Class :=
  match member_opt entry "className" with
  | JStr n => classNamed n
  | _ => Environment.Window
  end.

(** The window entries of a stored snapshot. *)
Definition savedWindows (doc : jsval) : list jsval :=
  match member_opt doc "windows" with
  | JArr entries => entries
  | _ => []
  end.

(** Modelled from the spec: the restore operation, which the sources do
    not contain. The spec has the Environment read the persisted snapshot
    on startup (an ordered list of window entries, each the window's
    configuration tagged with its class name) and rebuild the collection
    from it; windows are created by the Environment's factory only, which
    assigns their ids. [restore] runs the factory [createWindow] on each
    entry in order, with the entry as configuration, the class its
    [className] names, and the next id of [ids]; [draws] are the values of
    [Math.random()] the constructor may read. *)
Fixpoint restoreAll (vp : Viewport) (draws : list (Q * Q)) (ids : list string)
    (entries : list jsval) {struct entries} : Environment.M unit :=
  match entries, draws, ids with
  | entry :: entries, draw :: draws, id :: ids =>
      Environment.bind
        (Environment.createWindow vp draw.1 draw.2 id (classOfEntry entry)
           (configOfEntry entry))
        (λ _, restoreAll vp draws ids entries)
  | _, _, _ => Environment.ret tt
  end.

(** Modelled from the spec: the restore operation on startup, reading the
    snapshot under the storage key and rebuilding its entries with
    [restoreAll]; an absent snapshot restores nothing. *)
Definition restore (vp : Viewport) (draws : list (Q * Q)) (ids : list string)
    : Environment.M unit :=
  Environment.bind
    (Environment.gets (λ s, Environment.localStorage s !! Environment.storageKey))
    (λ stored,
       match stored with
       | Some doc => restoreAll vp draws ids (savedWindows doc)
       | None => Environment.ret tt
       end).


(** A value that was stored as a truthy one comes back as it was stored:
    [v] is the value the saved window had, [v'] the value the restored
    window has. *)
Definition kept (v v' : jsval) : Prop :=
  ∀ j, JSON_stringify v = Some j → truthy j = true → v' = j.




(** The stored snapshot. *)
Definition snapshot (s : Environment.t) : option jsval :=
  Environment.localStorage s !! Environment.storageKey.














(** ** Messages *)

(** The code units of a text of the Latin-1 range. *)
Definition units (s : string) : list N :=
  Ascii.N_of_ascii <$> list_ascii_of_string s.

(** [pat] occurs in [s]. *)
Definition occurs (pat s : list N) : Prop := ∃ a b, s = a ++ pat ++ b.

(** [s] holds a closed block: a fence and a later fence. *)
Definition fenced (s : list N) : Prop :=
  ∃ a b c, s = a ++ Window.fence ++ b ++ Window.fence ++ c.

(** Two backticks: a text followed by them holds no fence when the text
    holds none and no fence begins in it. *)
Definition ticks : list N := [Window.backtick; Window.backtick].

(** The text a list of blocks is written as: a code block goes between
    two fences. *)
Definition unparse (blocks : list Window.TextFragment.t) : list N :=
  foldr (λ b acc,
           (if String.eqb (Window.TextFragment.type b) "code"
            then Window.fence ++ Window.TextFragment.content b ++ Window.fence
            else Window.TextFragment.content b) ++ acc)
        [] blocks.

(** The first code unit of [s], if any, is no white space. *)
Definition headKept (s : list N) : Prop :=
  match s with
  | c :: _ => Window.isWhiteSpace c = false
  | [] => True
  end.

(** ** Event names and rendering *)

(** The property names every object inherits from [Object.prototype]. The
    listeners of an [EventEmitter] are kept in a plain object, where such
    a name is found before any listener has been registered; the model
    of [on] and [emit] is for the other names. *)
Definition inheritedNames : list string :=
  [ "constructor"; "__proto__"; "hasOwnProperty"; "isPrototypeOf";
    "propertyIsEnumerable"; "toLocaleString"; "toString"; "valueOf";
    "__defineGetter__"; "__defineSetter__"; "__lookupGetter__";
    "__lookupSetter__" ].

(** Registering the callbacks [cbs] for [event], one call of [on] each. *)
Definition subscribe (event : string) (cbs : list callback)
    (ls : EventEmitter.listeners) : EventEmitter.listeners :=
  fold_left (λ ls cb, EventEmitter.on event cb ls) cbs ls.

(** The element shows the window where its fields say it is, with a
    size that is not negative: the DOM takes no negative length for a
    width or a height. The width a resize starts from, which [resize]
    takes for a handle without a horizontal direction, is not negative
    either. *)
Definition rendered (w : Window.t) : Prop :=
  (Window.style_left (Window.element w) = Window.x w ∧
   Window.style_top (Window.element w) = Window.y w ∧
   Window.style_width (Window.element w) = Window.width w ∧
   Window.style_height (Window.element w) = Window.height w) ∧
  0 <= Window.width w ∧ 0 <= Window.height w ∧ 0 <= Window.initialWidth w.

(** A pointer position. *)
Definition moved (from : MouseEvent) (dx dy : Q) : MouseEvent :=
  {| clientX := clientX from + dx; clientY := clientY from + dy |}.

(** The four handles [createResizeHandles] adds to a window. *)
Inductive handlePosition := top_left | top_right | bottom_left | bottom_right.

Definition handle_dx (h : handlePosition) : Q :=
  match h with
  | top_left | bottom_left => -1
  | top_right | bottom_right => 1
  end.

Definition handle_dy (h : handlePosition) : Q :=
  match h with
  | top_left | top_right => -1
  | bottom_left | bottom_right => 1
  end.

(** The scripts of a page that have no [src]. *)
Definition inline (scripts : list string) : list string :=
  filter (λ src, src = "") scripts.

(** ** The page's events *)

(** What happens to the page: a call of one of the environment's
    operations, or an event one of the registered handlers receives. *)
Inductive input :=
| Call (o : operation)
| BeforeUnload
| ClearSavedState
| TitleBarMouseDown (window : nat) (event : MouseEvent)
| HandleMouseDown (window : nat) (handle : handlePosition) (event : MouseEvent)
| MouseMove (vp : Viewport) (event : MouseEvent)
| MouseUp (event : MouseEvent)
| MinimizeClick (window : nat)
| CloseClick (window : nat)
| ElementClick (window : nat)
| ViewportResize (vp : Viewport).

(** The handlers, as the constructors and [startResize] register them:
    - [beforeunload] runs [saveState];
    - a mousedown on the title bar runs [startDrag], on a handle
      [startResize] with the handle's directions;
    - a mousemove on the document runs [onMouseMove], then [resize] on
      the windows whose [startResize] has subscribed it (on the others,
      and on a window that is not resizing, [resize] does nothing);
      a mouseup runs [onMouseUp], then [endResize] likewise (the
      'resize' it announces has no listener but the callbacks of the
      configuration, which [run] leaves opaque);
    - the minimize button (and the pin in the taskbar) runs
      [toggleMinimize]; the close button emits 'close'; a click on the
      element emits 'focus';
    - a resize of the browser window runs [handleResize] on every
      window that has been constructed. *)
Definition react (i : input) : Environment.M unit :=
  match i with
  | Call o => perform o
  | BeforeUnload => Environment.saveState
  | ClearSavedState => Environment.clearSavedState
  | TitleBarMouseDown window event =>
      Environment.call window (Window.startDrag event)
  | HandleMouseDown window handle event =>
      Environment.update window
        (Window.startResize event (handle_dx handle) (handle_dy handle))
  | MouseMove vp event =>
      Environment.bind (Environment.onMouseMove vp event)
        (λ _, Environment.modify
                (Environment.set_heap (fmap (Window.resize vp event))))
  | MouseUp event =>
      Environment.bind (Environment.onMouseUp event)
        (λ _, Environment.modify
                (Environment.set_heap (fmap (λ w, (Window.endResize w).1))))
  | MinimizeClick window => Environment.call window Window.toggleMinimize
  | CloseClick window => Environment.emit window ["close"]
  | ElementClick window => Environment.emit window ["focus"]
  | ViewportResize vp =>
      Environment.modify (Environment.set_heap (fmap (Window.handleResize vp)))
  end.

(** The states a session goes through, whether the handlers return or
    throw. *)
Inductive visited : Environment.t → Prop :=
| visited_new : visited Environment.new
| visited_step s i r s' : visited s → react i s = (r, s') → visited s'.

(** The states reached when every handler so far has returned. *)
Inductive settled : Environment.t → Prop :=
| settled_new : settled Environment.new
| settled_step s i s' : settled s → react i s = (Ok tt, s') → settled s'.

(** What no handler writes: the base z-index, the window types
    registered under a name, and the storage keys other than the
    environment's own. *)
Definition untouched (s s' : Environment.t) : Prop :=
  Environment.zIndexBase s' = Environment.zIndexBase s ∧
  (∀ n, Environment.windowTypes s' !! Environment.ByName n =
        Environment.windowTypes s !! Environment.ByName n) ∧
  (∀ k, k ≠ Environment.storageKey →
        Environment.localStorage s' !! k = Environment.localStorage s !! k).

(** [m] relates every state to the state it leaves, whatever the outcome. *)
Definition preserves {A} (R : Environment.t → Environment.t → Prop)
    (m : Environment.M A) : Prop :=
  ∀ s, R s (m s).2.

(** ** Listeners *)

(** The listener [createWindow] subscribes itself for an event. *)
Definition ownListeners (event : string) : list callback :=
  if String.eqb event "close" then [OnClose]
  else if String.eqb event "focus" then [OnFocus]
  else if String.eqb event "dragStart" then [OnDragStart]
  else if String.eqb event "minimize" then [OnMinimize]
  else if String.eqb event "drag" then [OnDrag]
  else if String.eqb event "dragEnd" then [OnDragEnd]
  else if String.eqb event "popup" then [OnPopup]
  else if String.eqb event "exportIconConfig" then [OnExportIconConfig]
  else if String.eqb event "changeTaskbarTitle" then [OnChangeTaskbarTitle]
  else [].

(** The handlers a configuration gives for an event under [events], in
    the order of its entries. *)
Definition handlers (event : string) (config : JsObject) : list callback :=
  if truthy (get config "events") then
    (λ eh, UserCallback eh.2)
      <$> filter (λ eh, eh.1 = event) (Environment.entries (get config "events"))
  else [].

(** The [events] of a configuration are absent (falsy) or an object, whose
    keys are distinct, as the keys of an object are, and none of them a
    name that [Object.prototype] defines. For another value the source
    registers listeners that the model does not have (the index entries
    of an array or a string), or throws in [on]. *)
Definition plainEvents (config : JsObject) : Prop :=
  (truthy (get config "events") = false ∨
   ∃ props, get config "events" = JObj props) ∧
  NoDup (Environment.entries (get config "events")).*1 ∧
  ∀ eh, eh ∈ Environment.entries (get config "events") → eh.1 ∉ inheritedNames.

(** ** Pins *)

(** The window behind [l] is in the collection under its id, its element
    is in the page, and its pin is in the taskbar. *)
Definition pinned (s : Environment.t) (l : nat) : Prop :=
  ∃ w node,
    Environment.heap s !! l = Some w ∧
    (Window.id w, l) ∈ Environment.windows s ∧
    l ∈ Environment.environment_children s ∧
    Environment.icons s !! Window.id w = Some (Environment.TaskbarItem node) ∧
    node ∈ Environment.taskbarScrollContainer_children s.

(** The state [pinWindow] leaves for a window with the id [id]. *)
Definition withPin (id : string) (s : Environment.t) : Environment.t :=
  Environment.set_icons
    (λ i, <[id := Environment.TaskbarItem (Environment.nextLoc s)]> i)
    (Environment.set_taskbarScrollContainer_children
       (Environment.appendChild (Environment.nextLoc s))
       (Environment.set_nextLoc (S (Environment.nextLoc s)) s)).

(** The state [updateZIndices] leaves. *)
Definition renumbered (s : Environment.t) : Environment.t :=
  Environment.set_heap
    (zheap (Environment.zIndexBase s) 0 (JsMap.values (Environment.windows s))) s.

(** The state [saveState] leaves. *)
Definition saved (s : Environment.t) : Environment.t :=
  Environment.set_localStorage (savedStorage s) s.

(** The state [newWindow] leaves when [createWindow] has built the
    window [this] from [config]: created, pinned, raised, renumbered and
    saved. *)
Definition opened (config : JsObject) (this : Window.t) (s : Environment.t)
    : Environment.t :=
  saved (renumbered
    (raised (Window.id this) (Environment.nextLoc s)
       (withPin (Window.id this) (created config this s)))).

(** The state [removeWindow] leaves for a pinned window [w] behind [l]
    whose pin is [node]. *)
Definition closed (w : Window.t) (l node : nat) (s : Environment.t)
    : Environment.t :=
  saved (renumbered
    (Environment.set_icons (λ i, delete (Window.id w) i)
       (Environment.set_taskbarScrollContainer_children
          (λ items, filter (λ n, n ≠ node) items)
          (Environment.set_environment_children
             (λ children, filter (λ n, n ≠ l) children)
             (Environment.set_windows (JsMap.delete (Window.id w))
                (Environment.set_console
                   (λ c, c ++ ["Removing window: " +:+ Window.id w]) s)))))).

(** The state after the object behind [l] has been replaced by [w]. *)
Definition stored (l : nat) (w : Window.t) (s : Environment.t) : Environment.t :=
  Environment.set_heap (λ h, <[l := w]> h) s.

(** The state [startDragging] leaves for a member [l] stored under [k]. *)
Definition dragging (k : string) (l : nat) (s : Environment.t) : Environment.t :=
  raised k l (Environment.set_currentlyDragging (Some l) s).

(** The entry of the stored snapshot at position [i]. *)
Definition savedEntry (s : Environment.t) (i : nat) : option jsval :=
  match snapshot s with
  | Some doc => savedWindows doc !! i
  | None => None
  end.

(** The invariant of a session: the environment is well formed, and its
    z-indices are contiguous under the assumption [P] (that every handler
    so far has returned). *)
Definition sound (P : Prop) (s : Environment.t) : Prop :=
  wf s ∧ (P → zOrdered s).

(** The class [createWindow] instantiates for [WindowClass] when the
    class is not registered by name: the class itself when it extends
    [Window], and [Window] otherwise. *)
Definition fallback (WindowClass : Environment.Class) : Environment.Class :=
  if Environment.isSubclass WindowClass then WindowClass else Environment.Window.

(** The configuration fields the constructor reads as numbers. *)
Definition numericFields : list string := ["width"; "height"; "zIndex"; "x"; "y"].

(** Every numeric field of [config] holds a number, unless it is falsy. *)
Definition wellTyped (config : JsObject) : Prop :=
  ∀ k, k ∈ numericFields →
       truthy (get config k) = false ∨ ∃ n, get config k = JNum n.

(** The scenario of a session: window A (600 by 400) is opened with
    [newWindow], and then grabbed by its title bar at (100, 100). *)
Definition openA : operation :=
  NewWindow viewport1000x800 (1#2) (1#2) "A" Environment.Window (sized 600 400).

Definition desktopOpened : Environment.t := (perform openA Environment.new).2.

Definition desktopGrabbed : Environment.t :=
  (react (TitleBarMouseDown 0%nat (at_ 100 100)) desktopOpened).2.

(** * Properties *)

(** ** Arithmetic of [Math.min] and [Math.max] *)

Ltac qmm_abs :=
  repeat match goal with
  | |- context [Qmax ?a ?b] =>
      let m := fresh "m" in
      pose proof (Q.max_spec a b); set (m := Qmax a b) in *; clearbody m
  | |- context [Qmin ?a ?b] =>
      let m := fresh "m" in
      pose proof (Q.min_spec a b); set (m := Qmin a b) in *; clearbody m
  | H : context [Qmax ?a ?b] |- _ =>
      let m := fresh "m" in
      pose proof (Q.max_spec a b); set (m := Qmax a b) in *; clearbody m
  | H : context [Qmin ?a ?b] |- _ =>
      let m := fresh "m" in
      pose proof (Q.min_spec a b); set (m := Qmin a b) in *; clearbody m
  end.

Ltac qmm :=
  qmm_abs;
  repeat match goal with
  | H : _ ∨ _ |- _ => destruct H
  | H : _ ∧ _ |- _ => destruct H
  end;
  try lra.

Lemma clamp_between v lo hi :
  lo <= hi → lo <= clamp v lo hi ∧ clamp v lo hi <= hi.
Proof. unfold clamp. intros. split; qmm. Qed.

Lemma clamp_inside v lo hi : lo <= v → v <= hi → clamp v lo hi == v.
Proof. unfold clamp. intros. qmm. Qed.

Lemma clamp_below v lo hi : lo <= hi → v <= lo → clamp v lo hi == lo.
Proof. unfold clamp. intros. qmm. Qed.

Lemma clamp_above v lo hi : lo <= hi → hi <= v → clamp v lo hi == hi.
Proof. unfold clamp. intros. qmm. Qed.

Lemma Qeq_bool_false a b : ¬ a == b → Qeq_bool a b = false.
Proof.
  intros H. destruct (Qeq_bool a b) eqn:E; [|done].
  apply Qeq_bool_iff in E. done.
Qed.

(** ** The constructor on the scenario window *)

Example windowA_constructed :
  Window.new "Window" viewport1000x800 (1#2) (1#2) "A" configA = Ok windowA.
Proof. vm_compute. reflexivity. Qed.

(** ** Dragging *)

(** C1. While a window is dragging, a pointer move to (cx, cy) puts it at
    (clamp(initialX + cx - initialMouseX, 0, viewportWidth - width),
     clamp(initialY + cy - initialMouseY, 0, viewportHeight - height));
    a drag of a 600 by 400 window at (50, 50), started at pointer (100, 100)
    and moved to (50, 80) in a 1000 by 800 viewport, ends at (0, 30); a
    window that is not dragging is left as it is. *)
Theorem drag_step_clamps (vp : Viewport) (event : MouseEvent) (w : Window.t) :
  (Window.isDragging w = true →
     let w' := (Window.drag vp event w).1 in
     Window.x w' ==
       clamp (Window.initialX w + clientX event - Window.initialMouseX w)
             0 (innerWidth vp - Window.width w) ∧
     Window.y w' ==
       clamp (Window.initialY w + clientY event - Window.initialMouseY w)
             0 (innerHeight vp - Window.height w)) ∧
  (Window.x w == 50 → Window.y w == 50 →
   Window.width w == 600 → Window.height w == 400 →
     let started := (Window.startDrag (at_ 100 100) w).1 in
     let moved := (Window.drag viewport1000x800 (at_ 50 80) started).1 in
     Window.x moved == 0 ∧ Window.y moved == 30) ∧
  (Window.isDragging w = false → Window.drag vp event w = (w, [])).
Proof.
  split; [|split].
  - intros Hd. unfold Window.drag. rewrite Hd. cbn. unfold clamp. split; qmm.
  - intros Hx Hy Hw Hh. cbn. split; qmm.
  - intros Hd. unfold Window.drag. rewrite Hd. reflexivity.
Qed.

Lemma drag_step_clamps_witness :
  let started := (Window.startDrag (at_ 100 100) windowA).1 in
  let moved := (Window.drag viewport1000x800 (at_ 50 80) started).1 in
  (Window.x moved == clamp (50 + 50 - 100) 0 (1000 - 600) ∧
   Window.y moved == clamp (50 + 80 - 100) 0 (800 - 400)) ∧
  (Window.x moved == 0 ∧ Window.y moved == 30) ∧
  Window.drag viewport1000x800 (at_ 50 80) windowA = (windowA, []).
Proof.
  intros started moved.
  destruct (drag_step_clamps viewport1000x800 (at_ 50 80) started)
    as (Hstep & _ & _).
  destruct (drag_step_clamps viewport1000x800 (at_ 50 80) windowA)
    as (_ & Hscenario & Hidle).
  split; [apply Hstep; reflexivity|].
  split; [apply Hscenario; reflexivity|].
  apply Hidle. reflexivity.
Defined.

(** ** Resizing *)

(** The assignments of [resize] when a resize is in progress from a
    corner handle. *)
Lemma resize_corner (vp : Viewport) (event : MouseEvent) (w : Window.t) :
  Window.isResizing w = true →
  ¬ Window.resizeDirX w == 0 → ¬ Window.resizeDirY w == 0 →
  let w' := Window.resize vp event w in
  let newWidth :=
    Qmax 200 (Window.initialWidth w +
              (clientX event - Window.initialMouseX w) * Window.resizeDirX w) in
  let newHeight :=
    Qmax 100 (Window.initialHeight w +
              (clientY event - Window.initialMouseY w) * Window.resizeDirY w) in
  Window.width w' = newWidth ∧ Window.height w' = newHeight ∧
  Window.x w' =
    Qmax 0 (Qmin (if Qlt_le_dec (Window.resizeDirX w) 0
                  then Window.initialX w + (Window.initialWidth w - newWidth)
                  else Window.x w)
                 (innerWidth vp - newWidth)) ∧
  Window.y w' =
    Qmax 0 (Qmin (if Qlt_le_dec (Window.resizeDirY w) 0
                  then Window.initialY w + (Window.initialHeight w - newHeight)
                  else Window.y w)
                 (innerHeight vp - newHeight)).
Proof.
  intros Hr Hdx Hdy. unfold Window.resize. rewrite Hr. cbn [negb].
  rewrite (Qeq_bool_false _ _ Hdx), (Qeq_bool_false _ _ Hdy). cbn [negb].
  cbn. done.
Qed.

(** C2. While a window is resizing from a corner (dx, dy in {-1, 1}), a
    pointer displacement (deltaX, deltaY) from the anchor gives width
    max(200, initialWidth + dx * deltaX) and height
    max(100, initialHeight + dy * deltaY); for dx = -1 the new x is
    initialX + (initialWidth - newWidth), so that the right edge stays
    where it was, and likewise for dy = -1 and the bottom edge; the
    position is then clamped to [0, viewportWidth - newWidth] x
    [0, viewportHeight - newHeight]. From the bottom-right corner, +50
    on a width of 600 gives 650 with the position unchanged; from the
    top-left corner, (-50, -50) widens by 50 and moves x and y down by
    50. *)
Theorem resize_step (vp : Viewport) (event : MouseEvent) (w : Window.t) :
  Window.isResizing w = true →
  (Window.resizeDirX w == 1 ∨ Window.resizeDirX w == -1) →
  (Window.resizeDirY w == 1 ∨ Window.resizeDirY w == -1) →
  let deltaX := clientX event - Window.initialMouseX w in
  let deltaY := clientY event - Window.initialMouseY w in
  let w' := Window.resize vp event w in
  let newX := if Qlt_le_dec (Window.resizeDirX w) 0
              then Window.initialX w + (Window.initialWidth w - Window.width w')
              else Window.x w in
  let newY := if Qlt_le_dec (Window.resizeDirY w) 0
              then Window.initialY w + (Window.initialHeight w - Window.height w')
              else Window.y w in
  (Window.width w' == Qmax 200 (Window.initialWidth w + Window.resizeDirX w * deltaX) ∧
   Window.height w' == Qmax 100 (Window.initialHeight w + Window.resizeDirY w * deltaY)) ∧
  (Window.x w' == clamp newX 0 (innerWidth vp - Window.width w') ∧
   Window.y w' == clamp newY 0 (innerHeight vp - Window.height w')) ∧
  (Window.resizeDirX w == -1 →
     newX + Window.width w' == Window.initialX w + Window.initialWidth w) ∧
  (Window.resizeDirY w == -1 →
     newY + Window.height w' == Window.initialY w + Window.initialHeight w) ∧
  (∀ a : Window.t,
     Window.x a == 50 → Window.y a == 50 →
     Window.width a == 600 → Window.height a == 400 →
     let bottomRight :=
       Window.resize viewport1000x800 (at_ 700 450)
         (Window.startResize (at_ 650 450) 1 1 a) in
     let topLeft :=
       Window.resize viewport1000x800 (at_ 0 0)
         (Window.startResize (at_ 50 50) (-1) (-1) a) in
     (Window.width bottomRight == 650 ∧ Window.height bottomRight == 400 ∧
      Window.x bottomRight == 50 ∧ Window.y bottomRight == 50) ∧
     (Window.width topLeft == 650 ∧ Window.height topLeft == 450 ∧
      Window.x topLeft == 0 ∧ Window.y topLeft == 0)).
Proof.
  intros Hr Hdx Hdy deltaX deltaY w' newX newY.
  destruct (resize_corner vp event w Hr) as (Hw & Hh & Hx & Hy);
    [destruct Hdx; lra | destruct Hdy; lra |].
  fold w' in Hw, Hh, Hx, Hy.
  split; [|split; [|split; [|split]]].
  - rewrite Hw, Hh. subst deltaX deltaY.
    split; rewrite Qmult_comm; reflexivity.
  - subst newX newY. rewrite Hx, Hy, Hw, Hh. unfold clamp.
    split; reflexivity.
  - intros Hm. subst newX. destruct (Qlt_le_dec (Window.resizeDirX w) 0); lra.
  - intros Hm. subst newY. destruct (Qlt_le_dec (Window.resizeDirY w) 0); lra.
  - clear. intros a Ha1 Ha2 Ha3 Ha4 bottomRight topLeft.
    destruct (resize_corner viewport1000x800 (at_ 700 450)
                (Window.startResize (at_ 650 450) 1 1 a))
      as (Bw & Bh & Bx & By); [done | cbn; lra | cbn; lra |].
    destruct (resize_corner viewport1000x800 (at_ 0 0)
                (Window.startResize (at_ 50 50) (-1) (-1) a))
      as (Tw & Th & Tx & Ty); [done | cbn; lra | cbn; lra |].
    fold bottomRight in Bw, Bh, Bx, By. fold topLeft in Tw, Th, Tx, Ty.
    rewrite Bw, Bh, Bx, By, Tw, Th, Tx, Ty.
    clear Bw Bh Bx By Tw Th Tx Ty bottomRight topLeft.
    cbn [Window.startResize Window.set_isResizing Window.set_resize_anchor
         Window.set_drag_anchor Window.initialWidth Window.initialHeight
         Window.initialX Window.initialY Window.initialMouseX
         Window.initialMouseY Window.resizeDirX Window.resizeDirY
         Window.x Window.y Window.width Window.height
         at_ clientX clientY viewport1000x800 innerWidth innerHeight].
    destruct (Qlt_le_dec 1 0); [lra|].
    destruct (Qlt_le_dec (-1) 0); [|lra].
    split; (split; [|split; [|split]]); qmm.
Qed.

Lemma resize_step_witness :
  let w := Window.startResize (at_ 50 50) (-1) (-1) windowA in
  let w' := Window.resize viewport1000x800 (at_ 0 0) w in
  (Window.width w' == Qmax 200 (600 + -1 * (0 - 50)) ∧
   Window.height w' == Qmax 100 (400 + -1 * (0 - 50))) ∧
  (Window.x w' == clamp (50 + (600 - Window.width w')) 0 (1000 - Window.width w') ∧
   Window.y w' == clamp (50 + (400 - Window.height w')) 0 (800 - Window.height w')) ∧
  50 + (600 - Window.width w') + Window.width w' == 50 + 600.
Proof.
  intros w w'.
  destruct (resize_step viewport1000x800 (at_ 0 0) w)
    as (Hsize & Hpos & Hright & _ & _).
  - reflexivity.
  - right. reflexivity.
  - right. reflexivity.
  - split; [exact Hsize|]. split; [exact Hpos|]. apply Hright. reflexivity.
Defined.

(** ** The constructor *)

Lemma js_or_falsy (v d : jsval) : truthy v = false → js_or v d = d.
Proof. unfold js_or. intros ->. reflexivity. Qed.

Lemma js_or_truthy (v d : jsval) : truthy v = true → js_or v d = v.
Proof. unfold js_or. intros ->. reflexivity. Qed.

Lemma get_delete_eq (k : string) (o : JsObject) : get (delete k o) k = JUndefined.
Proof. unfold get. rewrite lookup_delete_eq. reflexivity. Qed.

Lemma get_delete_ne (k k' : string) (o : JsObject) :
  k ≠ k' → get (delete k o) k' = get o k'.
Proof. intros Hne. unfold get. rewrite lookup_delete_ne by done. reflexivity. Qed.

Lemma get_insert_eq (k : string) (v : jsval) (o : JsObject) :
  get (<[k := v]> o) k = v.
Proof. unfold get. rewrite lookup_insert_eq. reflexivity. Qed.

Lemma get_insert_ne (k k' : string) (v : jsval) (o : JsObject) :
  k ≠ k' → get (<[k := v]> o) k' = get o k'.
Proof. intros Hne. unfold get. rewrite lookup_insert_ne by done. reflexivity. Qed.

Ltac rbind_inv H :=
  repeat match type of H with
  | rbind ?r _ = Ok _ =>
      let E := fresh "E" in
      destruct r eqn:E; cbn [rbind] in H; [|discriminate H..]
  end.

(** What a successful construction has read from the configuration. *)
Lemma new_inv cls vp rx ry Id config w :
  Window.new cls vp rx ry Id config = Ok w →
  (∃ fontsize, member (get config "styles") "titlebar_fontsize" = Ok fontsize) ∧
  as_number (get config "width") = Ok (Window.width w) ∧
  as_number (get config "height") = Ok (Window.height w) ∧
  Window.title w = get config "title" ∧
  Window.content w = get config "content" ∧
  as_number (js_or (get config "zIndex") (JNum 1)) = Ok (Window.zIndex w) ∧
  Window.isMinimized w = truthy (get config "isMinimized") ∧
  Window.icon w = js_or (get config "icon") JNull ∧
  as_number (js_or (get config "x")
               (JNum (Window.randomX vp rx (Window.width w)))) = Ok (Window.x w) ∧
  as_number (js_or (get config "y")
               (JNum (Window.randomY vp ry (Window.height w)))) = Ok (Window.y w) ∧
  Window.id w = Id ∧ Window.className w = cls ∧ Window.config w = config ∧
  Window.isDragging w = false ∧ Window.isResizing w = false ∧
  Window.listeners w = ∅.
Proof.
  unfold Window.new, Window.createElement. intros H. rbind_inv H.
  match goal with E : rbind _ _ = Ok _ |- _ => rbind_inv E; injection E as <- end.
  cbn [Window.config] in *.
  injection H as <-.
  assert (Hmin : truthy (js_or (get config "isMinimized") (JBool false))
                 = truthy (get config "isMinimized")).
  { unfold js_or. destruct (truthy (get config "isMinimized")) eqn:Ht; done. }
  rewrite Hmin.
  split; [eauto|].
  destruct (truthy (get config "isMinimized")); cbn; repeat split; done.
Qed.

(** ** Position bounds *)

(** C3 (as stated, it fails). A position supplied by the configuration is
    taken unclamped, and a window larger than the viewport is held at 0 by
    [drag] and by [handleResize], above [viewportWidth - width]. *)
Lemma position_invariant_counterexample :
  (∃ w, Window.new "Window" viewport1000x800 (1#2) (1#2) "A"
          (<["x" := JNum 2000]> configA) = Ok w
        ∧ ¬ Window.inBounds viewport1000x800 w) ∧
  ¬ Window.inBounds viewport500x300
      (Window.drag viewport500x300 (at_ 100 100)
         (Window.startDrag (at_ 100 100) windowA).1).1 ∧
  ¬ Window.inBounds viewport500x300 (Window.handleResize viewport500x300 windowA).
Proof.
  split; [|split].
  - eexists. split; [vm_compute; reflexivity|].
    unfold Window.inBounds. cbn. intros (_ & H & _). lra.
  - unfold Window.inBounds. intros (_ & H & _). vm_compute in H. done.
  - unfold Window.inBounds. intros (_ & H & _). vm_compute in H. done.
Qed.

(** C3 (amended). After a drag step, a resize step, and a viewport
    re-clamp of a window whose position was not negative, the position
    satisfies 0 ≤ x ≤ max(0, viewportWidth - width) and
    0 ≤ y ≤ max(0, viewportHeight - height), which are the bounds
    0 ≤ x ≤ viewportWidth - width and 0 ≤ y ≤ viewportHeight - height
    whenever the window is no larger than the viewport; a window that the
    constructor places itself (no truthy x or y in the configuration) and
    that is no larger than the viewport is within these bounds too. A
    position given by the configuration is taken as it is. *)
Theorem position_stays_anchored (vp : Viewport) (event : MouseEvent) (w : Window.t) :
  (Window.isDragging w = true → Window.anchored vp (Window.drag vp event w).1) ∧
  (Window.isResizing w = true → Window.anchored vp (Window.resize vp event w)) ∧
  (0 <= Window.x w → 0 <= Window.y w →
     Window.anchored vp (Window.handleResize vp w)) ∧
  (Window.fits vp w → Window.anchored vp w → Window.inBounds vp w) ∧
  (∀ cls rx ry Id config,
     Window.new cls vp rx ry Id config = Ok w →
     truthy (get config "x") = false → truthy (get config "y") = false →
     Window.fits vp w → Window.inBounds vp w).
Proof.
  split; [|split; [|split; [|split]]].
  - intros Hd. unfold Window.drag. rewrite Hd. unfold Window.anchored. cbn.
    repeat split; qmm.
  - intros Hr. unfold Window.resize. rewrite Hr. cbn [negb].
    destruct (negb (Qeq_bool (Window.resizeDirX w) 0)),
             (negb (Qeq_bool (Window.resizeDirY w) 0)),
             (Qlt_le_dec (Window.resizeDirX w) 0),
             (Qlt_le_dec (Window.resizeDirY w) 0);
      unfold Window.anchored; cbn; repeat split; qmm.
  - intros Hx Hy. unfold Window.anchored, Window.handleResize. cbn.
    repeat split; qmm.
  - unfold Window.fits, Window.anchored, Window.inBounds.
    intros [Hw Hh] (Hx0 & Hx1 & Hy0 & Hy1). repeat split; qmm.
  - intros cls rx ry Id config Hnew Hx Hy [Hw Hh].
    apply new_inv in Hnew
      as (_ & _ & _ & _ & _ & _ & _ & _ & Ex & Ey & _).
    rewrite js_or_falsy in Ex, Ey by done. cbn in Ex, Ey.
    injection Ex as Ex. injection Ey as Ey.
    unfold Window.inBounds. rewrite <- Ex, <- Ey.
    unfold Window.randomX, Window.randomY. repeat split; qmm.
Qed.

Lemma position_stays_anchored_witness :
  let started := (Window.startDrag (at_ 100 100) windowA).1 in
  let resizing := Window.startResize (at_ 650 450) 1 1 windowA in
  Window.anchored viewport500x300 (Window.drag viewport500x300 (at_ 0 0) started).1 ∧
  Window.anchored viewport500x300 (Window.resize viewport500x300 (at_ 0 0) resizing) ∧
  Window.anchored viewport500x300 (Window.handleResize viewport500x300 windowA) ∧
  Window.inBounds viewport1000x800
    (Window.handleResize viewport1000x800 windowA).
Proof.
  intros started resizing.
  destruct (position_stays_anchored viewport500x300 (at_ 0 0) started)
    as (Hdrag & _).
  destruct (position_stays_anchored viewport500x300 (at_ 0 0) resizing)
    as (_ & Hresize & _).
  destruct (position_stays_anchored viewport500x300 (at_ 0 0) windowA)
    as (_ & _ & Hview & _).
  destruct (position_stays_anchored viewport1000x800 (at_ 0 0) windowA)
    as (_ & _ & Hview' & _).
  destruct (position_stays_anchored viewport1000x800 (at_ 0 0)
              (Window.handleResize viewport1000x800 windowA))
    as (_ & _ & _ & Hfits & _).
  split; [apply Hdrag; reflexivity|].
  split; [apply Hresize; reflexivity|].
  split; [apply Hview; cbn; lra|].
  apply Hfits; [split; cbn; lra | apply Hview'; cbn; lra].
Defined.

(** ** Falsy configuration fields *)

Lemma as_number_inv (v : jsval) (n : Q) : as_number v = Ok n → v = JNum n.
Proof. destruct v; cbn; intros H; try discriminate. injection H as ->. reflexivity. Qed.

Lemma get_delete (k k' : string) (o : JsObject) :
  get (delete k o) k' = if String.eqb k k' then JUndefined else get o k'.
Proof.
  destruct (String.eqb_spec k k') as [->|Hne];
    [apply get_delete_eq | by apply get_delete_ne].
Qed.

Ltac new_step H Hf :=
  try rewrite (js_or_falsy _ _ Hf) in H;
  try (progress change (js_or JUndefined ?d) with d);
  match type of H with
  | rbind ?r _ = Ok _ =>
      let E := fresh "E" in
      destruct r eqn:E; cbn [rbind] in H |- *; [|discriminate H..]
  end.

Lemma new_without_falsy cls vp rx ry Id config w k :
  Window.new cls vp rx ry Id config = Ok w →
  k ∈ Window.defaulted → truthy (get config k) = false →
  ∃ w', Window.new cls vp rx ry Id (delete k config) = Ok w'
        ∧ Window.fields w' = Window.fields w.
Proof.
  intros H Hk Hf.
  unfold Window.defaulted in Hk.
  repeat (apply elem_of_cons in Hk as [->|Hk]); [..|by apply elem_of_nil in Hk].
  all: unfold Window.new, Window.createElement in H |- *.
  all: cbn [Window.config] in H |- *.
  all: rewrite !get_delete; cbn [String.eqb Ascii.eqb Bool.eqb].
  all: do 5 new_step H Hf.
  all: match type of H with
       | rbind (rbind ?r _) _ = Ok _ =>
           destruct r eqn:E'; cbn [rbind] in H |- *; [|discriminate H..]
       end.
  all: injection H as <-.
  all: eexists; split; [reflexivity|].
  all: try rewrite (js_or_falsy _ _ Hf).
  all: destruct (truthy (js_or (get config "isMinimized") (JBool false))); reflexivity.
Qed.

(** C10 (as stated, it fails). Not every falsy field is treated as absent:
    an empty title is stored as the empty string, where an absent one
    leaves [undefined], and a width of 0 is stored as 0. *)
Lemma falsy_title_and_width_are_kept :
  (∃ w w',
     Window.new "Window" viewport1000x800 (1#2) (1#2) "A"
       (<["title" := JStr ""]> configA) = Ok w ∧
     Window.new "Window" viewport1000x800 (1#2) (1#2) "A"
       (delete "title" configA) = Ok w' ∧
     Window.title w = JStr "" ∧ Window.title w' = JUndefined ∧
     Window.fields w ≠ Window.fields w') ∧
  (∃ w,
     Window.new "Window" viewport1000x800 (1#2) (1#2) "A"
       (<["width" := JNum 0]> configA) = Ok w ∧
     Window.width w = 0).
Proof.
  split.
  - eexists. eexists.
    split; [vm_compute; reflexivity|].
    split; [vm_compute; reflexivity|].
    split; [reflexivity|]. split; [reflexivity|].
    intros H. discriminate H.
  - eexists. split; [vm_compute; reflexivity|]. reflexivity.
Qed.

(** C10 (amended). The constructor treats a falsy value of the fields it
    reads through [||] (x, y, zIndex, isMinimized, icon) as absent: the
    window it builds is the one it builds without the field. With x = 0
    or y = 0 (or any falsy x or y) the window takes that coordinate from
    the random-placement formula, and zIndex = 0 becomes 1; a truthy x, y
    or zIndex is honoured. Width, height, title and content are stored as
    supplied, falsy or not. *)
Theorem constructor_falsy_fields cls vp rx ry Id config w :
  Window.new cls vp rx ry Id config = Ok w →
  (∀ k, k ∈ Window.defaulted → truthy (get config k) = false →
     ∃ w', Window.new cls vp rx ry Id (delete k config) = Ok w'
           ∧ Window.fields w' = Window.fields w) ∧
  (truthy (get config "x") = false →
     Window.x w = Window.randomX vp rx (Window.width w)) ∧
  (truthy (get config "y") = false →
     Window.y w = Window.randomY vp ry (Window.height w)) ∧
  (truthy (get config "zIndex") = false → Window.zIndex w = 1) ∧
  (truthy (get config "x") = true → get config "x" = JNum (Window.x w)) ∧
  (truthy (get config "y") = true → get config "y" = JNum (Window.y w)) ∧
  (truthy (get config "zIndex") = true →
     get config "zIndex" = JNum (Window.zIndex w)) ∧
  (get config "width" = JNum (Window.width w) ∧
   get config "height" = JNum (Window.height w) ∧
   get config "title" = Window.title w ∧
   get config "content" = Window.content w).
Proof.
  intros H.
  split; [intros k Hk Hf; by eapply new_without_falsy|].
  apply new_inv in H
    as (_ & Ew & Eh & Et & Ec & Ez & _ & _ & Ex & Ey & _).
  repeat split.
  - intros Hf. rewrite js_or_falsy in Ex by done. cbn in Ex. congruence.
  - intros Hf. rewrite js_or_falsy in Ey by done. cbn in Ey. congruence.
  - intros Hf. rewrite js_or_falsy in Ez by done. cbn in Ez. congruence.
  - intros Ht. rewrite js_or_truthy in Ex by done. by apply as_number_inv.
  - intros Ht. rewrite js_or_truthy in Ey by done. by apply as_number_inv.
  - intros Ht. rewrite js_or_truthy in Ez by done. by apply as_number_inv.
  - by apply as_number_inv.
  - by apply as_number_inv.
  - done.
  - done.
Qed.

Example windowZero_constructed :
  Window.new "Window" viewport1000x800 (1#2) (1#2) "A" configZero = Ok windowZero.
Proof. vm_compute. reflexivity. Qed.

Lemma constructor_falsy_fields_witness :
  Window.x windowZero = Window.randomX viewport1000x800 (1#2) 600 ∧
  Window.zIndex windowZero = 1 ∧
  get configZero "y" = JNum (Window.y windowZero).
Proof.
  destruct (constructor_falsy_fields "Window" viewport1000x800 (1#2) (1#2) "A"
              configZero windowZero windowZero_constructed)
    as (_ & Hx & _ & Hz & _ & Hy & _).
  split; [apply Hx; vm_compute; reflexivity|].
  split; [apply Hz; vm_compute; reflexivity|].
  apply Hy. vm_compute. reflexivity.
Defined.

(** ** Maps in insertion order *)

Section JsMap_facts.
Context {A : Type}.

Lemma JsMap_get_Some_elem (k : string) (v : A) (m : list (string * A)) : JsMap.get k m = Some v → (k, v) ∈ m.
Proof.
  induction m as [|[k' v'] m IH]; cbn; [done|].
  destruct (String.eqb_spec k k') as [->|Hne].
  - intros [= ->]. apply list_elem_of_here.
  - intros H. apply list_elem_of_further. auto.
Qed.

Lemma JsMap_get_None (k : string) (m : list (string * A)) : JsMap.get k m = None ↔ k ∉ JsMap.keys m.
Proof.
  unfold JsMap.keys.
  induction m as [|[k' v'] m IH]; cbn.
  - split; [intros _; apply not_elem_of_nil | done].
  - rewrite not_elem_of_cons. destruct (String.eqb_spec k k') as [->|Hne].
    + split; [done | intros [? _]; done].
    + rewrite IH. tauto.
Qed.

Lemma JsMap_has_true (k : string) (m : list (string * A)) : JsMap.has k m = true ↔ k ∈ JsMap.keys m.
Proof. unfold JsMap.has. rewrite bool_decide_eq_true. done. Qed.

Lemma JsMap_has_false (k : string) (m : list (string * A)) : JsMap.has k m = false ↔ k ∉ JsMap.keys m.
Proof. unfold JsMap.has. rewrite bool_decide_eq_false. done. Qed.

Lemma JsMap_has_get (k : string) (m : list (string * A)) : JsMap.has k m = true → ∃ v, JsMap.get k m = Some v.
Proof.
  rewrite JsMap_has_true. intros Hin.
  destruct (JsMap.get k m) as [v|] eqn:E; [eauto|].
  apply JsMap_get_None in E. done.
Qed.

Lemma JsMap_get_elem (k : string) (v : A) (m : list (string * A)) :
  NoDup (JsMap.keys m) → (k, v) ∈ m → JsMap.get k m = Some v.
Proof.
  unfold JsMap.keys.
  induction m as [|[k' v'] m IH]; cbn; [intros _ H; by apply elem_of_nil in H|].
  intros Hnd Hin. apply NoDup_cons in Hnd as [Hk' Hnd].
  apply elem_of_cons in Hin as [[= -> ->]|Hin].
  - by rewrite String.eqb_refl.
  - destruct (String.eqb_spec k k') as [->|Hne]; [|auto].
    exfalso. apply Hk'. apply list_elem_of_fmap. by exists (k', v).
Qed.

Lemma JsMap_set_fresh (k : string) (v : A) (m : list (string * A)) : k ∉ JsMap.keys m → JsMap.set k v m = m ++ [(k, v)].
Proof.
  unfold JsMap.keys.
  induction m as [|[k' v'] m IH]; cbn; [done|].
  rewrite not_elem_of_cons. intros [Hne Hnin].
  destruct (String.eqb_spec k k') as [->|_]; [done|].
  by rewrite IH.
Qed.

Lemma JsMap_delete_filter (k : string) (m : list (string * A)) :
  JsMap.delete k m = filter (λ p, p.1 ≠ k) m.
Proof.
  induction m as [|[k' v'] m IH]; cbn [JsMap.delete]; [done|].
  destruct (String.eqb_spec k k') as [->|Hne].
  - rewrite filter_cons_False by (cbn; tauto). done.
  - rewrite filter_cons_True by (cbn; congruence). by rewrite IH.
Qed.

End JsMap_facts.

Lemma indexOf_None l arr : Environment.indexOf l arr = None ↔ l ∉ arr.
Proof.
  induction arr as [|l' arr IH]; cbn.
  - split; [intros _; apply not_elem_of_nil | done].
  - rewrite not_elem_of_cons. destruct (Nat.eqb_spec l' l) as [->|Hne].
    + split; [done | intros [? _]; done].
    + destruct (Environment.indexOf l arr); cbn.
      * split; [done|]. intros [_ H]. apply IH in H. done.
      * split; [|done]. intros _. split; [done|]. by apply IH.
Qed.

Lemma indexOf_Some l arr i :
  Environment.indexOf l arr = Some i → arr !! i = Some l.
Proof.
  revert i. induction arr as [|l' arr IH]; cbn; [done|]. intros i.
  destruct (Nat.eqb_spec l' l) as [->|Hne].
  - intros [= <-]. done.
  - destruct (Environment.indexOf l arr) as [j|]; cbn; [|done].
    intros [= <-]. cbn. auto.
Qed.


Lemma filter_ne_notin (arr : list nat) l : l ∉ arr → filter (λ x, x ≠ l) arr = arr.
Proof.
  induction arr as [|a arr IH]; [done|].
  rewrite not_elem_of_cons. intros [Hne Hnin].
  rewrite filter_cons_True by done. by rewrite IH.
Qed.

Lemma delete_NoDup_filter (arr : list nat) i l :
  NoDup arr → arr !! i = Some l → delete i arr = filter (λ x, x ≠ l) arr.
Proof.
  revert i. induction arr as [|a arr IH]; intros i Hnd Hi; [done|].
  apply NoDup_cons in Hnd as [Ha Hnd].
  destruct i as [|i]; cbn in Hi.
  - injection Hi as ->. cbn [delete list_delete].
    rewrite filter_cons_False by tauto.
    by rewrite filter_ne_notin.
  - cbn [delete list_delete].
    rewrite filter_cons_True.
    + f_equal. by apply IH.
    + intros ->. apply Ha. by eapply list_elem_of_lookup_2.
Qed.

(** ** Rules of the specification logic *)

Section wp_rules.
Import Environment.
Context {A B : Type}.
Implicit Types (Q : A → t → Prop) (E : t → Prop) (s : t).

Lemma wp_mono (m : M A) Q Q' E E' s :
  (∀ a s', Q a s' → Q' a s') → (∀ s', E s' → E' s') →
  wp m Q E s → wp m Q' E' s.
Proof. unfold wp. intros HQ HE. destruct (m s) as [[a|e|] s']; auto. Qed.

Lemma wp_bind (m : M A) (k : A → M B) (R : B → t → Prop) E s :
  wp m (λ a s', wp (k a) R E s') E s → wp (bind m k) R E s.
Proof. unfold wp, bind. destruct (m s) as [[a|e|] s']; auto. Qed.

Lemma wp_bind_inv (m : M A) (k : A → M B) (R : B → t → Prop) E s :
  wp (bind m k) R E s → wp m (λ a s', wp (k a) R E s') E s.
Proof. unfold wp, bind. destruct (m s) as [[a|e|] s']; auto. Qed.

Lemma wp_ret (a : A) Q E s : Q a s → wp (ret a) Q E s.
Proof. done. Qed.

Lemma wp_gets (f : t → A) Q E s : Q (f s) s → wp (gets f) Q E s.
Proof. done. Qed.

Lemma wp_lift (r : result A) Q E s :
  match r with Ok a => Q a s | _ => E s end → wp (lift r) Q E s.
Proof. unfold wp, lift. by destruct r. Qed.

Lemma wp_run (m : M A) Q E s :
  wp m Q E s ↔ match m s with (Ok a, s') => Q a s' | (_, s') => E s' end.
Proof. done. Qed.

(** A run that did not throw satisfies the postcondition. *)
Lemma wp_Ok (m : M A) Q E s a s' :
  wp m Q E s → m s = (Ok a, s') → Q a s'.
Proof. unfold wp. intros H Hm. by rewrite Hm in H. Qed.

(** With no state allowed for an exception, the run returns. *)
Lemma wp_total (m : M A) Q s :
  wp m Q (λ _, False) s → ∃ a s', m s = (Ok a, s') ∧ Q a s'.
Proof. unfold wp. destruct (m s) as [[a|e|] s']; [eauto|done..]. Qed.

End wp_rules.

Section wp_more.
Import Environment.
Implicit Types (E : t → Prop) (s : t).

Lemma wp_modify (f : t → t) (Q : unit → t → Prop) E s :
  Q tt (f s) → wp (modify f) Q E s.
Proof. done. Qed.

Lemma wp_deref (l : loc) (Q : Window.t → t → Prop) E s :
  match heap s !! l with Some w => Q w s | None => E s end →
  wp (deref l) Q E s.
Proof. unfold wp, deref. by destruct (heap s !! l). Qed.

Lemma wp_update (l : loc) (f : Window.t → Window.t)
    (Q : unit → t → Prop) E s :
  match heap s !! l with
  | Some w => Q tt (set_heap (λ h, <[l := f w]> h) s)
  | None => E s
  end →
  wp (update l f) Q E s.
Proof. unfold wp, update, bind, deref, store, modify. by destruct (heap s !! l). Qed.

(** The loop rule, with an invariant over the items already visited. *)
Lemma wp_forEach {A} (f : A → M unit) (xs : list A)
    (I : list A → t → Prop) E s :
  I [] s →
  (∀ done a rest s', xs = done ++ a :: rest → I done s' →
     wp (f a) (λ _ s'', I (done ++ [a]) s'') E s') →
  wp (forEach f xs) (λ _ s', I xs s') E s.
Proof.
  revert I s. induction xs as [|a xs IH]; intros I s H0 Hstep; [done|].
  cbn [forEach]. apply wp_bind.
  eapply wp_mono; [| |apply (Hstep [] a xs s); done]; [|done].
  cbn. intros _ s' Ha.
  apply (IH (λ done, I (a :: done))); [done|].
  intros done b rest s'' -> Hd. by apply (Hstep (a :: done) b rest).
Qed.

Lemma wp_mapM {A B} (f : A → M B) (xs : list A)
    (I : list A → list B → t → Prop) E s :
  I [] [] s →
  (∀ done bs a rest s', xs = done ++ a :: rest → I done bs s' →
     wp (f a) (λ b s'', I (done ++ [a]) (bs ++ [b]) s'') E s') →
  wp (mapM f xs) (λ bs s', I xs bs s') E s.
Proof.
  revert I s. induction xs as [|a xs IH]; intros I s H0 Hstep; [done|].
  cbn [mapM]. apply wp_bind.
  eapply wp_mono; [| |apply (Hstep [] [] a xs s); done]; [|done].
  cbn. intros b s' Ha. apply wp_bind.
  eapply wp_mono; [| |apply (IH (λ done bs, I (a :: done) (b :: bs)))];
    [by intros bs s'' H|done|done|].
  intros done bs c rest s'' -> Hd. by apply (Hstep (a :: done) (b :: bs) c rest).
Qed.

End wp_more.

(** ** The heap under [updateZIndices] *)

Lemma persistent_setZIndex z w : persistent (Window.setZIndex z w) = persistent w.
Proof. reflexivity. Qed.

Lemma persistent_on event cb w : persistent (Window.on event cb w) = persistent w.
Proof. reflexivity. Qed.

Lemma insert_as_alter (h : gmap nat Window.t) l w f :
  h !! l = Some w → <[l := f w]> h = alter f l h.
Proof.
  intros Hl. apply map_eq. intros l'.
  destruct (decide (l = l')) as [<-|Hne].
  - by rewrite lookup_insert_eq, lookup_alter_eq, Hl.
  - by rewrite lookup_insert_ne, lookup_alter_ne.
Qed.

Lemma zheap_lookup_notin base i ws h l :
  l ∉ ws → zheap base i ws h !! l = h !! l.
Proof.
  revert i h. induction ws as [|a ws IH]; intros i h Hnin; [done|].
  apply not_elem_of_cons in Hnin as [Hne Hnin]. cbn [zheap].
  rewrite IH by done. by rewrite lookup_alter_ne.
Qed.

Lemma zheap_lookup base i ws h k l :
  NoDup ws → ws !! k = Some l →
  zheap base i ws h !! l =
    Window.setZIndex (base + inject_Z (Z.of_nat (i + k))) <$> h !! l.
Proof.
  revert i h k. induction ws as [|a ws IH]; intros i h k Hnd Hk; [done|].
  apply NoDup_cons in Hnd as [Ha Hnd]. cbn [zheap].
  destruct k as [|k]; cbn in Hk.
  - injection Hk as ->. rewrite zheap_lookup_notin by done.
    rewrite lookup_alter_eq. by rewrite Nat.add_0_r.
  - rewrite (IH (S i) _ k) by done.
    rewrite lookup_alter_ne.
    + by replace (S i + k)%nat with (i + S k)%nat by lia.
    + intros ->. apply Ha. by eapply list_elem_of_lookup_2.
Qed.

Lemma zheap_persistent base i ws h l :
  persistent <$> zheap base i ws h !! l = persistent <$> h !! l.
Proof.
  revert i h. induction ws as [|a ws IH]; intros i h; [done|].
  cbn [zheap]. rewrite IH.
  destruct (decide (a = l)) as [->|Hne].
  - rewrite lookup_alter_eq. by destruct (h !! l).
  - by rewrite lookup_alter_ne.
Qed.

Lemma zheap_is_Some base i ws h l :
  is_Some (zheap base i ws h !! l) ↔ is_Some (h !! l).
Proof.
  rewrite <- !(fmap_is_Some persistent). by rewrite zheap_persistent.
Qed.

(** ** Runs of the persistence and z-order methods *)

Lemma update_run l f s w :
  Environment.heap s !! l = Some w →
  Environment.update l f s =
    (Ok tt, Environment.set_heap (alter f l) s).
Proof.
  intros Hl. unfold Environment.update, Environment.bind, Environment.deref,
    Environment.store, Environment.modify. rewrite Hl.
  unfold Environment.set_heap. by rewrite (insert_as_alter _ _ _ _ Hl).
Qed.

Lemma setZIndices_run base i ws s :
  (∀ l, l ∈ ws → is_Some (Environment.heap s !! l)) →
  Environment.setZIndices base i ws s =
    (Ok tt, Environment.set_heap (zheap base i ws) s).
Proof.
  revert i s. induction ws as [|a ws IH]; intros i s Hb.
  - cbn. by destruct s.
  - cbn [Environment.setZIndices zheap].
    destruct (Hb a) as [w Hw]; [apply list_elem_of_here|].
    unfold Environment.bind at 1. rewrite (update_run _ _ _ _ Hw).
    rewrite IH; [done|].
    intros l Hl. cbn. apply lookup_alter_is_Some. apply Hb.
    by apply list_elem_of_further.
Qed.

Lemma updateZIndices_run s :
  bound s →
  Environment.updateZIndices s =
    (Ok tt, Environment.set_heap
              (zheap (Environment.zIndexBase s) 0
                     (JsMap.values (Environment.windows s))) s).
Proof.
  intros Hb. unfold Environment.updateZIndices, Environment.bind, Environment.gets.
  by apply setZIndices_run.
Qed.

Lemma mapM_saved_run ws s :
  (∀ l, l ∈ ws → is_Some (Environment.heap s !! l)) →
  Environment.mapM
    (λ l, Environment.bind (Environment.deref l)
            (λ w, Environment.ret (Environment.savedWindow w))) ws s =
  (Ok ((λ l, from_option Environment.savedWindow JUndefined
               (Environment.heap s !! l)) <$> ws), s).
Proof.
  induction ws as [|a ws IH]; intros Hb; [done|].
  cbn [Environment.mapM].
  destruct (Hb a) as [w Hw]; [apply list_elem_of_here|].
  unfold Environment.bind at 1. unfold Environment.bind at 1.
  unfold Environment.deref at 1. rewrite Hw. cbn [Environment.ret].
  unfold Environment.bind at 1.
  rewrite IH by (intros l Hl; apply Hb; by apply list_elem_of_further).
  cbn. by rewrite Hw.
Qed.

Lemma saveState_run s :
  bound s →
  Environment.saveState s =
    (Ok tt, Environment.set_localStorage (savedStorage s) s).
Proof.
  intros Hb. unfold Environment.saveState.
  unfold Environment.bind at 1. cbn [Environment.gets].
  unfold Environment.bind at 1. rewrite mapM_saved_run by done.
  reflexivity.
Qed.

(** ** Well-formed environments *)

Lemma wf_ext s s' :
  Environment.heap s' = Environment.heap s →
  Environment.windows s' = Environment.windows s →
  Environment.nextLoc s' = Environment.nextLoc s →
  wf s → wf s'.
Proof.
  unfold wf. by intros -> -> ->.
Qed.

Lemma zOrdered_ext s s' :
  Environment.heap s' = Environment.heap s →
  Environment.windows s' = Environment.windows s →
  Environment.zIndexBase s' = Environment.zIndexBase s →
  zOrdered s → zOrdered s'.
Proof. unfold zOrdered. intros -> -> ->. done. Qed.

Lemma wf_bound s : wf s → bound s.
Proof.
  intros [_ Hobjs _] l Hl. unfold JsMap.values in Hl.
  apply list_elem_of_fmap in Hl as ([k l'] & -> & Hin).
  destruct (Hobjs k l' Hin) as (w & Hw & _). by exists w.
Qed.

Lemma wf_NoDup_windows s : wf s → NoDup (Environment.windows s).
Proof. intros [Hk _ _]. by apply NoDup_fmap_1 in Hk. Qed.

Lemma wf_NoDup_values s : wf s → NoDup (JsMap.values (Environment.windows s)).
Proof.
  intros Hwf. unfold JsMap.values.
  apply NoDup_fmap_2_strong; [|by apply wf_NoDup_windows].
  intros [k1 l1] [k2 l2] H1 H2. cbn. intros <-.
  destruct (wf_objs _ _ _ Hwf _ _ H1) as (w1 & Hw1 & <-).
  destruct (wf_objs _ _ _ Hwf _ _ H2) as (w2 & Hw2 & <-).
  congruence.
Qed.

Lemma wf_zheap s base i ws :
  wf s → wf (Environment.set_heap (zheap base i ws) s).
Proof.
  intros [H1 H2 H3]. split; cbn; [done| |].
  - intros k l Hin. destruct (H2 k l Hin) as (w & Hw & Hid).
    pose proof (zheap_persistent base i ws (Environment.heap s) l) as Hp.
    rewrite Hw in Hp. cbn in Hp.
    destruct (zheap base i ws (Environment.heap s) !! l) as [w'|]; [|done].
    exists w'. split; [done|]. cbn in Hp. unfold persistent in Hp. congruence.
  - intros l Hl. apply H3. by apply zheap_is_Some in Hl.
Qed.

Lemma zOrdered_zheap s :
  wf s →
  zOrdered (Environment.set_heap
              (zheap (Environment.zIndexBase s) 0
                     (JsMap.values (Environment.windows s))) s).
Proof.
  intros Hwf k l Hk. cbn in *.
  rewrite (zheap_lookup _ _ _ _ k l) by (done || by apply wf_NoDup_values).
  destruct (wf_bound s Hwf l) as [w Hw]; [by eapply list_elem_of_lookup_2|].
  rewrite Hw. cbn. eexists. split; [done|]. reflexivity.
Qed.

(** ** Raising a window *)

Lemma values_filter (ws : list (string * nat)) l :
  JsMap.values (filter (λ p, p.2 ≠ l) ws) = filter (λ x, x ≠ l) (JsMap.values ws).
Proof.
  unfold JsMap.values. induction ws as [|[k l'] ws IH]; [done|].
  cbn [fmap list_fmap]. rewrite !filter_cons. cbn.
  destruct (decide (l' ≠ l)); cbn; by rewrite IH.
Qed.

Lemma rebuild_run (ps : list (string * nat)) s :
  (∀ k l, (k, l) ∈ ps → ∃ w, Environment.heap s !! l = Some w ∧ Window.id w = k) →
  NoDup (JsMap.keys ps) →
  (∀ k, k ∈ JsMap.keys ps → k ∉ JsMap.keys (Environment.windows s)) →
  Environment.forEach
    (λ w, Environment.bind (Environment.deref w)
            (λ o, Environment.modify
                    (Environment.set_windows (JsMap.set (Window.id o) w))))
    (JsMap.values ps) s =
  (Ok tt, Environment.set_windows (λ m, m ++ ps) s).
Proof.
  revert s. induction ps as [|[k l] ps IH]; intros s Hobjs Hnd Hfresh.
  - cbn. unfold Environment.set_windows. rewrite app_nil_r. by destruct s.
  - cbn [JsMap.values fmap list_fmap Environment.forEach snd].
    destruct (Hobjs k l) as (w & Hw & Hid); [apply list_elem_of_here|].
    unfold Environment.bind at 1. unfold Environment.bind at 1.
    unfold Environment.deref at 1. rewrite Hw. cbn [Environment.modify].
    unfold JsMap.keys in Hnd. cbn in Hnd. apply NoDup_cons in Hnd as [Hk Hnd].
    fold (JsMap.values ps).
    rewrite IH.
    + f_equal. unfold Environment.set_windows. cbn. f_equal.
      rewrite Hid, JsMap_set_fresh.
      * by rewrite <- app_assoc.
      * apply Hfresh. unfold JsMap.keys. cbn. apply list_elem_of_here.
    + intros k' l' Hin. cbn. apply Hobjs. by apply list_elem_of_further.
    + done.
    + intros k' Hk'. cbn. rewrite Hid.
      rewrite JsMap_set_fresh
        by (apply Hfresh; unfold JsMap.keys; cbn; apply list_elem_of_here).
      unfold JsMap.keys. rewrite fmap_app. cbn.
      rewrite not_elem_of_app. split.
      * apply Hfresh. unfold JsMap.keys. cbn. by apply list_elem_of_further.
      * rewrite list_elem_of_singleton. intros ->. done.
Qed.

Lemma raised_keys_NoDup (ws : list (string * nat)) k l :
  NoDup (JsMap.keys ws) → (k, l) ∈ ws →
  NoDup (JsMap.keys (filter (λ p, p.2 ≠ l) ws ++ [(k, l)])).
Proof.
  intros Hnd Hin. unfold JsMap.keys. rewrite fmap_app. cbn.
  apply NoDup_app. split; [|split].
  - apply (NoDup_fmap_2_strong fst).
    + intros [k1 l1] [k2 l2] H1%list_elem_of_filter H2%list_elem_of_filter.
      cbn. intros <-. destruct H1 as [_ H1], H2 as [_ H2].
      f_equal.
      pose proof (JsMap_get_elem _ _ _ Hnd H1).
      pose proof (JsMap_get_elem _ _ _ Hnd H2). congruence.
    + apply NoDup_filter. by apply NoDup_fmap_1 in Hnd.
  - intros k' Hk' Hk''%list_elem_of_singleton. subst k'.
    apply list_elem_of_fmap in Hk' as ([k1 l1] & Heq & Hf). cbn in Heq. subst k1.
    apply list_elem_of_filter in Hf as [Hne Hf]. cbn in Hne.
    pose proof (JsMap_get_elem _ _ _ Hnd Hin).
    pose proof (JsMap_get_elem _ _ _ Hnd Hf). congruence.
  - apply NoDup_singleton.
Qed.

Lemma bringToFront_absent l s :
  l ∉ JsMap.values (Environment.windows s) →
  Environment.bringToFront l s = (Ok tt, s).
Proof.
  intros Hnin. unfold Environment.bringToFront.
  unfold Environment.bind at 1. cbn [Environment.gets].
  apply indexOf_None in Hnin. by rewrite Hnin.
Qed.

Lemma bringToFront_member k l s :
  wf s → (k, l) ∈ Environment.windows s →
  Environment.bringToFront l s = (Ok tt, raised k l s).
Proof.
  intros Hwf Hin.
  assert (Hl : l ∈ JsMap.values (Environment.windows s)).
  { unfold JsMap.values. apply list_elem_of_fmap. by exists (k, l). }
  unfold Environment.bringToFront.
  unfold Environment.bind at 1. cbn [Environment.gets].
  destruct (Environment.indexOf l (JsMap.values (Environment.windows s)))
    as [i|] eqn:Hi; [|by apply indexOf_None in Hi].
  apply indexOf_Some in Hi.
  rewrite (delete_NoDup_filter _ _ _ (wf_NoDup_values s Hwf) Hi).
  rewrite <- values_filter.
  change (JsMap.values (filter (λ p, p.2 ≠ l) (Environment.windows s)) ++ [l])
    with (JsMap.values (filter (λ p, p.2 ≠ l) (Environment.windows s)) ++
          JsMap.values [(k, l)]).
  unfold JsMap.values at 1 2. rewrite <- fmap_app. fold (JsMap.values
    (filter (λ p, p.2 ≠ l) (Environment.windows s) ++ [(k, l)])).
  set (ps := filter (λ p, p.2 ≠ l) (Environment.windows s) ++ [(k, l)]).
  assert (Hps : ∀ k' l', (k', l') ∈ ps → (k', l') ∈ Environment.windows s).
  { intros k' l'. unfold ps. rewrite elem_of_app, list_elem_of_filter.
    rewrite list_elem_of_singleton. intros [[_ H]|[= -> ->]]; done. }
  unfold Environment.bind at 1. cbn [Environment.modify].
  unfold Environment.bind at 1.
  rewrite rebuild_run.
  - unfold Environment.bind at 1.
    rewrite updateZIndices_run.
    + rewrite saveState_run; [reflexivity|].
      intros l' Hl'. cbn in *. apply zheap_is_Some.
      apply list_elem_of_fmap in Hl' as ([k'' l''] & -> & Hin').
      destruct (wf_objs _ _ _ Hwf _ _ (Hps _ _ Hin')) as (w & Hw & _). by exists w.
    + intros l' Hl'. cbn in *.
      apply list_elem_of_fmap in Hl' as ([k'' l''] & -> & Hin').
      destruct (wf_objs _ _ _ Hwf _ _ (Hps _ _ Hin')) as (w & Hw & _). by exists w.
  - intros k' l' Hin'. cbn. apply (wf_objs _ _ _ Hwf). by apply Hps.
  - apply raised_keys_NoDup; [apply (wf_keys _ _ _ Hwf) | done].
  - intros k' _. cbn. apply not_elem_of_nil.
Qed.

Lemma raised_windows k l s :
  Environment.windows (raised k l s) =
    filter (λ p, p.2 ≠ l) (Environment.windows s) ++ [(k, l)].
Proof. reflexivity. Qed.

Lemma wf_raised k l s :
  wf s → (k, l) ∈ Environment.windows s → wf (raised k l s).
Proof.
  intros Hwf Hin. unfold raised.
  set (s1 := Environment.set_windows _ s).
  set (s2 := Environment.set_heap _ s1).
  apply (wf_ext s2); [done..|]. apply wf_zheap.
  split; cbn.
  - apply raised_keys_NoDup; [apply (wf_keys _ _ _ Hwf)|done].
  - intros k' l'. rewrite elem_of_app, list_elem_of_filter, list_elem_of_singleton.
    intros [[_ H]|[= -> ->]]; by apply (wf_objs _ _ _ Hwf).
  - apply (wf_next _ _ _ Hwf).
Qed.

Lemma zOrdered_raised k l s :
  wf s → (k, l) ∈ Environment.windows s → zOrdered (raised k l s).
Proof.
  intros Hwf Hin. unfold raised.
  set (s1 := Environment.set_windows _ s).
  set (s2 := Environment.set_heap _ s1).
  apply (zOrdered_ext s2); [done..|]. apply (zOrdered_zheap s1).
  split; cbn.
  - apply raised_keys_NoDup; [apply (wf_keys _ _ _ Hwf)|done].
  - intros k' l'. rewrite elem_of_app, list_elem_of_filter, list_elem_of_singleton.
    intros [[_ H]|[= -> ->]]; by apply (wf_objs _ _ _ Hwf).
  - apply (wf_next _ _ _ Hwf).
Qed.

(** In a z-ordered collection the last window is above every other. *)
Lemma zOrdered_last s vs l l' :
  zOrdered s → JsMap.values (Environment.windows s) = vs ++ [l] → l' ∈ vs →
  ∃ z z', zIndexOf s l = Some z ∧ zIndexOf s l' = Some z' ∧ z' < z.
Proof.
  intros Hz Hvs Hl'.
  apply list_elem_of_lookup in Hl' as [j Hj].
  pose proof (lookup_lt_Some _ _ _ Hj) as Hlt.
  destruct (Hz (length vs) l) as (w & Hw & Hzw).
  { rewrite Hvs. by rewrite list_lookup_middle. }
  destruct (Hz j l') as (w' & Hw' & Hzw').
  { rewrite Hvs. by rewrite lookup_app_l. }
  exists (Window.zIndex w), (Window.zIndex w'). unfold zIndexOf.
  rewrite Hw, Hw'. split; [done|]. split; [done|].
  rewrite Hzw, Hzw'. apply Qplus_lt_r. rewrite <- Zlt_Qlt. lia.
Qed.

Lemma filter_raised (ws : list (string * nat)) k l :
  filter (λ p, p.2 ≠ l) (filter (λ p, p.2 ≠ l) ws ++ [(k, l)]) =
  filter (λ p, p.2 ≠ l) ws.
Proof.
  rewrite filter_app, filter_cons_False, filter_nil, app_nil_r by (cbn; tauto).
  induction ws as [|p ws IH]; [done|].
  rewrite (filter_cons _ p ws). destruct (decide (p.2 ≠ l)).
  - rewrite filter_cons_True by done. by rewrite IH.
  - done.
Qed.

(** ** Bring to front *)

(** C5. [bringToFront(w)] changes nothing when [w] is not in the
    collection. For a member it moves [w] to the end of the collection
    and leaves the order of the other windows as it was, so that the
    z-index of [w] is strictly above that of every other member; doing it
    a second time gives the same order. *)
Theorem bringToFront_raises (s : Environment.t) (l : nat) :
  wf s →
  (l ∉ JsMap.values (Environment.windows s) →
     Environment.bringToFront l s = (Ok tt, s)) ∧
  (∀ k, (k, l) ∈ Environment.windows s →
     ∃ s', Environment.bringToFront l s = (Ok tt, s') ∧
       Environment.windows s' =
         filter (λ p, p.2 ≠ l) (Environment.windows s) ++ [(k, l)] ∧
       filter (λ p, p.2 ≠ l) (Environment.windows s') =
         filter (λ p, p.2 ≠ l) (Environment.windows s) ∧
       (∀ l', l' ∈ JsMap.values (Environment.windows s') → l' ≠ l →
          ∃ z z', zIndexOf s' l = Some z ∧ zIndexOf s' l' = Some z' ∧ z' < z) ∧
       (∃ s'', Environment.bringToFront l s' = (Ok tt, s'') ∧
               Environment.windows s'' = Environment.windows s')).
Proof.
  intros Hwf. split; [apply bringToFront_absent|].
  intros k Hin. exists (raised k l s).
  split; [by apply bringToFront_member|].
  split; [apply raised_windows|].
  split; [rewrite raised_windows; apply filter_raised|].
  split.
  - intros l' Hl' Hne.
    apply (zOrdered_last _
             (JsMap.values (filter (λ p, p.2 ≠ l) (Environment.windows s)))).
    + by apply zOrdered_raised.
    + rewrite raised_windows. unfold JsMap.values. by rewrite fmap_app.
    + rewrite raised_windows in Hl'. unfold JsMap.values in *.
      rewrite fmap_app in Hl'. apply elem_of_app in Hl' as [H|H]; [done|].
      cbn in H. by apply list_elem_of_singleton in H.
  - exists (raised k l (raised k l s)). split.
    + apply bringToFront_member; [by apply wf_raised|].
      rewrite raised_windows, elem_of_app, list_elem_of_singleton. by right.
    + rewrite !raised_windows. by rewrite filter_raised.
Qed.

(** ** The factory *)

Lemma persistent_wired config this : persistent (wired config this) = persistent this.
Proof.
  unfold wired. cbn zeta. rewrite !persistent_on.
  destruct (truthy (get config "events")); [|done].
  generalize (Environment.entries (get config "events")). intros es.
  revert this. induction es as [|[e h] es IH]; intros this; [done|].
  cbn [fold_left]. by rewrite IH, persistent_on.
Qed.

Lemma id_wired config this : Window.id (wired config this) = Window.id this.
Proof.
  pose proof (persistent_wired config this) as H. unfold persistent in H.
  congruence.
Qed.

Lemma update_fresh n f w s :
  Environment.update n f (Environment.set_heap (λ h, <[n := w]> h) s) =
  (Ok tt, Environment.set_heap (λ h, <[n := f w]> h) s).
Proof.
  unfold Environment.update, Environment.bind, Environment.deref,
    Environment.store, Environment.modify.
  cbn [Environment.heap Environment.set_heap]. rewrite lookup_insert_eq.
  unfold Environment.set_heap. cbn. by rewrite insert_insert_eq.
Qed.

Lemma forEach_on_run n es w s :
  Environment.forEach
    (λ '(event, handler),
       Environment.update n (Window.on event (UserCallback handler)))
    es (Environment.set_heap (λ h, <[n := w]> h) s) =
  (Ok tt, Environment.set_heap
            (λ h, <[n := fold_left (λ w eh, Window.on eh.1 (UserCallback eh.2) w)
                                   es w]> h) s).
Proof.
  revert w. induction es as [|[e h] es IH]; intros w; [done|].
  cbn [Environment.forEach fold_left].
  unfold Environment.bind at 1. rewrite update_fresh. apply IH.
Qed.

Lemma attachListeners_run n config w s :
  Environment.attachListeners n config
    (Environment.set_heap (λ h, <[n := w]> h) s) =
  (Ok tt, Environment.set_heap (λ h, <[n := wired config w]> h) s).
Proof.
  unfold Environment.attachListeners, wired.
  unfold Environment.bind at 1.
  destruct (truthy (get config "events")).
  - rewrite forEach_on_run.
    repeat (unfold Environment.bind at 1; rewrite update_fresh).
    apply update_fresh.
  - cbn [Environment.ret].
    repeat (unfold Environment.bind at 1; rewrite update_fresh).
    apply update_fresh.
Qed.

Lemma resolveType_registered cls config d s :
  Environment.windowTypes s !! Environment.ByName (Environment.name cls) = Some d →
  Environment.resolveType cls config s =
    (Ok (cls, Environment.mergeDefaults config d), s).
Proof.
  intros Hd. unfold Environment.resolveType.
  unfold Environment.bind at 1. cbn [Environment.gets]. by rewrite Hd.
Qed.

Lemma resolveType_frame cls config s :
  ∃ c s0, Environment.resolveType cls config s = (Ok c, s0) ∧
    Environment.heap s0 = Environment.heap s ∧
    Environment.windows s0 = Environment.windows s ∧
    Environment.nextLoc s0 = Environment.nextLoc s ∧
    Environment.zIndexBase s0 = Environment.zIndexBase s.
Proof.
  unfold Environment.resolveType.
  unfold Environment.bind at 1. cbn [Environment.gets].
  destruct (Environment.windowTypes s !! _) as [d|]; [by eexists _, _|].
  destruct (Environment.isSubclass cls); by eexists _, _.
Qed.

Lemma createWindow_existing_run vp rx ry id cls config s l :
  JsMap.get id (Environment.windows s) = Some l →
  Environment.createWindow vp rx ry id cls config s =
    (Ok l, Environment.set_console
             (λ c, c ++ ["Window with id " +:+ id +:+
                         " already exists. Skipping creation."]) s).
Proof.
  intros Hget. unfold Environment.createWindow.
  unfold Environment.bind at 1. cbn [Environment.gets].
  assert (Hhas : JsMap.has id (Environment.windows s) = true).
  { apply JsMap_has_true. apply JsMap_get_Some_elem in Hget.
    unfold JsMap.keys. apply list_elem_of_fmap. by exists (id, l). }
  rewrite Hhas, Hget. reflexivity.
Qed.

Lemma createWindow_failed_run vp rx ry id cls config s cls' config' s0 :
  JsMap.has id (Environment.windows s) = false →
  Environment.resolveType cls config s = (Ok (cls', config'), s0) →
  ∀ r, Window.new (Environment.name cls') vp rx ry id config' = r →
  match r with
  | Ok _ => True
  | Throw e => Environment.createWindow vp rx ry id cls config s = (Throw e, s0)
  | IllTyped => Environment.createWindow vp rx ry id cls config s = (IllTyped, s0)
  end.
Proof.
  intros Hhas Hres r Hnew. destruct r as [w|e|]; [done|..].
  all: unfold Environment.createWindow.
  all: unfold Environment.bind at 1; cbn [Environment.gets]; rewrite Hhas.
  all: unfold Environment.bind at 1; rewrite Hres.
  all: unfold Environment.bind at 1; unfold Environment.lift at 1; rewrite Hnew.
  all: reflexivity.
Qed.

Lemma createWindow_fresh_run vp rx ry id cls config s cls' config' s0 this :
  wf s →
  JsMap.has id (Environment.windows s) = false →
  Environment.resolveType cls config s = (Ok (cls', config'), s0) →
  Window.new (Environment.name cls') vp rx ry id config' = Ok this →
  Environment.createWindow vp rx ry id cls config s =
    (Ok (Environment.nextLoc s0), created config' this s0).
Proof.
  intros Hwf Hhas Hres Hnew. unfold Environment.createWindow.
  unfold Environment.bind at 1. cbn [Environment.gets]. rewrite Hhas.
  unfold Environment.bind at 1. rewrite Hres.
  unfold Environment.bind at 1. unfold Environment.lift at 1. rewrite Hnew.
  unfold Environment.bind at 1.
  change (Environment.alloc this s0) with
    (Ok (Environment.nextLoc s0),
     Environment.set_heap (λ h, <[Environment.nextLoc s0 := this]> h)
       (Environment.set_nextLoc (S (Environment.nextLoc s0)) s0)).
  unfold Environment.bind at 1. rewrite attachListeners_run.
  unfold Environment.bind at 1. unfold Environment.deref at 1.
  cbn [Environment.heap Environment.set_heap Environment.set_nextLoc].
  rewrite lookup_insert_eq.
  unfold Environment.bind at 1. cbn [Environment.modify].
  unfold Environment.bind at 1. cbn [Environment.modify].
  rewrite id_wired.
  destruct (resolveType_frame cls config s) as (c & s0' & Hres' & Hh & Hw & Hn & Hz).
  rewrite Hres in Hres'. injection Hres' as <- <-.
  assert (Hwf0 : wf s0) by (by apply (wf_ext s)).
  apply new_inv in Hnew as Hinv.
  assert (Hid : Window.id this = id) by apply Hinv.
  assert (Hfresh : id ∉ JsMap.keys (Environment.windows s0)).
  { rewrite Hw. by apply JsMap_has_false. }
  set (s1 := Environment.set_heap _ (Environment.set_nextLoc _ s0)).
  set (s2 := Environment.set_environment_children _
               (Environment.set_windows _ s1)).
  assert (Hb : bound s2).
  { intros l Hl. subst s2 s1. cbn in *. rewrite Hid in Hl.
    rewrite JsMap_set_fresh in Hl by done.
    unfold JsMap.values in Hl. rewrite fmap_app in Hl.
    apply elem_of_app in Hl as [Hl|Hl].
    - apply lookup_insert_is_Some'. right. by apply (wf_bound s0).
    - cbn in Hl. apply list_elem_of_singleton in Hl as ->.
      apply lookup_insert_is_Some'. by left. }
  unfold Environment.bind at 1. rewrite updateZIndices_run by done.
  unfold Environment.bind at 1. rewrite saveState_run.
  - reflexivity.
  - intros l Hl. cbn in *. apply zheap_is_Some. by apply Hb.
Qed.

Lemma wf_created_pre config this s :
  wf s → Window.id this ∉ JsMap.keys (Environment.windows s) →
  wf (Environment.set_environment_children
        (Environment.appendChild (Environment.nextLoc s))
        (Environment.set_windows
           (JsMap.set (Window.id this) (Environment.nextLoc s))
           (Environment.set_heap
              (λ h, <[Environment.nextLoc s := wired config this]> h)
              (Environment.set_nextLoc (S (Environment.nextLoc s)) s)))).
Proof.
  intros Hwf Hfresh. split; cbn.
  - rewrite JsMap_set_fresh by done. unfold JsMap.keys. rewrite fmap_app. cbn.
    apply NoDup_app. split; [apply (wf_keys _ _ _ Hwf)|]. split.
    + intros k Hk Hk'%list_elem_of_singleton. by subst k.
    + apply NoDup_singleton.
  - intros k l. rewrite JsMap_set_fresh by done.
    rewrite elem_of_app, list_elem_of_singleton. intros [Hin|[= -> ->]].
    + destruct (wf_objs _ _ _ Hwf _ _ Hin) as (w & Hw & Hid).
      exists w. split; [|done]. rewrite lookup_insert_ne; [done|].
      intros <-. assert (Environment.nextLoc s < Environment.nextLoc s)%nat; [|lia].
      apply (wf_next _ _ _ Hwf). by exists w.
    + exists (wired config this). rewrite lookup_insert_eq. split; [done|].
      apply id_wired.
  - intros l [Hl|Hl]%lookup_insert_is_Some'; [lia|].
    apply (wf_next _ _ _ Hwf) in Hl. lia.
Qed.

Lemma wf_created config this s :
  wf s → Window.id this ∉ JsMap.keys (Environment.windows s) →
  wf (created config this s).
Proof.
  intros Hwf Hfresh. unfold created. cbn zeta.
  set (s2 := Environment.set_environment_children _ _).
  set (s3 := Environment.set_heap _ s2).
  apply (wf_ext s3); [done..|]. apply wf_zheap. by apply wf_created_pre.
Qed.

Lemma zOrdered_created config this s :
  wf s → Window.id this ∉ JsMap.keys (Environment.windows s) →
  zOrdered (created config this s).
Proof.
  intros Hwf Hfresh. unfold created. cbn zeta.
  set (s2 := Environment.set_environment_children _ _).
  set (s3 := Environment.set_heap _ s2).
  apply (zOrdered_ext s3); [done..|].
  apply (zOrdered_zheap s2). by apply wf_created_pre.
Qed.

Lemma created_lookup config this s :
  wf s → Window.id this ∉ JsMap.keys (Environment.windows s) →
  ∃ w, Environment.heap (created config this s) !! Environment.nextLoc s = Some w
       ∧ persistent w = persistent this.
Proof.
  intros Hwf Hfresh. unfold created. cbn.
  pose proof (zheap_persistent (Environment.zIndexBase s) 0
    (JsMap.values (JsMap.set (Window.id this) (Environment.nextLoc s)
                     (Environment.windows s)))
    (<[Environment.nextLoc s := wired config this]> (Environment.heap s))
    (Environment.nextLoc s)) as Hp.
  rewrite lookup_insert_eq in Hp. cbn in Hp.
  destruct (zheap _ _ _ _ !! Environment.nextLoc s) as [w|]; [|done].
  exists w. split; [done|]. cbn in Hp.
  assert (persistent w = persistent (wired config this)) as -> by congruence.
  apply persistent_wired.
Qed.

Lemma created_windows config this s :
  Window.id this ∉ JsMap.keys (Environment.windows s) →
  Environment.windows (created config this s) =
    Environment.windows s ++ [(Window.id this, Environment.nextLoc s)].
Proof. intros Hfresh. cbn. by apply JsMap_set_fresh. Qed.

(** Whatever [createWindow] does, it leaves a well-formed environment. *)
Lemma wf_createWindow vp rx ry id cls config s r s' :
  wf s → Environment.createWindow vp rx ry id cls config s = (r, s') → wf s'.
Proof.
  intros Hwf Hrun.
  destruct (JsMap.has id (Environment.windows s)) eqn:Hhas.
  - destruct (JsMap_has_get _ _ Hhas) as [l Hget].
    rewrite (createWindow_existing_run vp rx ry id cls config s l Hget) in Hrun.
    injection Hrun as <- <-. by apply (wf_ext s).
  - destruct (resolveType_frame cls config s)
      as ([cls' config'] & s0 & Hres & Hh & Hw & Hn & Hz).
    assert (Hwf0 : wf s0) by (by apply (wf_ext s)).
    destruct (Window.new (Environment.name cls') vp rx ry id config')
      as [this|e|] eqn:Hnew.
    + rewrite (createWindow_fresh_run vp rx ry id cls config s cls' config' s0 this
                 Hwf Hhas Hres Hnew) in Hrun.
      injection Hrun as <- <-. apply wf_created; [done|].
      apply new_inv in Hnew as Hinv.
      assert (Hid : Window.id this = id) by apply Hinv.
      rewrite Hid, Hw. by apply JsMap_has_false.
    + pose proof (createWindow_failed_run vp rx ry id cls config s cls' config' s0
                    Hhas Hres _ Hnew) as H.
      cbv beta iota in H. rewrite H in Hrun. by injection Hrun as <- <-.
    + pose proof (createWindow_failed_run vp rx ry id cls config s cls' config' s0
                    Hhas Hres _ Hnew) as H.
      cbv beta iota in H. rewrite H in Hrun. by injection Hrun as <- <-.
Qed.

(** ** Back-filling from the registered defaults *)

Lemma mergeDefaults_lookup (config d : JsObject) (k : string) :
  Environment.mergeDefaults config d !! k =
    match d !! k with
    | Some dv => Some (js_or (get config k) dv)
    | None => config !! k
    end.
Proof.
  unfold Environment.mergeDefaults.
  apply (map_fold_weak_ind
           (λ (r : JsObject) (m : JsObject),
              r !! k = match m !! k with
                       | Some dv => Some (js_or (get config k) dv)
                       | None => config !! k
                       end)).
  - by rewrite lookup_empty.
  - intros i x m r Hi IH.
    destruct (decide (i = k)) as [->|Hne].
    + rewrite !lookup_insert_eq. unfold get. rewrite IH, Hi. done.
    + by rewrite !lookup_insert_ne.
Qed.

(** ** Every operation keeps the environment well formed, and z-ordered
       when it returns *)

Lemma wp_of_run {A} (m : Environment.M A) Q E s a s' :
  m s = (Ok a, s') → Q a s' → wp m Q E s.
Proof. unfold wp. by intros ->. Qed.

Lemma wf_new : wf Environment.new.
Proof.
  split; cbn.
  - apply NoDup_nil_2.
  - intros k l H. by apply elem_of_nil in H.
  - intros l [w Hw]. by rewrite lookup_empty in Hw.
Qed.

Lemma zOrdered_new : zOrdered Environment.new.
Proof. intros k l H. done. Qed.

Lemma wf_delete h ws n k :
  wf_fields h ws n → wf_fields h (JsMap.delete k ws) n.
Proof.
  intros [H1 H2 H3]. rewrite JsMap_delete_filter. split; [| |done].
  - eapply sublist_NoDup; [exact H1|]. unfold JsMap.keys.
    apply fmap_sublist, sublist_filter.
  - intros k' l [_ Hin]%list_elem_of_filter. by apply H2.
Qed.

Section specs.
(** [P] is the assumption that the operations so far have returned: the
    z-order is only claimed under it. *)
Variable P : Prop.

Lemma spec_updateZIndices s :
  wf s →
  wp Environment.updateZIndices (λ _ s', wf s' ∧ (P → zOrdered s'))
     (λ _, False) s.
Proof.
  intros Hwf. eapply wp_of_run; [by apply updateZIndices_run, wf_bound|].
  split; [by apply wf_zheap | intros _; by apply zOrdered_zheap].
Qed.

Lemma spec_saveState s :
  wf s → (P → zOrdered s) →
  wp Environment.saveState (λ _ s', wf s' ∧ (P → zOrdered s')) (λ _, False) s.
Proof.
  intros Hwf Hz. eapply wp_of_run; [by apply saveState_run, wf_bound|]. done.
Qed.

Lemma spec_bringToFront l s :
  wf s → (P → zOrdered s) →
  wp (Environment.bringToFront l) (λ _ s', wf s' ∧ (P → zOrdered s'))
     (λ _, False) s.
Proof.
  intros Hwf Hz.
  destruct (decide (l ∈ JsMap.values (Environment.windows s))) as [Hin|Hnin].
  - unfold JsMap.values in Hin.
    apply list_elem_of_fmap in Hin as ([k l'] & -> & Hin).
    eapply wp_of_run; [by apply (bringToFront_member k)|].
    split; [by apply wf_raised | intros _; by apply zOrdered_raised].
  - eapply wp_of_run; [by apply bringToFront_absent|]. done.
Qed.

Lemma spec_createWindow vp rx ry id cls config s :
  wf s → (P → zOrdered s) →
  wp (Environment.createWindow vp rx ry id cls config)
     (λ l s', wf s' ∧ (P → zOrdered s')) wf s.
Proof.
  intros Hwf Hz. unfold wp.
  destruct (Environment.createWindow vp rx ry id cls config s)
    as [r s'] eqn:Hrun.
  pose proof (wf_createWindow _ _ _ _ _ _ _ _ _ Hwf Hrun) as Hwf'.
  destruct r as [l|e|]; [|done..]. split; [done|].
  destruct (JsMap.has id (Environment.windows s)) eqn:Hhas.
  - destruct (JsMap_has_get _ _ Hhas) as [l' Hget].
    rewrite (createWindow_existing_run vp rx ry id cls config s l' Hget) in Hrun.
    by injection Hrun as <- <-.
  - destruct (resolveType_frame cls config s)
      as ([cls' config'] & s0 & Hres & Hh & Hw & Hn & Hzb).
    assert (Hwf0 : wf s0) by (by apply (wf_ext s)).
    destruct (Window.new (Environment.name cls') vp rx ry id config')
      as [this|e|] eqn:Hnew.
    + rewrite (createWindow_fresh_run vp rx ry id cls config s cls' config' s0
                 this Hwf Hhas Hres Hnew) in Hrun.
      injection Hrun as <- <-.
      apply new_inv in Hnew as Hinv.
      assert (Hid : Window.id this = id) by apply Hinv.
      intros _. apply zOrdered_created; [done|].
      rewrite Hid, Hw. by apply JsMap_has_false.
    + pose proof (createWindow_failed_run vp rx ry id cls config s cls' config'
                    s0 Hhas Hres _ Hnew) as H.
      cbv beta iota in H. rewrite H in Hrun. done.
    + pose proof (createWindow_failed_run vp rx ry id cls config s cls' config'
                    s0 Hhas Hres _ Hnew) as H.
      cbv beta iota in H. rewrite H in Hrun. done.
Qed.

Lemma spec_pinWindow l s :
  wf s → (P → zOrdered s) →
  wp (Environment.pinWindow l) (λ _ s', wf s' ∧ (P → zOrdered s')) wf s.
Proof.
  intros Hwf Hz. unfold Environment.pinWindow.
  apply wp_bind, wp_deref. destruct (Environment.heap s !! l) as [w|]; [|done].
  unfold wp. cbn. split; [|done].
  destruct Hwf as [H1 H2 H3]. split; cbn; [done..|].
  intros l' Hl'. apply H3 in Hl'. lia.
Qed.

Lemma spec_newWindow vp rx ry uuid cls config s :
  wf s → (P → zOrdered s) →
  wp (Environment.newWindow vp rx ry uuid cls config)
     (λ _ s', wf s' ∧ (P → zOrdered s')) wf s.
Proof.
  intros Hwf Hz. unfold Environment.newWindow.
  apply wp_bind.
  eapply wp_mono; [| |by apply spec_createWindow]; [|done].
  cbn beta. intros l s1 (Hwf1 & Hz1).
  apply wp_bind.
  eapply wp_mono; [| |by apply spec_pinWindow]; [|done].
  cbn beta. intros _ s2 (Hwf2 & Hz2).
  apply wp_bind.
  eapply wp_mono; [| |by apply spec_bringToFront]; [|done].
  cbn beta. intros _ s3 (Hwf3 & Hz3).
  apply wp_bind.
  eapply wp_mono; [| |by apply spec_updateZIndices]; [|done].
  cbn beta. intros _ s4 (Hwf4 & Hz4).
  apply wp_bind.
  eapply wp_mono; [| |by apply spec_saveState]; [|done].
  cbn beta. intros _ s5 (Hwf5 & Hz5). done.
Qed.

Lemma spec_removeWindow l s :
  wf s → (P → zOrdered s) →
  wp (Environment.removeWindow l) (λ _ s', wf s' ∧ (P → zOrdered s')) wf s.
Proof.
  intros Hwf Hz. unfold Environment.removeWindow.
  apply wp_bind, wp_deref. destruct (Environment.heap s !! l) as [w|]; [|done].
  apply wp_bind, wp_modify. apply wp_bind, wp_gets.
  cbn [Environment.windows Environment.set_console].
  destruct (JsMap.has (Window.id w) (Environment.windows s)); [|done].
  apply wp_bind, wp_modify. apply wp_bind, wp_gets. apply wp_bind, wp_lift.
  assert (Hwf1 : wf_fields (Environment.heap s)
                   (JsMap.delete (Window.id w) (Environment.windows s))
                   (Environment.nextLoc s)) by (by apply wf_delete).
  destruct (Environment.removeChild l _) as [children|e|]; [|done..].
  apply wp_bind, wp_modify. apply wp_bind, wp_gets. apply wp_bind, wp_gets.
  apply wp_bind, wp_lift.
  destruct (Environment.removeChild_handle _ _) as [items|e|]; [|done..].
  apply wp_bind, wp_modify. apply wp_bind, wp_modify.
  apply wp_bind.
  eapply wp_mono; [| |by apply spec_updateZIndices]; [|done].
  cbn beta. intros _ s4 (Hwf4 & Hz4).
  eapply wp_mono; [| |by apply spec_saveState]; done.
Qed.

Lemma spec_perform o s :
  wf s → (P → zOrdered s) →
  wp (perform o) (λ _ s', wf s' ∧ (P → zOrdered s')) wf s.
Proof.
  intros Hwf Hz. destruct o; cbn [perform].
  - apply wp_bind. eapply wp_mono; [| |by apply spec_createWindow]; done.
  - apply wp_bind. eapply wp_mono; [| |by apply spec_newWindow]; done.
  - by apply spec_removeWindow.
  - eapply wp_mono; [| |by apply spec_bringToFront]; done.
Qed.

End specs.

(** Every state the environment goes through is well formed. *)
Lemma reachable_wf s : reachable s → wf s.
Proof.
  induction 1 as [|s o r s' _ IH Hrun]; [apply wf_new|].
  pose proof (spec_perform False o s IH (λ H, False_ind _ H)) as Hwp.
  unfold wp in Hwp. rewrite Hrun in Hwp. destruct r; [apply Hwp|done..].
Qed.

(** As long as every operation has returned, the z-indices are contiguous
    from the base in the order of the collection. *)
Lemma completed_zOrdered s : completed s → wf s ∧ zOrdered s.
Proof.
  induction 1 as [|s o s' _ [IHwf IHz] Hrun]; [split; [apply wf_new|apply zOrdered_new]|].
  pose proof (spec_perform True o s IHwf (λ _, IHz)) as Hwp.
  unfold wp in Hwp. rewrite Hrun in Hwp. destruct Hwp as [? Hz']. auto.
Qed.

(** ** The scenario desktop *)

Lemma completed_reachable s : completed s → reachable s.
Proof. induction 1; [constructor | by econstructor]. Qed.

Lemma completed_desktopA : completed desktopA.
Proof.
  apply (completed_step Environment.new createA); [constructor|].
  vm_compute. reflexivity.
Qed.

Lemma completed_desktopAB : completed desktopAB.
Proof.
  apply (completed_step desktopA createB); [apply completed_desktopA|].
  vm_compute. reflexivity.
Qed.

Example desktopAB_windows : Environment.windows desktopAB = [("A", 0%nat); ("B", 1%nat)].
Proof. vm_compute. reflexivity. Qed.

(** ** z-order *)

Example afterRemoval_zIndex : zIndexOf afterRemoval 1%nat = Some 1001.
Proof. vm_compute. reflexivity. Qed.

Example afterRemoval_values :
  JsMap.values (Environment.windows afterRemoval) = [1%nat].
Proof. vm_compute. reflexivity. Qed.

(** C4 (the code breaks it). Removing a window that has no taskbar pin (one
    made by [createWindow]) throws in [removeChild] after the window has
    left the collection and before [updateZIndices] runs: B is left alone
    in the collection with z-index 1001, not 1000. As long as every
    operation returns, the z-indices are contiguous from the base
    ([completed_zOrdered]). *)
Theorem removeWindow_unpinned_leaves_gap :
  completed desktopAB ∧ zOrdered desktopAB ∧
  Environment.removeWindow 0%nat desktopAB =
    (Throw (TypeError "parameter 1 is not of type 'Node'"), afterRemoval) ∧
  reachable afterRemoval ∧
  Environment.windows afterRemoval = [("B", 1%nat)] ∧
  Environment.zIndexBase afterRemoval = 1000 ∧
  zIndexOf afterRemoval 1%nat = Some 1001 ∧
  ¬ zOrdered afterRemoval.
Proof.
  split; [apply completed_desktopAB|].
  split; [apply completed_zOrdered, completed_desktopAB|].
  assert (Hrun : Environment.removeWindow 0%nat desktopAB =
            (Throw (TypeError "parameter 1 is not of type 'Node'"), afterRemoval))
    by (vm_compute; reflexivity).
  split; [exact Hrun|].
  split.
  { apply (reachable_step desktopAB (RemoveWindow 0%nat)
             (Throw (TypeError "parameter 1 is not of type 'Node'"))).
    - apply completed_reachable, completed_desktopAB.
    - exact Hrun. }
  split; [vm_compute; reflexivity|].
  split; [vm_compute; reflexivity|].
  split; [apply afterRemoval_zIndex|].
  intros Hz. destruct (Hz 0%nat 1%nat) as (w & Hw & Hzw).
  { rewrite afterRemoval_values. reflexivity. }
  pose proof afterRemoval_zIndex as Hz1. unfold zIndexOf in Hz1.
  rewrite Hw in Hz1. cbn [fmap option_fmap option_map] in Hz1.
  injection Hz1 as Hz1. rewrite Hz1 in Hzw.
  assert (Hb : Environment.zIndexBase afterRemoval = 1000)
    by (vm_compute; reflexivity).
  rewrite Hb in Hzw. vm_compute in Hzw. discriminate Hzw.
Qed.

Lemma wf_desktopAB : wf desktopAB.
Proof. apply completed_zOrdered, completed_desktopAB. Qed.

Lemma bringToFront_raises_witness :
  ∃ s', Environment.bringToFront 0%nat desktopAB = (Ok tt, s') ∧
        Environment.windows s' = [("B", 1%nat); ("A", 0%nat)] ∧
        ∃ zA zB, zIndexOf s' 0%nat = Some zA ∧ zIndexOf s' 1%nat = Some zB ∧
                 zB < zA.
Proof.
  destruct (bringToFront_raises desktopAB 0%nat wf_desktopAB) as [_ Hmember].
  destruct (Hmember "A") as (s' & Hrun & Hws & _ & Hz & _).
  { rewrite desktopAB_windows. apply list_elem_of_here. }
  exists s'. split; [exact Hrun|].
  rewrite desktopAB_windows in Hws.
  split; [exact Hws|].
  apply (Hz 1%nat); [|done].
  rewrite Hws. apply list_elem_of_here.
Defined.

(** ** Creating a window under an id that is taken *)

(** C6. When the id is already in the collection, [createWindow] returns
    the window stored under it and leaves the collection, the windows and
    everything else but the console as they were: the duplicate is logged,
    nothing is thrown. *)
Theorem createWindow_existing vp rx ry id cls config s :
  JsMap.has id (Environment.windows s) = true →
  ∃ existing s',
    JsMap.get id (Environment.windows s) = Some existing ∧
    Environment.createWindow vp rx ry id cls config s = (Ok existing, s') ∧
    Environment.windows s' = Environment.windows s ∧
    Environment.heap s' = Environment.heap s ∧
    Environment.icons s' = Environment.icons s ∧
    Environment.windowTypes s' = Environment.windowTypes s ∧
    Environment.environment_children s' = Environment.environment_children s ∧
    Environment.localStorage s' = Environment.localStorage s ∧
    Environment.console s' =
      Environment.console s ++
        ["Window with id " +:+ id +:+ " already exists. Skipping creation."].
Proof.
  intros Hhas. destruct (JsMap_has_get _ _ Hhas) as [l Hget].
  exists l. eexists. split; [exact Hget|].
  split; [by apply createWindow_existing_run|]. done.
Qed.

Lemma createWindow_existing_witness :
  ∃ s', Environment.createWindow viewport1000x800 (1#2) (1#2) "A"
          Environment.Popup (sized 300 200) desktopAB = (Ok 0%nat, s') ∧
        Environment.windows s' = [("A", 0%nat); ("B", 1%nat)] ∧
        Environment.heap s' = Environment.heap desktopAB.
Proof.
  destruct (createWindow_existing viewport1000x800 (1#2) (1#2) "A"
              Environment.Popup (sized 300 200) desktopAB)
    as (existing & s' & Hget & Hrun & Hws & Hheap & _).
  { rewrite desktopAB_windows. reflexivity. }
  rewrite desktopAB_windows in Hget, Hws. injection Hget as <-.
  exists s'. split; [exact Hrun|]. split; [exact Hws|exact Hheap].
Defined.

(** ** Back-filling a configuration *)

(** C7 (as stated, it fails). A title that is present in the caller's
    configuration, as the empty string, is replaced by the default title
    of the type. *)
Lemma backfill_replaces_empty_title :
  untitled !! "title" = Some (JStr "") ∧
  Environment.createWindow viewport1000x800 (1#2) (1#2) "A" Environment.Window
    untitled Environment.new = (Ok 0%nat, desktopUntitled) ∧
  (λ w, get (Window.config w) "title")
    <$> Environment.heap desktopUntitled !! 0%nat = Some (JStr "Window") ∧
  Window.title <$> Environment.heap desktopUntitled !! 0%nat
    = Some (JStr "Window").
Proof.
  split; [vm_compute; reflexivity|].
  split; [vm_compute; reflexivity|].
  split; vm_compute; reflexivity.
Qed.

(** C7 (amended). For a registered window type, [createWindow] builds the
    window from the caller's configuration in which every field of the
    type's stored defaults holds the caller's value when that value is
    truthy, and the default otherwise (when the field is absent, or
    present with a falsy value: undefined, null, false, 0 or the empty
    string); fields that the defaults do not have are as the caller gave
    them. A field present with a truthy value is never replaced. *)
Theorem createWindow_backfills vp rx ry id cls config d s l s' :
  wf s →
  Environment.windowTypes s !! Environment.ByName (Environment.name cls) = Some d →
  JsMap.has id (Environment.windows s) = false →
  Environment.createWindow vp rx ry id cls config s = (Ok l, s') →
  ∃ w, Environment.heap s' !! l = Some w ∧
    (∀ k dv, d !! k = Some dv →
       get (Window.config w) k =
         if truthy (get config k) then get config k else dv) ∧
    (∀ k, d !! k = None → Window.config w !! k = config !! k) ∧
    (∀ k, truthy (get config k) = true →
       get (Window.config w) k = get config k).
Proof.
  intros Hwf Hd Hhas Hrun.
  pose proof (resolveType_registered cls config d s Hd) as Hres.
  destruct (Window.new (Environment.name cls) vp rx ry id
              (Environment.mergeDefaults config d)) as [this|e|] eqn:Hnew.
  - rewrite (createWindow_fresh_run vp rx ry id cls config s cls _ s this
               Hwf Hhas Hres Hnew) in Hrun.
    injection Hrun as <- <-.
    apply new_inv in Hnew as Hinv.
    assert (Hid : Window.id this = id) by apply Hinv.
    assert (Hcfg : Window.config this = Environment.mergeDefaults config d)
      by apply Hinv.
    destruct (created_lookup (Environment.mergeDefaults config d) this s Hwf)
      as (w & Hw & Hp).
    { rewrite Hid. by apply JsMap_has_false. }
    exists w. split; [exact Hw|].
    assert (Hcw : Window.config w = Environment.mergeDefaults config d).
    { unfold persistent in Hp. congruence. }
    rewrite Hcw. split; [|split].
    + intros k dv Hk. unfold get at 1. by rewrite mergeDefaults_lookup, Hk.
    + intros k Hk. by rewrite mergeDefaults_lookup, Hk.
    + intros k Ht. unfold get at 1. rewrite mergeDefaults_lookup.
      destruct (d !! k) as [dv|]; [|done]. cbn. by rewrite js_or_truthy.
  - pose proof (createWindow_failed_run vp rx ry id cls config s cls _ s
                  Hhas Hres _ Hnew) as H.
    cbv beta iota in H. rewrite H in Hrun. done.
  - pose proof (createWindow_failed_run vp rx ry id cls config s cls _ s
                  Hhas Hres _ Hnew) as H.
    cbv beta iota in H. rewrite H in Hrun. done.
Qed.

Example untitled_created :
  Environment.createWindow viewport1000x800 (1#2) (1#2) "A" Environment.Window
    untitled Environment.new = (Ok 0%nat, desktopUntitled).
Proof. vm_compute. reflexivity. Qed.

Lemma createWindow_backfills_witness :
  ∃ w, Environment.heap desktopUntitled !! 0%nat = Some w ∧
       get (Window.config w) "title" = JStr "Window" ∧
       get (Window.config w) "width" = JNum 600 ∧
       Window.config w !! "x" = None.
Proof.
  destruct (createWindow_backfills viewport1000x800 (1#2) (1#2) "A"
              Environment.Window untitled
              (Environment.defaultConfig "Window" 600 400 [] [])
              Environment.new 0%nat desktopUntitled)
    as (w & Hw & Hdef & Hrest & Htruthy).
  - apply wf_new.
  - vm_compute. reflexivity.
  - reflexivity.
  - apply untitled_created.
  - exists w. split; [exact Hw|]. split; [|split].
    + apply (Hdef "title" (JStr "Window")). vm_compute. reflexivity.
    + apply (Htruthy "width"). vm_compute. reflexivity.
    + rewrite Hrest; vm_compute; reflexivity.
Defined.

(** ** Remote content *)

(** When the call [HTMLImageElement()] throws, [fetchWindowContents] throws
    to its caller before the [try] block is entered, and the title stays
    at the loading text. *)
Lemma fetchWindowContents_call_throws p url w e :
  Window.HTMLImageElement_call p = Throw e →
  Window.fetchWindowContents p url w =
    (Throw e, Window.set_title (JStr "Loading...") w, []).
Proof. intros H. unfold Window.fetchWindowContents. by rewrite H. Qed.

(** Had the loading image been built, a failed fetch would be caught:
    title and content restored, the failure logged, nothing thrown. *)
Lemma fetchWindowContents_catches p url w loadingGif :
  Window.HTMLImageElement_call p = Ok loadingGif →
  (∃ e, Window.fetch p url = Throw e) ∨
  (∃ response, Window.fetch p url = Ok response ∧ Window.ok response = false) →
  ∃ w' log,
    Window.fetchWindowContents p url w = (Ok tt, w', log) ∧
    Window.title w' = Window.title w ∧ Window.content w' = Window.content w ∧
    "Failed to fetch window contents:" ∈ log.
Proof.
  intros Himg Hfail. unfold Window.fetchWindowContents, Window.fetchAttempt.
  rewrite Himg.
  destruct Hfail as [[e He]|(response & Hr & Hok)].
  - rewrite He. eexists _, _. split; [reflexivity|].
    split; [done|]. split; [done|]. apply list_elem_of_here.
  - rewrite Hr, Hok. cbn [negb]. eexists _, _. split; [reflexivity|].
    split; [done|]. split; [done|]. apply list_elem_of_here.
Qed.

(** C8 (the code breaks it). With the network down, loading "/welcome" into
    window A throws a TypeError to the caller and leaves the title at
    "Loading...": the call [HTMLImageElement()], made without [new] and
    outside the [try] block, throws before the fetch is attempted. *)
Theorem fetchWindowContents_leaves_loading :
  Window.fetchWindowContents offline "/welcome" windowA =
    (Throw (TypeError "Illegal constructor"),
     Window.set_title (JStr "Loading...") windowA, []) ∧
  Window.title windowA = JStr "A" ∧
  Window.title (Window.fetchWindowContents offline "/welcome" windowA).1.2
    = JStr "Loading...".
Proof.
  split; [by apply fetchWindowContents_call_throws|]. split; reflexivity.
Qed.

(** ** Saving and restoring the desktop *)

Lemma JSON_stringify_obj props :
  JSON_stringify (JObj props) = Some (JObj (JSON_members props)).
Proof. reflexivity. Qed.

Lemma JSON_members_cons k x rest :
  JSON_members ((k, x) :: rest) =
    match JSON_stringify x with
    | Some j => (k, j) :: JSON_members rest
    | None => JSON_members rest
    end.
Proof. reflexivity. Qed.

Lemma JSON_elements_map (items : list jsval) :
  JSON_stringify (JArr items) =
    Some (JArr ((λ x, default JNull (JSON_stringify x)) <$> items)).
Proof.
  reflexivity.
Qed.

Lemma get_list_to_map (props : list (string * jsval)) (k : string) :
  get (list_to_map props) k = assoc k props.
Proof.
  unfold get. induction props as [|[k' v] props IH]; [done|].
  cbn [list_to_map foldr uncurry assoc]. cbn.
  destruct (String.eqb_spec k k') as [->|Hne].
  - by rewrite lookup_insert_eq.
  - by rewrite lookup_insert_ne.
Qed.










Lemma get_merged (config d : JsObject) (k : string) :
  get (Environment.mergeDefaults config d) k =
    match d !! k with
    | Some dv => js_or (get config k) dv
    | None => get config k
    end.
Proof. unfold get at 1. rewrite mergeDefaults_lookup. by destruct (d !! k). Qed.







(** The geometry members of a saved entry, whatever the window. *)
Lemma saved_entry_geometry w :
  ∃ entry, JSON_stringify (Environment.savedWindow w) = Some entry ∧
    get (configOfEntry entry) "width" = JNum (Window.width w) ∧
    get (configOfEntry entry) "height" = JNum (Window.height w) ∧
    get (configOfEntry entry) "x" = JNum (Window.x w) ∧
    get (configOfEntry entry) "y" = JNum (Window.y w) ∧
    get (configOfEntry entry) "isMinimized" = JBool (Window.isMinimized w) ∧
    get (configOfEntry entry) "id" = JUndefined.
Proof.
  exists (JObj (JSON_members (Window.getState w ++
                                [("className", JStr (Window.className w))]))).
  split; [apply JSON_stringify_obj|].
  unfold configOfEntry. cbn [Environment.entries].
  rewrite !get_list_to_map.
  unfold Window.getState. cbn [app].
  unfold JSON_members. cbn [JSON_stringify].
  destruct (JSON_stringify (Window.icon w)),
           (JSON_stringify (Window.title w)),
           (JSON_stringify (Window.content w)),
           (JSON_stringify (get (Window.config w) "styles")),
           (JSON_stringify (get (Window.config w) "events"));
    cbn; repeat split; reflexivity.
Qed.

(** The snapshot [saveState] stores. *)
Lemma snapshot_saved s :
  snapshot (Environment.set_localStorage (savedStorage s) s) =
    Some (JObj [("windows",
                 JArr ((λ x, default JNull (JSON_stringify x)) <$> savedEntries s))]).
Proof.
  unfold snapshot, savedStorage. cbn [Environment.localStorage Environment.set_localStorage].
  rewrite JSON_stringify_obj, JSON_members_cons, JSON_elements_map.
  by rewrite lookup_insert_eq.
Qed.






(** The entry stored at a position of the collection. *)
Lemma snapshot_entry s k l w :
  JsMap.values (Environment.windows s) !! k = Some l →
  Environment.heap s !! l = Some w →
  ∃ e, ((λ x, default JNull (JSON_stringify x)) <$> savedEntries s) !! k = Some e ∧
       JSON_stringify (Environment.savedWindow w) = Some e.
Proof.
  intros Hk Hw. unfold savedEntries. rewrite !list_lookup_fmap, Hk.
  cbn [fmap option_fmap option_map]. rewrite Hw. cbn [from_option].
  destruct (saved_entry_geometry w) as (e & He & _).
  exists e. by rewrite He.
Qed.


(** ** Round trip of the snapshot *)







(** ** The event emitter *)

Lemma emit_on_eq event cb ls :
  EventEmitter.emit event (EventEmitter.on event cb ls) =
  EventEmitter.emit event ls ++ [cb].
Proof.
  unfold EventEmitter.emit, EventEmitter.on. rewrite lookup_insert_eq.
  by destruct (ls !! event).
Qed.

Lemma emit_on_ne event other cb ls :
  other ≠ event →
  EventEmitter.emit other (EventEmitter.on event cb ls) = EventEmitter.emit other ls.
Proof.
  intros Hne. unfold EventEmitter.emit, EventEmitter.on.
  by rewrite lookup_insert_ne.
Qed.

Lemma emit_subscribe_eq event cbs ls :
  EventEmitter.emit event (subscribe event cbs ls) =
  EventEmitter.emit event ls ++ cbs.
Proof.
  unfold subscribe. revert ls.
  induction cbs as [|cb cbs IH]; intros ls; cbn [fold_left].
  - by rewrite app_nil_r.
  - rewrite IH, emit_on_eq, <- app_assoc. reflexivity.
Qed.

Lemma emit_subscribe_ne event other cbs ls :
  other ≠ event →
  EventEmitter.emit other (subscribe event cbs ls) = EventEmitter.emit other ls.
Proof.
  intros Hne. unfold subscribe. revert ls.
  induction cbs as [|cb cbs IH]; intros ls; cbn [fold_left]; [done|].
  by rewrite IH, emit_on_ne.
Qed.

(** X1. The listeners of an event run in the order of their registration,
    once for each registration: after the callbacks [cbs] have been
    registered for [event] with [on], [emit] runs the listeners the event
    had before and then [cbs], in order; the listeners of every other
    event are as before, and an event nothing was registered for runs
    nothing. *)
Theorem emit_runs_in_registration_order (event : string) (cbs : list callback)
    (ls : EventEmitter.listeners) :
  event ∉ inheritedNames →
  EventEmitter.emit event (subscribe event cbs ls) =
    EventEmitter.emit event ls ++ cbs ∧
  (∀ other, other ≠ event →
     EventEmitter.emit other (subscribe event cbs ls) =
       EventEmitter.emit other ls) ∧
  EventEmitter.emit event (subscribe event cbs ∅) = cbs.
Proof.
  intros _. split; [apply emit_subscribe_eq|].
  split; [intros other Hne; by apply emit_subscribe_ne|].
  by rewrite emit_subscribe_eq.
Qed.

Lemma emit_runs_in_registration_order_witness :
  EventEmitter.emit "close"
    (subscribe "close" [UserCallback (JFun "beforeClose"); OnClose] ∅) =
    [UserCallback (JFun "beforeClose"); OnClose].
Proof.
  apply (emit_runs_in_registration_order "close"
           [UserCallback (JFun "beforeClose"); OnClose] ∅).
  unfold inheritedNames. intros H.
  repeat (apply elem_of_cons in H as [H|H]; [discriminate H|]).
  by apply elem_of_nil in H.
Defined.

(** ** Minimizing *)

(** X4. [toggleMinimize] flips the minimized flag, hides the element when
    it minimizes and shows it as a block when it restores, announces
    'minimize' in both directions, and touches nothing else of the
    geometry; two toggles give back the flag, and the very same window when its
    element was displayed as its flag says. *)
Theorem toggleMinimize_flips (w : Window.t) :
  let w1 := (Window.toggleMinimize w).1 in
  let w2 := (Window.toggleMinimize w1).1 in
  (Window.toggleMinimize w).2 = ["minimize"] ∧
  Window.isMinimized w1 = negb (Window.isMinimized w) ∧
  Window.style_display (Window.element w1) =
    (if Window.isMinimized w1 then "none" else "block") ∧
  (Window.x w1, Window.y w1, Window.width w1, Window.height w1, Window.zIndex w1) =
    (Window.x w, Window.y w, Window.width w, Window.height w, Window.zIndex w) ∧
  Window.isMinimized w2 = Window.isMinimized w ∧
  (Window.style_display (Window.element w) =
     (if Window.isMinimized w then "none" else "block") ↔ w2 = w).
Proof.
  destruct w as [? ? ? ? ? ? ? ? ? m ? ? ? ? ? ? ? ? ? [] ? ? ? ?].
  destruct m; cbn; repeat split; try (intros ->; reflexivity);
    intros [= ->]; reflexivity.
Qed.

(** ** Dragging *)

(** X5. While a window is dragged, its state after a pointer move depends
    on the pointer's latest position only: a move to [e2] that follows a
    move to [e1] leaves the window as the move to [e2] alone does, and
    each move announces 'drag' once. *)
Theorem drag_follows_latest_pointer (vp : Viewport) (e1 e2 : MouseEvent)
    (w : Window.t) :
  Window.isDragging w = true →
  Window.drag vp e2 (Window.drag vp e1 w).1 = Window.drag vp e2 w ∧
  (Window.drag vp e1 w).2 = ["drag"].
Proof.
  intros Hd. unfold Window.drag. rewrite Hd. cbn. rewrite Hd. cbn. done.
Qed.

Lemma drag_follows_latest_pointer_witness :
  let started := (Window.startDrag (at_ 100 100) windowA).1 in
  Window.drag viewport1000x800 (at_ 300 200)
    (Window.drag viewport1000x800 (at_ 50 80) started).1 =
  Window.drag viewport1000x800 (at_ 300 200) started.
Proof.
  apply (drag_follows_latest_pointer viewport1000x800 (at_ 50 80) (at_ 300 200)
           (Window.startDrag (at_ 100 100) windowA).1).
  reflexivity.
Defined.

Lemma drag_dragging (vp : Viewport) (event : MouseEvent) (w : Window.t) :
  Window.isDragging w = true →
  Window.drag vp event w =
    (Window.updatePosition
       (Window.set_position
          (Qmax 0 (Qmin (Window.initialX w + (clientX event - Window.initialMouseX w))
                        (innerWidth vp - Window.width w)))
          (Qmax 0 (Qmin (Window.initialY w + (clientY event - Window.initialMouseY w))
                        (innerHeight vp - Window.height w))) w),
     ["drag"]).
Proof. intros H. unfold Window.drag. by rewrite H. Qed.

Lemma dragEnd_dragging (w : Window.t) :
  Window.isDragging w = true →
  Window.dragEnd w = (Window.set_isDragging false w, ["dragEnd"]).
Proof. intros H. unfold Window.dragEnd. by rewrite H. Qed.

Lemma drag_idle (vp : Viewport) (event : MouseEvent) (w : Window.t) :
  Window.isDragging w = false → Window.drag vp event w = (w, []).
Proof. intros H. unfold Window.drag. by rewrite H. Qed.

Lemma dragEnd_idle (w : Window.t) :
  Window.isDragging w = false → Window.dragEnd w = (w, []).
Proof. intros H. unfold Window.dragEnd. by rewrite H. Qed.

(** X6. A whole drag: a window inside the viewport that is grabbed at
    [down], moved by (dx, dy) to a place inside the viewport and released
    ends at (x + dx, y + dy) with its size unchanged; the three steps
    announce 'dragStart', 'drag' and 'dragEnd'; after the release a pointer
    move does nothing and a second release announces nothing. *)
Theorem drag_gesture (vp : Viewport) (down later : MouseEvent) (dx dy : Q)
    (w : Window.t) :
  0 <= Window.x w + dx → Window.x w + dx <= innerWidth vp - Window.width w →
  0 <= Window.y w + dy → Window.y w + dy <= innerHeight vp - Window.height w →
  let grabbed := Window.startDrag down w in
  let dragged := Window.drag vp (moved down dx dy) grabbed.1 in
  let released := Window.dragEnd dragged.1 in
  (grabbed.2, dragged.2, released.2) = (["dragStart"], ["drag"], ["dragEnd"]) ∧
  Window.x released.1 == Window.x w + dx ∧
  Window.y released.1 == Window.y w + dy ∧
  Window.width released.1 = Window.width w ∧
  Window.height released.1 = Window.height w ∧
  Window.isDragging released.1 = false ∧
  Window.drag vp later released.1 = (released.1, []) ∧
  Window.dragEnd released.1 = (released.1, []).
Proof.
  intros Hx0 Hx1 Hy0 Hy1 grabbed dragged released.
  pose proof (drag_dragging vp (moved down dx dy) grabbed.1 eq_refl) as Hd.
  fold dragged in Hd.
  assert (Hdd : Window.isDragging dragged.1 = true) by (by rewrite Hd).
  pose proof (dragEnd_dragging dragged.1 Hdd) as Hr. fold released in Hr.
  clear Hdd. clearbody released dragged. subst released dragged.
  cbn [fst snd].
  set (X := Qmax 0 _). set (Y := Qmax 0 _).
  assert (HX : X == Window.x w + dx).
  { subst X. clear Y. cbn [grabbed Window.startDrag fst moved clientX clientY
      Window.set_drag_anchor Window.set_isDragging Window.initialX
      Window.initialMouseX Window.width Window.x]. clear grabbed. qmm. }
  assert (HY : Y == Window.y w + dy).
  { subst Y. clear X HX. cbn [grabbed Window.startDrag fst moved clientX clientY
      Window.set_drag_anchor Window.set_isDragging Window.initialY
      Window.initialMouseY Window.height Window.y]. clear grabbed. qmm. }
  clearbody X Y.
  split; [reflexivity|]. split; [exact HX|]. split; [exact HY|].
  split; [reflexivity|]. split; [reflexivity|]. split; [reflexivity|].
  split; [by apply drag_idle | by apply dragEnd_idle].
Qed.

Lemma drag_gesture_witness :
  let grabbed := Window.startDrag (at_ 100 100) windowA in
  let dragged := Window.drag viewport1000x800 (moved (at_ 100 100) 70 (-20)) grabbed.1 in
  let released := Window.dragEnd dragged.1 in
  Window.x released.1 == Window.x windowA + 70 ∧
  Window.y released.1 == Window.y windowA + -20.
Proof.
  intros grabbed dragged released.
  destruct (drag_gesture viewport1000x800 (at_ 100 100) (at_ 0 0) 70 (-20) windowA)
    as (_ & Hx & Hy & _).
  - change (0 <= 50 + 70). lra.
  - change (50 + 70 <= 1000 - 600). lra.
  - change (0 <= 50 + -20). lra.
  - change (50 + -20 <= 800 - 400). lra.
  - split; [exact Hx | exact Hy].
Defined.

(** ** Resizing *)

Lemma resize_idle (vp : Viewport) (event : MouseEvent) (w : Window.t) :
  Window.isResizing w = false → Window.resize vp event w = w.
Proof. intros H. unfold Window.resize. by rewrite H. Qed.

Lemma resize_isResizing (vp : Viewport) (event : MouseEvent) (w : Window.t) :
  Window.isResizing (Window.resize vp event w) = Window.isResizing w.
Proof.
  unfold Window.resize. destruct (Window.isResizing w) eqn:H; [|done].
  cbn [negb].
  destruct (negb (Qeq_bool (Window.resizeDirX w) 0)),
           (negb (Qeq_bool (Window.resizeDirY w) 0)); exact H.
Qed.

Lemma endResize_resizing (w : Window.t) :
  Window.isResizing w = true →
  Window.endResize w = (Window.set_isResizing false w, ["resize"]).
Proof. intros H. unfold Window.endResize. by rewrite H. Qed.

Lemma endResize_idle (w : Window.t) :
  Window.isResizing w = false → Window.endResize w = (w, []).
Proof. intros H. unfold Window.endResize. by rewrite H. Qed.

Lemma handle_directions (h : handlePosition) :
  (handle_dx h = 1 ∨ handle_dx h = -1) ∧ (handle_dy h = 1 ∨ handle_dy h = -1).
Proof. destruct h; cbn; auto. Qed.

(** X7. Pressing a resize handle and releasing it without moving the
    pointer leaves a window that is at least 200 by 100 and lies inside
    the viewport with the size and the position it had, whichever of the
    four handles it is; the release announces 'resize' once, and after it
    a pointer move no longer resizes. *)
Theorem resize_without_motion (vp : Viewport) (down later : MouseEvent)
    (handle : handlePosition) (w : Window.t) :
  200 <= Window.width w → 100 <= Window.height w → Window.inBounds vp w →
  let resized :=
    Window.resize vp down
      (Window.startResize down (handle_dx handle) (handle_dy handle) w) in
  let released := Window.endResize resized in
  Window.width resized == Window.width w ∧
  Window.height resized == Window.height w ∧
  Window.x resized == Window.x w ∧ Window.y resized == Window.y w ∧
  released.2 = ["resize"] ∧
  Window.resize vp later released.1 = released.1 ∧
  Window.endResize released.1 = (released.1, []).
Proof.
  intros Hw Hh (Hx0 & Hx1 & Hy0 & Hy1) resized released.
  set (started := Window.startResize down _ _ w) in *.
  destruct (handle_directions handle) as [Hdx Hdy].
  destruct (resize_corner vp down started) as (Ew & Eh & Ex & Ey).
  { reflexivity. }
  { change (¬ handle_dx handle == 0). destruct Hdx as [-> | ->]; lra. }
  { change (¬ handle_dy handle == 0). destruct Hdy as [-> | ->]; lra. }
  fold resized in Ew, Eh, Ex, Ey.
  assert (Hres : Window.isResizing resized = true)
    by (unfold resized; by rewrite resize_isResizing).
  pose proof (endResize_resizing resized Hres) as Hrel. fold released in Hrel.
  clearbody released. subst released. clear Hres.
  cbn [fst snd].
  split; [|split; [|split; [|split; [|split; [reflexivity|split]]]]].
  - rewrite Ew. clear - Hw. subst started.
    cbn [Window.startResize Window.set_isResizing Window.set_resize_anchor
         Window.set_drag_anchor Window.initialWidth Window.initialMouseX
         Window.resizeDirX Window.width].
    intros. qmm.
  - rewrite Eh. clear - Hh. subst started.
    cbn [Window.startResize Window.set_isResizing Window.set_resize_anchor
         Window.set_drag_anchor Window.initialHeight Window.initialMouseY
         Window.resizeDirY Window.height].
    intros. qmm.
  - rewrite Ex. clear - Hw Hx0 Hx1 Hdx. subst started.
    cbn [Window.startResize Window.set_isResizing Window.set_resize_anchor
         Window.set_drag_anchor Window.initialWidth Window.initialMouseX
         Window.initialX Window.resizeDirX Window.width Window.x].
    destruct (Qlt_le_dec (handle_dx handle) 0); qmm.
  - rewrite Ey. clear - Hh Hy0 Hy1 Hdy. subst started.
    cbn [Window.startResize Window.set_isResizing Window.set_resize_anchor
         Window.set_drag_anchor Window.initialHeight Window.initialMouseY
         Window.initialY Window.resizeDirY Window.height Window.y].
    destruct (Qlt_le_dec (handle_dy handle) 0); qmm.
  - by apply resize_idle.
  - by apply endResize_idle.
Qed.

Lemma resize_without_motion_witness :
  let resized :=
    Window.resize viewport1000x800 (at_ 50 50)
      (Window.startResize (at_ 50 50) (handle_dx top_left) (handle_dy top_left)
         windowA) in
  Window.width resized == Window.width windowA ∧
  Window.height resized == Window.height windowA ∧
  Window.x resized == Window.x windowA ∧ Window.y resized == Window.y windowA.
Proof.
  intros resized.
  destruct (resize_without_motion viewport1000x800 (at_ 50 50) (at_ 0 0)
              top_left windowA) as (Hw & Hh & Hx & Hy & _).
  - change (200 <= 600). lra.
  - change (100 <= 400). lra.
  - unfold Window.inBounds.
    change (0 <= 50 ∧ 50 <= 1000 - 600 ∧ 0 <= 50 ∧ 50 <= 800 - 400). lra.
  - split; [exact Hw|]. split; [exact Hh|]. split; [exact Hx | exact Hy].
Defined.

(** ** The viewport changes size *)

Lemma Qmin_idem_l (a m : Q) : Qmin (Qmin a m) m = Qmin a m.
Proof.
  unfold Qmin, GenericMinMax.gmin.
  destruct (a ?= m) eqn:Ha; rewrite ?Ha; try reflexivity.
  by rewrite (proj1 (Qeq_alt m m) (Qeq_refl m)).
Qed.

(** X9. [handleResize] keeps the size of the window, moves it neither to
    the right nor down, leaves a window that lies inside the viewport
    where it is, and is idempotent: once the window has been re-clamped,
    a second call for the same viewport changes nothing. *)
Theorem handleResize_idempotent (vp : Viewport) (w : Window.t) :
  let w' := Window.handleResize vp w in
  Window.handleResize vp w' = w' ∧
  Window.width w' = Window.width w ∧ Window.height w' = Window.height w ∧
  Window.x w' <= Window.x w ∧ Window.y w' <= Window.y w ∧
  (Window.inBounds vp w → Window.x w' == Window.x w ∧ Window.y w' == Window.y w).
Proof.
  cbv zeta. split.
  - unfold Window.handleResize.
    cbn [Window.x Window.y Window.width Window.height Window.updatePosition
         Window.set_element Window.set_position].
    rewrite !Qmin_idem_l. reflexivity.
  - cbn. split; [done|]. split; [done|]. split; [qmm|]. split; [qmm|].
    intros (Hx0 & Hx1 & Hy0 & Hy1). split; qmm.
Qed.

(** ** Construction *)

Lemma numeric_or_default (config : JsObject) (k : string) (d : Q) :
  truthy (get config k) = false ∨ (∃ n, get config k = JNum n) →
  ∃ n, as_number (js_or (get config k) (JNum d)) = Ok n.
Proof.
  intros [Hf|[n Hn]].
  - rewrite js_or_falsy by done. by eexists.
  - rewrite Hn. unfold js_or. destruct (truthy (JNum n)); by eexists.
Qed.

Lemma constructor_accepts cls vp rx ry Id (config : JsObject) (width height : Q) :
  get config "width" = JNum width → get config "height" = JNum height →
  (∀ k, k ∈ ["zIndex"; "x"; "y"] →
        truthy (get config k) = false ∨ ∃ n, get config k = JNum n) →
  get config "styles" ≠ JUndefined → get config "styles" ≠ JNull →
  ∃ this, Window.new cls vp rx ry Id config = Ok this.
Proof.
  intros Hw Hh Hnum Hu Hn.
  destruct (numeric_or_default config "zIndex" 1) as [z Hz];
    [apply Hnum; repeat constructor|].
  destruct (numeric_or_default config "x" (Window.randomX vp rx width)) as [px Hx];
    [apply Hnum; repeat constructor|].
  destruct (numeric_or_default config "y" (Window.randomY vp ry height)) as [py Hy];
    [apply Hnum; repeat constructor|].
  unfold Window.new. rewrite Hw, Hh. cbn [as_number rbind].
  rewrite Hz, Hx, Hy. cbn [rbind]. unfold Window.createElement. cbn [Window.config].
  destruct (member (get config "styles") "titlebar_fontsize") as [f|e|] eqn:Hm.
  - cbn [rbind]. by eexists.
  - by destruct (get config "styles").
  - by destruct (get config "styles").
Qed.

(** X2. The constructor needs a [styles] value: for a configuration with
    a numeric width and height (and a zIndex, x and y that are numbers
    where they are not falsy), the constructor throws a TypeError when
    [styles] is missing ([undefined]) or [null], because building the
    element reads a property of it, and returns a window of the
    configured size otherwise. *)
Theorem constructor_needs_styles cls vp rx ry Id (config : JsObject) (width height : Q) :
  get config "width" = JNum width → get config "height" = JNum height →
  (∀ k, k ∈ ["zIndex"; "x"; "y"] →
        truthy (get config k) = false ∨ ∃ n, get config k = JNum n) →
  (get config "styles" = JUndefined ∨ get config "styles" = JNull →
   Window.new cls vp rx ry Id config =
     Throw (TypeError "Cannot read properties of undefined")) ∧
  (get config "styles" ≠ JUndefined → get config "styles" ≠ JNull →
   ∃ this, Window.new cls vp rx ry Id config = Ok this ∧
           Window.width this = width ∧ Window.height this = height ∧
           Window.id this = Id).
Proof.
  intros Hw Hh Hnum.
  destruct (numeric_or_default config "zIndex" 1) as [z Hz];
    [apply Hnum; repeat constructor|].
  destruct (numeric_or_default config "x" (Window.randomX vp rx width)) as [px Hx];
    [apply Hnum; repeat constructor|].
  destruct (numeric_or_default config "y" (Window.randomY vp ry height)) as [py Hy];
    [apply Hnum; repeat constructor|].
  unfold Window.new. rewrite Hw, Hh. cbn [as_number rbind].
  rewrite Hz, Hx, Hy. cbn [rbind]. unfold Window.createElement. cbn [Window.config].
  split.
  - by intros [-> | ->].
  - intros Hu Hn.
    destruct (member (get config "styles") "titlebar_fontsize") as [f|e|] eqn:Hm.
    + cbn [rbind]. eexists. split; [reflexivity|].
      by destruct (truthy (js_or (get config "isMinimized") (JBool false))).
    + by destruct (get config "styles").
    + by destruct (get config "styles").
Qed.

Lemma constructor_needs_styles_witness :
  Window.new "Window" viewport1000x800 (1#2) (1#2) "A" (sized 600 400) =
    Throw (TypeError "Cannot read properties of undefined") ∧
  ∃ this, Window.new "Window" viewport1000x800 (1#2) (1#2) "A"
            (<["styles" := JObj []]> (sized 600 400)) = Ok this ∧
          Window.width this = 600 ∧ Window.height this = 400 ∧
          Window.id this = "A".
Proof.
  split.
  - apply (constructor_needs_styles "Window" viewport1000x800 (1#2) (1#2) "A"
             (sized 600 400) 600 400).
    + reflexivity.
    + reflexivity.
    + intros k Hk. left.
      repeat (apply elem_of_cons in Hk as [->|Hk]; [reflexivity|]).
      by apply elem_of_nil in Hk.
    + left. reflexivity.
  - apply (constructor_needs_styles "Window" viewport1000x800 (1#2) (1#2) "A"
             (<["styles" := JObj []]> (sized 600 400)) 600 400).
    + reflexivity.
    + reflexivity.
    + intros k Hk. left.
      repeat (apply elem_of_cons in Hk as [->|Hk]; [reflexivity|]).
      by apply elem_of_nil in Hk.
    + discriminate.
    + discriminate.
Defined.

(** ** The element follows the fields *)

Lemma rendered_new cls vp rx ry Id config w :
  Window.new cls vp rx ry Id config = Ok w →
  0 <= Window.width w → 0 <= Window.height w → rendered w.
Proof.
  unfold Window.new. intros H.
  rbind_inv H. rbind_inv H. rbind_inv H. rbind_inv H. rbind_inv H.
  unfold Window.createElement in *.
  match goal with
  | E : rbind _ _ = Ok _ |- _ => rbind_inv E
  end.
  injection H as <-.
  match goal with
  | E : Ok _ = Ok _ |- _ => injection E as <-
  end.
  destruct (truthy _); cbn; intros Hw Hh; (split; [done|]);
    (split; [exact Hw|]); (split; [exact Hh|]); apply Qle_refl.
Qed.

(** X3. The element is kept in step with the fields: once the
    constructor has returned a window whose width and height are not
    negative, the element's left, top, width and height are the window's
    x, y, width and height, and the width and the height are not
    negative; every method that follows keeps it so. (A negative width
    or height, which the constructor takes from the configuration as it
    is, is not a length of the DOM.) *)
Theorem element_follows_fields (vp : Viewport) (event : MouseEvent) (w : Window.t) :
  (∀ cls rx ry Id config,
     Window.new cls vp rx ry Id config = Ok w →
     0 <= Window.width w → 0 <= Window.height w → rendered w) ∧
  (rendered w →
     rendered (Window.startDrag event w).1 ∧
     rendered (Window.drag vp event w).1 ∧
     rendered (Window.dragEnd w).1 ∧
     (∀ dx dy, rendered (Window.startResize event dx dy w)) ∧
     rendered (Window.resize vp event w) ∧
     rendered (Window.endResize w).1 ∧
     rendered (Window.handleResize vp w) ∧
     rendered (Window.toggleMinimize w).1 ∧
     (∀ index, rendered (Window.setZIndex index w)) ∧
     (∀ name cb, rendered (Window.on name cb w))).
Proof.
  split; [intros cls rx ry Id config; apply rendered_new|].
  intros ((Hl & Ht & Hw & Hh) & Pw & Ph & Pi).
  split; [done|].
  split; [unfold Window.drag; by destruct (negb _)|].
  split; [unfold Window.dragEnd; by destruct (negb _)|].
  split; [done|].
  split.
  { assert (H200 : ∀ z, 0 <= Qmax 200 z).
    { intros z. apply (Qle_trans _ 200); [discriminate|apply Q.le_max_l]. }
    assert (H100 : ∀ z, 0 <= Qmax 100 z).
    { intros z. apply (Qle_trans _ 100); [discriminate|apply Q.le_max_l]. }
    unfold Window.resize. destruct (negb (Window.isResizing w)); [done|].
    destruct (negb (Qeq_bool (Window.resizeDirX w) 0)),
             (negb (Qeq_bool (Window.resizeDirY w) 0));
      (split; [done|]);
      cbn [Window.width Window.height Window.initialWidth Window.updatePosition
           Window.set_element Window.set_position Window.set_size];
      auto. }
  split; [unfold Window.endResize; by destruct (negb _)|].
  split; [done|].
  split; [unfold Window.toggleMinimize; by destruct (Window.isMinimized w)|].
  done.
Qed.

Lemma element_follows_fields_witness :
  rendered windowA ∧
  rendered (Window.drag viewport1000x800 (at_ 50 80)
              (Window.startDrag (at_ 100 100) windowA).1).1.
Proof.
  assert (rendered windowA) as HA.
  { destruct (element_follows_fields viewport1000x800 (at_ 0 0) windowA)
      as [Hnew _].
    apply (Hnew "Window" (1#2) (1#2) "A" configA);
      [exact windowA_constructed|discriminate|discriminate]. }
  split; [exact HA|].
  destruct (element_follows_fields viewport1000x800 (at_ 100 100) windowA)
    as [_ Hkeep].
  destruct (Hkeep HA) as (Hstart & _).
  destruct (element_follows_fields viewport1000x800 (at_ 50 80)
              (Window.startDrag (at_ 100 100) windowA).1) as [_ Hkeep'].
  destruct (Hkeep' Hstart) as (_ & Hdrag & _). exact Hdrag.
Defined.

(** ** A pointer position delivered more than once *)

Lemma Qmin_cases (a b : Q) :
  (a <= b ∧ Qmin a b = a) ∨ (b < a ∧ Qmin a b = b).
Proof.
  unfold Qmin, GenericMinMax.gmin. destruct (a ?= b) eqn:Hc.
  - left. split; [|done]. apply Qeq_alt in Hc. lra.
  - left. split; [|done]. apply Qlt_alt in Hc. lra.
  - right. split; [|done]. by apply Qgt_alt in Hc.
Qed.

Lemma Qmax_cases (a b : Q) :
  (b <= a ∧ Qmax a b = a) ∨ (a < b ∧ Qmax a b = b).
Proof.
  unfold Qmax, GenericMinMax.gmax. destruct (a ?= b) eqn:Hc.
  - left. split; [|done]. apply Qeq_alt in Hc. lra.
  - right. split; [|done]. by apply Qlt_alt in Hc.
  - left. split; [|done]. apply Qgt_alt in Hc. lra.
Qed.

Lemma clamp_idem (v m : Q) :
  Qmax 0 (Qmin (Qmax 0 (Qmin v m)) m) = Qmax 0 (Qmin v m).
Proof.
  destruct (Qmin_cases v m) as [[H1 E1]|[H1 E1]]; rewrite E1.
  - destruct (Qmax_cases 0 v) as [[H2 E2]|[H2 E2]]; rewrite E2.
    + destruct (Qmin_cases 0 m) as [[H3 E3]|[H3 E3]]; rewrite E3.
      * destruct (Qmax_cases 0 0) as [[_ E4]|[H4 _]]; [exact E4|lra].
      * destruct (Qmax_cases 0 m) as [[_ E4]|[H4 _]]; [exact E4|lra].
    + destruct (Qmin_cases v m) as [[_ E3]|[H3 _]]; [|lra]. rewrite E3. exact E2.
  - destruct (Qmax_cases 0 m) as [[H2 E2]|[H2 E2]]; rewrite E2.
    + destruct (Qmin_cases 0 m) as [[H3 E3]|[H3 E3]]; rewrite E3.
      * destruct (Qmax_cases 0 0) as [[_ E4]|[H4 _]]; [exact E4|lra].
      * exact E2.
    + destruct (Qmin_cases m m) as [[_ E3]|[H3 _]]; [|lra]. rewrite E3. exact E2.
Qed.

(** X8. [resize] gives the same window however often it runs for one
    pointer position (every press on a handle subscribes [resize] to the
    document once more, so that one move runs it as many times as the
    window has been pressed), and so does [endResize], which announces
    'resize' the first time only. *)
Theorem resize_idempotent (vp : Viewport) (event : MouseEvent) (w : Window.t) :
  Window.resize vp event (Window.resize vp event w) = Window.resize vp event w ∧
  Window.endResize (Window.endResize w).1 = ((Window.endResize w).1, []).
Proof.
  split.
  - destruct (Window.isResizing w) eqn:Hr;
      [|by rewrite !(resize_idle vp event w Hr)].
    unfold Window.resize at 2. rewrite Hr. cbn [negb].
    destruct (negb (Qeq_bool (Window.resizeDirX w) 0)) eqn:Hx,
             (negb (Qeq_bool (Window.resizeDirY w) 0)) eqn:Hy,
             (Qlt_le_dec (Window.resizeDirX w) 0) as [Hlx|Hlx] eqn:Hdx,
             (Qlt_le_dec (Window.resizeDirY w) 0) as [Hly|Hly] eqn:Hdy;
      unfold Window.resize;
      cbn [Window.isResizing Window.updatePosition Window.set_element
           Window.set_position Window.set_size Window.resizeDirX
           Window.resizeDirY Window.initialWidth Window.initialHeight
           Window.initialX Window.initialY Window.initialMouseX
           Window.initialMouseY Window.width Window.height Window.x Window.y
           Window.element Window.style_left Window.style_top Window.style_width
           Window.style_height Window.style_display Window.style_zIndex
           Window.titleText_textContent Window.titleText_fontSize
           Window.contentArea_innerHTML Window.contentArea_children
           Window.className Window.listeners Window.config Window.id
           Window.title Window.content Window.zIndex Window.isMinimized
           Window.icon Window.isDragging];
      rewrite Hr, ?Hx, ?Hy, ?Hdx, ?Hdy; cbn [negb];
      rewrite ?clamp_idem; reflexivity.
  - unfold Window.endResize. destruct (Window.isResizing w) eqn:Hr; cbn [negb fst].
    + reflexivity.
    + by rewrite Hr.
Qed.

(** ** Loading the scripts of a page *)

Lemma handleScripts_loop (p : Window.Platform) (scripts : list string)
    (out0 log0 : list string) :
  ∃ out log,
    fold_left
      (λ '(out, log) src,
         let out := if String.eqb src "" then out ++ [src] else out in
         match Window.fetch p src with
         | Ok response =>
             match Window.text response with
             | Ok body => (out ++ [body], log)
             | _ => (out, log ++ ["Failed to load external script:"])
             end
         | _ => (out, log ++ ["Failed to load external script:"])
         end)
      scripts (out0, log0) = (out0 ++ out, log0 ++ log) ∧
    (length out + length log = length scripts + length (inline scripts))%nat ∧
    ((∀ src r, src ∈ scripts → Window.fetch p src ≠ Ok r) →
     out = inline scripts ∧ length log = length scripts).
Proof.
  match goal with |- context [fold_left ?f _ _] => set (step := f) end.
  revert out0 log0.
  induction scripts as [|src scripts IH]; intros out0 log0; cbn [fold_left].
  { exists [], []. by rewrite !app_nil_r. }
  unfold inline. rewrite filter_cons. fold (inline scripts).
  set (kept := if String.eqb src "" then [src] else []).
  assert (Hinl : (if decide (src = "") then src :: inline scripts else inline scripts)
                 = kept ++ inline scripts).
  { unfold kept. destruct (String.eqb_spec src "") as [->|Hne].
    - by rewrite decide_True.
    - by rewrite decide_False. }
  rewrite Hinl. clear Hinl.
  assert (Hstep : step (out0, log0) src =
            match Window.fetch p src with
            | Ok response =>
                match Window.text response with
                | Ok body => ((out0 ++ kept) ++ [body], log0)
                | _ => (out0 ++ kept, log0 ++ ["Failed to load external script:"])
                end
            | _ => (out0 ++ kept, log0 ++ ["Failed to load external script:"])
            end).
  { unfold step, kept. destruct (String.eqb src ""); by rewrite ?app_nil_r. }
  rewrite Hstep. clear Hstep.
  destruct (Window.fetch p src) as [response|e|] eqn:Hfetch;
    [destruct (Window.text response) as [body|e|] eqn:Htext|..].
  - destruct (IH ((out0 ++ kept) ++ [body]) log0) as (out & log & Heq & Hn & _).
    rewrite Heq. exists (kept ++ [body] ++ out), log.
    split; [by rewrite <- !app_assoc|].
    split; [rewrite !length_app; cbn [length]; lia|].
    intros Hfail. exfalso. eapply Hfail; [apply list_elem_of_here|exact Hfetch].
  - destruct (IH (out0 ++ kept) (log0 ++ ["Failed to load external script:"]))
      as (out & log & Heq & Hn & _).
    rewrite Heq. exists (kept ++ out), ("Failed to load external script:" :: log).
    split; [by rewrite <- !app_assoc|].
    split; [rewrite !length_app; cbn [length]; lia|].
    intros Hfail. exfalso. eapply Hfail; [apply list_elem_of_here|exact Hfetch].
  - destruct (IH (out0 ++ kept) (log0 ++ ["Failed to load external script:"]))
      as (out & log & Heq & Hn & _).
    rewrite Heq. exists (kept ++ out), ("Failed to load external script:" :: log).
    split; [by rewrite <- !app_assoc|].
    split; [rewrite !length_app; cbn [length]; lia|].
    intros Hfail. exfalso. eapply Hfail; [apply list_elem_of_here|exact Hfetch].
  - destruct (IH (out0 ++ kept) (log0 ++ ["Failed to load external script:"]))
      as (out & log & Heq & Hn & Hoff).
    rewrite Heq. exists (kept ++ out), ("Failed to load external script:" :: log).
    split; [by rewrite <- !app_assoc|].
    split; [rewrite !length_app; cbn [length]; lia|].
    intros Hfail. destruct Hoff as [-> Hl].
    { intros src' r Hin. apply Hfail. by apply list_elem_of_further. }
    cbn [length]. by rewrite Hl.
  - destruct (IH (out0 ++ kept) (log0 ++ ["Failed to load external script:"]))
      as (out & log & Heq & Hn & Hoff).
    rewrite Heq. exists (kept ++ out), ("Failed to load external script:" :: log).
    split; [by rewrite <- !app_assoc|].
    split; [rewrite !length_app; cbn [length]; lia|].
    intros Hfail. destruct Hoff as [-> Hl].
    { intros src' r Hin. apply Hfail. by apply list_elem_of_further. }
    cbn [length]. by rewrite Hl.
Qed.

(** X13. [handleScripts] never throws and accounts for every script: each
    script is fetched, and either its text is appended to the content
    area or one failure is logged; a script without [src] is moreover
    appended as it is. So the scripts appended and the messages logged
    number as many as the scripts plus the inline ones. The children the
    content area had come first, and nothing else of the window changes.
    When no fetch succeeds, exactly the inline scripts are appended and
    one failure is logged for each script. *)
Theorem handleScripts_accounts (p : Window.Platform) (scripts : list string)
    (w : Window.t) :
  ∃ out,
    (Window.handleScripts p scripts w).1 =
      Window.set_contentArea (Window.contentArea_innerHTML (Window.element w))
        (Window.contentArea_children (Window.element w) ++ out) w ∧
    (length out + length (Window.handleScripts p scripts w).2 =
     length scripts + length (inline scripts))%nat ∧
    ((∀ src r, src ∈ scripts → Window.fetch p src ≠ Ok r) →
     out = inline scripts ∧
     length (Window.handleScripts p scripts w).2 = length scripts).
Proof.
  destruct (handleScripts_loop p scripts [] []) as (out & log & Hrun & Hn & Hoff).
  cbn [app] in Hrun. exists out. unfold Window.handleScripts.
  match goal with
  | |- context [fold_left ?f scripts ?a] =>
      replace (fold_left f scripts a) with (out, log) by (symmetry; exact Hrun)
  end.
  done.
Qed.

(** ** Texts *)

Lemma occurs_cons pat c s : occurs pat s → occurs pat (c :: s).
Proof. intros (a & b & ->). by exists (c :: a), b. Qed.

Lemma occurs_within pat (l s r : list N) : occurs pat s → occurs pat (l ++ s ++ r).
Proof.
  intros (a & b & ->). exists (l ++ a), (b ++ r). by rewrite <- !app_assoc.
Qed.

Lemma short_no_fence : ¬ occurs Window.fence ticks.
Proof.
  intros (a & b & H). apply (f_equal length) in H.
  rewrite !length_app in H. cbn in H. lia.
Qed.

Lemma fence_ticks : Window.fence = ticks ++ [Window.backtick].
Proof. reflexivity. Qed.

Lemma take_fence (r : list N) : take 3 (Window.fence ++ r) = Window.fence.
Proof. reflexivity. Qed.

Lemma fence_taken (s : list N) :
  take 3 s = Window.fence → s = Window.fence ++ drop 3 s.
Proof. intros H. by rewrite <- H, take_drop. Qed.

Lemma splitFence_cons (c : N) (s : list N) :
  Window.splitFence (c :: s) =
    if bool_decide (take 3 (c :: s) = Window.fence) then Some ([], drop 3 (c :: s))
    else match Window.splitFence s with
         | Some (before, after) => Some (c :: before, after)
         | None => None
         end.
Proof. reflexivity. Qed.

Lemma splitFence_Some (s a b : list N) :
  Window.splitFence s = Some (a, b) →
  s = a ++ Window.fence ++ b ∧ ¬ occurs Window.fence (a ++ ticks).
Proof.
  revert a. induction s as [|c s IH]; intros a H; [done|].
  rewrite splitFence_cons in H. case_bool_decide as Hp.
  - injection H as <- <-. split; [by apply fence_taken|apply short_no_fence].
  - destruct (Window.splitFence s) as [[a' b']|] eqn:Hs; [|done].
    injection H as <- <-. destruct (IH a' eq_refl) as [-> Hno].
    split; [done|]. intros (x & y & Hxy).
    destruct x as [|c' x].
    + destruct Hp.
      replace (c :: a' ++ Window.fence ++ b')
        with (Window.fence ++ y ++ Window.backtick :: b'); [apply take_fence|].
      rewrite fence_ticks at 2. rewrite <- !app_assoc.
      change (Window.fence ++ y ++ Window.backtick :: b')
        with (([] ++ Window.fence ++ y) ++ [Window.backtick] ++ b').
      rewrite <- Hxy. by rewrite <- !app_assoc.
    + injection Hxy as -> Hxy. apply Hno. by exists x, y.
Qed.

Lemma splitFence_None (s : list N) :
  Window.splitFence s = None ↔ ¬ occurs Window.fence s.
Proof.
  split.
  - induction s as [|c s IH]; intros H (a & b & Hab).
    + by destruct a.
    + rewrite splitFence_cons in H. case_bool_decide as Hp; [done|].
      destruct (Window.splitFence s) as [[a' b']|] eqn:Hs; [done|].
      destruct a as [|c' a].
      * destruct Hp. rewrite Hab. apply take_fence.
      * injection Hab as -> ->. apply IH; [done|]. by exists a, b.
  - intros Hno. destruct (Window.splitFence s) as [[a b]|] eqn:Hs; [|done].
    destruct Hno. apply splitFence_Some in Hs as [-> _]. by exists a, b.
Qed.

Lemma fence_begins (c : N) (a r : list N) :
  take 3 (c :: a ++ ticks ++ r) = Window.fence →
  occurs Window.fence (c :: a ++ ticks).
Proof.
  intros H. exists [].
  destruct a as [|c1 [|c2 a]].
  - exists []. injection H as ->. reflexivity.
  - exists [Window.backtick]. injection H as -> ->. reflexivity.
  - exists (a ++ ticks). injection H as -> -> ->. reflexivity.
Qed.

Lemma splitFence_append (a b : list N) :
  ¬ occurs Window.fence (a ++ ticks) →
  Window.splitFence (a ++ Window.fence ++ b) = Some (a, b).
Proof.
  induction a as [|c a IH]; intros Hno.
  - reflexivity.
  - cbn [app]. rewrite splitFence_cons. case_bool_decide as Hp.
    + destruct Hno.
      apply (fence_begins c a (Window.backtick :: b)).
      rewrite <- Hp. by rewrite fence_ticks, <- !app_assoc.
    + rewrite IH; [done|]. intros Ho. apply Hno. by apply occurs_cons.
Qed.

(** ** The regular expression of a fenced block *)

Lemma exec_Some (s before group after : list N) :
  Window.exec s = Some (before, group, after) →
  s = before ++ Window.fence ++ group ++ Window.fence ++ after ∧
  ¬ occurs Window.fence (before ++ ticks) ∧
  ¬ occurs Window.fence (group ++ ticks).
Proof.
  unfold Window.exec. intros H.
  destruct (Window.splitFence s) as [[b o]|] eqn:Hs; [|done].
  destruct (Window.splitFence o) as [[g a]|] eqn:Ho; [|done].
  injection H as <- <- <-.
  apply splitFence_Some in Hs as [-> Hb]. apply splitFence_Some in Ho as [-> Hg].
  done.
Qed.

Lemma exec_append (before group after : list N) :
  ¬ occurs Window.fence (before ++ ticks) →
  ¬ occurs Window.fence (group ++ ticks) →
  Window.exec (before ++ Window.fence ++ group ++ Window.fence ++ after) =
    Some (before, group, after).
Proof.
  intros Hb Hg. unfold Window.exec.
  rewrite (splitFence_append before) by done.
  by rewrite (splitFence_append group) by done.
Qed.

Lemma occurs_after_first_fence (b o x w : list N) :
  b ++ Window.fence ++ o = x ++ Window.fence ++ w →
  ¬ occurs Window.fence (b ++ ticks) →
  occurs Window.fence w → occurs Window.fence o.
Proof.
  intros H Hb (y & z & ->).
  apply app_eq_inv in H as [(k & -> & H)|(k & -> & H)].
  - destruct k as [|c1 [|c2 [|c3 k]]].
    + injection H as <-. by exists y, z.
    + destruct Hb. injection H as <- _.
      exists x, []. by rewrite <- !app_assoc.
    + destruct Hb. injection H as <- <- _.
      exists x, [Window.backtick]. by rewrite <- !app_assoc.
    + destruct Hb. injection H as <- <- <- _.
      exists x, (k ++ ticks). by rewrite <- !app_assoc.
  - destruct k as [|c1 [|c2 [|c3 k]]].
    + injection H as ->. by exists y, z.
    + injection H as _ ->. by exists (Window.backtick :: y), z.
    + injection H as _ _ ->. by exists (ticks ++ y), z.
    + injection H as _ _ _ ->.
      exists (k ++ Window.fence ++ y), z. by rewrite <- !app_assoc.
Qed.

Lemma exec_fenced (s : list N) :
  fenced s ↔ ∃ before group after, Window.exec s = Some (before, group, after).
Proof.
  split.
  - intros (x & y & z & Hs).
    destruct (Window.splitFence s) as [[b o]|] eqn:Hb.
    + apply splitFence_Some in Hb as Hb'. destruct Hb' as [Hbo Hno].
      assert (occurs Window.fence o) as Ho.
      { apply (occurs_after_first_fence b o x (y ++ Window.fence ++ z));
          [congruence|done|by exists y, z]. }
      destruct (Window.splitFence o) as [[g a]|] eqn:Hg.
      * exists b, g, a. unfold Window.exec. by rewrite Hb, Hg.
      * by apply splitFence_None in Hg.
    + apply splitFence_None in Hb. destruct Hb. exists x, (y ++ Window.fence ++ z).
      done.
  - intros (b & g & a & H). apply exec_Some in H as [-> _]. by exists b, g, a.
Qed.

(** ** parseMessageContent *)

Lemma exec_shorter (s before group after : list N) :
  Window.exec s = Some (before, group, after) →
  (length after + 6 <= length s)%nat.
Proof.
  intros H. apply exec_Some in H as [-> _]. rewrite !length_app. cbn. lia.
Qed.

Lemma parseFrom_fuel (n m : nat) (rest : list N) :
  (length rest <= n)%nat → (length rest <= m)%nat →
  Window.parseFrom n rest = Window.parseFrom m rest.
Proof.
  revert m rest. induction n as [|n IH]; intros m rest Hn Hm.
  - destruct rest; [|cbn in Hn; lia]. by destruct m.
  - destruct m as [|m].
    + destruct rest; [done|cbn in Hm; lia].
    + cbn [Window.parseFrom].
      destruct (Window.exec rest) as [[[b g] a]|] eqn:He; [|done].
      apply exec_shorter in He. f_equal. f_equal. apply IH; lia.
Qed.

Lemma parseMessageContent_unfold (text : list N) :
  Window.parseMessageContent text =
    match Window.exec text with
    | Some (before, group, after) =>
        Window.textFragment before ++
        {| Window.TextFragment.type := "code";
           Window.TextFragment.content := Window.trim group |}
          :: Window.parseMessageContent after
    | None => Window.textFragment text
    end.
Proof.
  unfold Window.parseMessageContent.
  destruct (length text) as [|n] eqn:Hn.
  - destruct text; [done|discriminate Hn].
  - cbn [Window.parseFrom].
    destruct (Window.exec text) as [[[b g] a]|] eqn:He; [|done].
    apply exec_shorter in He. f_equal. f_equal. apply parseFrom_fuel; lia.
Qed.

(** X10. [parseMessageContent] on a text that holds no closed block (no
    fence, or fences none of which is followed by another) returns the
    text as one 'text' fragment, and nothing for the empty text. On a
    text that starts with [before], a fence, [group], a fence, where the
    first fence is the first of the text and the second the next one, it
    returns [before] as a 'text' fragment unless it is empty, the trimmed
    [group] as a 'code' fragment, and then the fragments of the rest.
    Every text with a closed block is of that form. A text is any
    sequence of UTF-16 code units. *)
Theorem parseMessageContent_blocks :
  (∀ text, ¬ fenced text →
     Window.parseMessageContent text = Window.textFragment text) ∧
  (∀ before group rest,
     ¬ occurs Window.fence (before ++ ticks) →
     ¬ occurs Window.fence (group ++ ticks) →
     Window.parseMessageContent
       (before ++ Window.fence ++ group ++ Window.fence ++ rest) =
     Window.textFragment before ++
     {| Window.TextFragment.type := "code";
        Window.TextFragment.content := Window.trim group |}
       :: Window.parseMessageContent rest) ∧
  (∀ text, fenced text →
     ∃ before group rest,
       text = before ++ Window.fence ++ group ++ Window.fence ++ rest ∧
       ¬ occurs Window.fence (before ++ ticks) ∧
       ¬ occurs Window.fence (group ++ ticks)).
Proof.
  split; [|split].
  - intros text Hno. rewrite parseMessageContent_unfold.
    destruct (Window.exec text) as [[[b g] a]|] eqn:He; [|done].
    destruct Hno. apply exec_fenced. eauto.
  - intros before group rest Hb Hg.
    by rewrite parseMessageContent_unfold, exec_append.
  - intros text Hf. apply exec_fenced in Hf as (b & g & a & He).
    apply exec_Some in He. eauto.
Qed.

Lemma not_fenced_by_exec (s : list N) : Window.exec s = None → ¬ fenced s.
Proof. intros He (b & g & a & H)%exec_fenced. congruence. Qed.

Lemma no_fence_by_split (s : list N) :
  Window.splitFence s = None → ¬ occurs Window.fence s.
Proof. apply splitFence_None. Qed.

Lemma parseMessageContent_blocks_witness :
  Window.parseMessageContent
    (units "see " ++ Window.fence ++ (12288 :: units " x = 1" ++ [8195; 65279])%N
       ++ Window.fence ++ units " and more") =
    [ {| Window.TextFragment.type := "text";
         Window.TextFragment.content := units "see " |};
      {| Window.TextFragment.type := "code";
         Window.TextFragment.content := units "x = 1" |};
      {| Window.TextFragment.type := "text";
         Window.TextFragment.content := units " and more" |} ].
Proof.
  destruct parseMessageContent_blocks as (Hplain & Hblock & _).
  rewrite (Hblock (units "see ")).
  - rewrite (Hplain (units " and more")); [reflexivity|].
    apply not_fenced_by_exec. vm_compute. reflexivity.
  - apply no_fence_by_split. vm_compute. reflexivity.
  - apply no_fence_by_split. vm_compute. reflexivity.
Defined.

(** ** Trimming *)

Lemma trimEnd_cons (c : N) (rest : list N) :
  Window.trimEnd (c :: rest) =
    match Window.trimEnd rest with
    | [] => if Window.isWhiteSpace c then [] else [c]
    | kept => c :: kept
    end.
Proof. reflexivity. Qed.

Lemma trimStart_cons (c : N) (rest : list N) :
  Window.trimStart (c :: rest) =
    if Window.isWhiteSpace c then Window.trimStart rest else c :: rest.
Proof. reflexivity. Qed.

Lemma trimEnd_idem (s : list N) :
  Window.trimEnd (Window.trimEnd s) = Window.trimEnd s.
Proof.
  induction s as [|c s IH]; [done|]. rewrite trimEnd_cons.
  destruct (Window.trimEnd s) as [|c' r] eqn:Hr.
  - destruct (Window.isWhiteSpace c) eqn:Hc; [done|].
    rewrite trimEnd_cons. change (Window.trimEnd []) with (@nil N).
    by rewrite Hc.
  - rewrite trimEnd_cons, IH. done.
Qed.

Lemma trimStart_head (s : list N) : headKept (Window.trimStart s).
Proof.
  induction s as [|c s IH]; [done|]. rewrite trimStart_cons.
  by destruct (Window.isWhiteSpace c) eqn:Hc.
Qed.

Lemma trimStart_kept (s : list N) : headKept s → Window.trimStart s = s.
Proof.
  destruct s as [|c s]; [done|]. rewrite trimStart_cons.
  cbn [headKept]. by intros ->.
Qed.

Lemma trimEnd_head (s : list N) : headKept s → headKept (Window.trimEnd s).
Proof.
  destruct s as [|c s]; [done|]. cbn [headKept]. intros Hc.
  rewrite trimEnd_cons, Hc. by destruct (Window.trimEnd s).
Qed.

Lemma trim_idem (s : list N) : Window.trim (Window.trim s) = Window.trim s.
Proof.
  unfold Window.trim.
  rewrite (trimStart_kept (Window.trimEnd _))
    by apply trimEnd_head, trimStart_head.
  apply trimEnd_idem.
Qed.

Lemma trimStart_suffix (s : list N) :
  ∃ l, s = l ++ Window.trimStart s ∧ Forall (λ c, Window.isWhiteSpace c = true) l.
Proof.
  induction s as [|c s (l & IH & Hl)]; [by exists []|]. rewrite trimStart_cons.
  destruct (Window.isWhiteSpace c) eqn:Hc.
  - exists (c :: l). split; [by rewrite IH at 1|by constructor].
  - by exists [].
Qed.

Lemma trimEnd_prefix (s : list N) :
  ∃ r, s = Window.trimEnd s ++ r ∧ Forall (λ c, Window.isWhiteSpace c = true) r.
Proof.
  induction s as [|c s (r & IH & Hr)]; [by exists []|]. rewrite trimEnd_cons.
  destruct (Window.trimEnd s) as [|c' k] eqn:Hk.
  - destruct (Window.isWhiteSpace c) eqn:Hc.
    + exists (c :: s). split; [done|]. cbn in IH. subst s. by constructor.
    + exists s. split; [done|]. cbn in IH. by subst s.
  - exists r. split; [by rewrite IH at 1|done].
Qed.

(** [trim] takes white space away at both ends, and nothing else. *)
Lemma trim_within (s : list N) :
  ∃ l r, s = l ++ Window.trim s ++ r ∧
         Forall (λ c, Window.isWhiteSpace c = true) l ∧
         Forall (λ c, Window.isWhiteSpace c = true) r.
Proof.
  destruct (trimStart_suffix s) as (l & Hl & Hwl).
  destruct (trimEnd_prefix (Window.trimStart s)) as (r & Hr & Hwr).
  exists l, r. unfold Window.trim. by rewrite <- Hr.
Qed.

(** ** The fragments *)

Lemma textFragment_shape (slice : list N) :
  Window.textFragment slice = [] ∧ slice = [] ∨
  Window.textFragment slice =
    [ {| Window.TextFragment.type := "text";
         Window.TextFragment.content := slice |} ]
    ∧ slice ≠ [].
Proof. destruct slice; [by left | by right]. Qed.

Lemma parse_ind (P : list N → list Window.TextFragment.t → Prop) :
  (∀ text, Window.exec text = None → P text (Window.textFragment text)) →
  (∀ text before group after fragments,
     Window.exec text = Some (before, group, after) →
     P after fragments →
     P text (Window.textFragment before ++
             {| Window.TextFragment.type := "code";
                Window.TextFragment.content := Window.trim group |}
               :: fragments)) →
  ∀ text, P text (Window.parseMessageContent text).
Proof.
  intros Hnone Hsome text.
  remember (length text) as n eqn:Hn.
  assert (length text <= n)%nat as Hle by lia. clear Hn.
  revert text Hle. induction n as [|n IH]; intros text Hle;
    rewrite parseMessageContent_unfold.
  - destruct text; [|cbn in Hle; lia]. by apply (Hnone []).
  - destruct (Window.exec text) as [[[b g] a]|] eqn:He; [|by apply Hnone].
    apply (Hsome text b g a); [done|]. apply IH.
    apply exec_shorter in He. lia.
Qed.

(** X11. The fragments [parseMessageContent] returns are well formed: a
    'text' fragment is never empty; the content of a 'code' fragment is
    trimmed (it neither begins nor ends with white space) and holds no
    fence; two 'text' fragments never follow one another; and the empty
    text is the only one with no fragment. *)
Theorem parseMessageContent_fragments (text : list N) :
  let fragments := Window.parseMessageContent text in
  Forall (λ f, Window.TextFragment.type f = "text" ∧
               Window.TextFragment.content f ≠ [] ∨
               Window.TextFragment.type f = "code" ∧
               Window.trim (Window.TextFragment.content f) =
                 Window.TextFragment.content f ∧
               ¬ occurs Window.fence (Window.TextFragment.content f)) fragments ∧
  (∀ i f g, fragments !! i = Some f → fragments !! S i = Some g →
            Window.TextFragment.type f = "text" →
            Window.TextFragment.type g = "code") ∧
  (fragments = [] ↔ text = []).
Proof.
  cbv zeta. apply parse_ind; clear text.
  - intros text He.
    destruct (textFragment_shape text) as [[-> ->]|[-> Hne]].
    + split; [constructor|]. split; [intros i f g H; by destruct i|done].
    + split; [constructor; [by left|constructor]|].
      split; [|done]. intros [|i] f g Hf Hg; [done|by destruct i].
  - intros text b g a fragments He (Hall & Hadj & Hnil).
    apply exec_Some in He as (-> & Hb & Hg).
    assert (Hcode : Window.trim (Window.trim g) = Window.trim g ∧
                    ¬ occurs Window.fence (Window.trim g)).
    { split; [apply trim_idem|]. intros Ho. apply Hg.
      destruct (trim_within g) as (l & r & Heq & _).
      rewrite Heq at 1. rewrite <- !app_assoc.
      apply (occurs_within _ l _ (r ++ ticks)). done. }
    destruct (textFragment_shape b) as [[-> ->]|[-> Hne]]; cbn [app].
    + split; [constructor; [by right|done]|].
      split; [|split; [done|done]].
      intros [|i] f x Hf Hx; [by injection Hf as <-|]. by apply (Hadj i f x).
    + split; [constructor; [by left|constructor; [by right|done]]|].
      split; [|split; [done|by destruct b]].
      intros [|[|i]] f x Hf Hx.
      * by injection Hx as <-.
      * by injection Hf as <-.
      * by apply (Hadj i f x).
Qed.

Lemma parseMessageContent_fragments_witness :
  Forall (λ f, Window.trim (Window.TextFragment.content f) =
               Window.TextFragment.content f ∨
               Window.TextFragment.type f = "text")
    (Window.parseMessageContent
       (Window.fence ++ [8232; 120; 8201]%N ++ Window.fence ++ units " y")).
Proof.
  destruct (parseMessageContent_fragments
              (Window.fence ++ [8232; 120; 8201]%N ++ Window.fence ++ units " y"))
    as (Hall & _).
  eapply Forall_impl; [exact Hall|].
  intros f [[Ht _]|(_ & Htrim & _)]; [by right|by left].
Defined.

(** ** Writing the fragments back *)

Lemma unparse_app (l1 l2 : list Window.TextFragment.t) :
  unparse (l1 ++ l2) = unparse l1 ++ unparse l2.
Proof.
  induction l1 as [|f l1 IH]; [done|]. cbn [app unparse foldr].
  fold (unparse (l1 ++ l2)). fold (unparse l1). by rewrite IH, <- !app_assoc.
Qed.

Lemma unparse_textFragment (slice : list N) :
  unparse (Window.textFragment slice) = slice.
Proof. destruct slice; [done|]. cbn. by rewrite app_nil_r. Qed.

(** X12. [parseMessageContent] loses nothing of a message but the white
    space around the code of a block: the fragments of a text are those
    of a list of blocks that writes back to the very text (each code
    block between two fences), with every 'text' fragment equal to its
    block and every 'code' fragment the trimmed code of its block, which
    is the code without white space at its two ends. *)
Theorem parseMessageContent_writes_back (text : list N) :
  ∃ blocks,
    unparse blocks = text ∧
    Forall2 (λ f b, Window.TextFragment.type f = Window.TextFragment.type b ∧
                    if String.eqb (Window.TextFragment.type b) "code"
                    then Window.TextFragment.content f =
                           Window.trim (Window.TextFragment.content b) ∧
                         ∃ l r,
                           Window.TextFragment.content b =
                             l ++ Window.TextFragment.content f ++ r ∧
                           Forall (λ c, Window.isWhiteSpace c = true) l ∧
                           Forall (λ c, Window.isWhiteSpace c = true) r
                    else Window.TextFragment.content f =
                           Window.TextFragment.content b)
            (Window.parseMessageContent text) blocks.
Proof.
  apply parse_ind; clear text.
  - intros text He. exists (Window.textFragment text).
    split; [apply unparse_textFragment|].
    destruct text; [constructor|]. by repeat constructor.
  - intros text b g a fragments He (blocks & Hw & Hall).
    apply exec_Some in He as (-> & _).
    exists (Window.textFragment b ++
            {| Window.TextFragment.type := "code";
               Window.TextFragment.content := g |} :: blocks).
    split.
    + rewrite unparse_app, unparse_textFragment. cbn [unparse foldr].
      fold (unparse blocks). rewrite Hw.
      cbn [Window.TextFragment.type Window.TextFragment.content].
      change ("code" =? "code")%string with true. cbv iota.
      by rewrite <- !app_assoc.
    + apply Forall2_app; [destruct b; by repeat constructor|].
      constructor; [|exact Hall].
      split; [done|].
      cbn [Window.TextFragment.type Window.TextFragment.content].
      change ("code" =? "code")%string with true. cbv iota.
      split; [done|]. apply trim_within.
Qed.

Lemma parseMessageContent_writes_back_witness :
  ∃ blocks,
    unparse blocks = units "a" ++ Window.fence ++ [12288; 98]%N ++ Window.fence ∧
    length blocks =
      length (Window.parseMessageContent
                (units "a" ++ Window.fence ++ [12288; 98]%N ++ Window.fence)).
Proof.
  destruct (parseMessageContent_writes_back
              (units "a" ++ Window.fence ++ [12288; 98]%N ++ Window.fence))
    as (blocks & Hw & Hall).
  exists blocks. split; [exact Hw|]. symmetry. by eapply Forall2_length.
Defined.

(** ** What the handlers leave alone *)

Section preserves.
Context (R : Environment.t → Environment.t → Prop).
Context (R_refl : ∀ s, R s s) (R_trans : ∀ s1 s2 s3, R s1 s2 → R s2 s3 → R s1 s3).

Lemma preserves_ret {A} (a : A) : preserves R (Environment.ret a).
Proof. intros s. apply R_refl. Qed.

Lemma preserves_lift {A} (r : result A) : preserves R (Environment.lift r).
Proof. intros s. apply R_refl. Qed.

Lemma preserves_gets {A} (f : Environment.t → A) : preserves R (Environment.gets f).
Proof. intros s. apply R_refl. Qed.

Lemma preserves_modify (f : Environment.t → Environment.t) :
  (∀ s, R s (f s)) → preserves R (Environment.modify f).
Proof. intros H s. apply H. Qed.

Lemma preserves_bind {A B} (m : Environment.M A) (k : A → Environment.M B) :
  preserves R m → (∀ a, preserves R (k a)) → preserves R (Environment.bind m k).
Proof.
  intros Hm Hk s. unfold Environment.bind. specialize (Hm s).
  destruct (m s) as [[a|e|] s1]; cbn in *; [|done..].
  eapply R_trans; [exact Hm|apply Hk].
Qed.

Lemma preserves_forEach {A} (f : A → Environment.M unit) (xs : list A) :
  (∀ a, preserves R (f a)) → preserves R (Environment.forEach f xs).
Proof.
  intros Hf. induction xs as [|a xs IH]; [apply preserves_ret|].
  cbn [Environment.forEach]. by apply preserves_bind.
Qed.

Lemma preserves_mapM {A B} (f : A → Environment.M B) (xs : list A) :
  (∀ a, preserves R (f a)) → preserves R (Environment.mapM f xs).
Proof.
  intros Hf. induction xs as [|a xs IH]; [apply preserves_ret|].
  cbn [Environment.mapM]. apply preserves_bind; [done|]. intros b.
  apply preserves_bind; [done|]. intros bs. apply preserves_ret.
Qed.

Lemma preserves_deref (l : nat) : preserves R (Environment.deref l).
Proof.
  intros s. unfold Environment.deref. destruct (Environment.heap s !! l); apply R_refl.
Qed.

End preserves.

Lemma untouched_refl s : untouched s s.
Proof. done. Qed.

Lemma untouched_trans s1 s2 s3 : untouched s1 s2 → untouched s2 s3 → untouched s1 s3.
Proof.
  intros (Hz & Ht & Hs) (Hz' & Ht' & Hs'). split; [congruence|]. split.
  - intros n. by rewrite Ht'.
  - intros k Hk. by rewrite Hs', Hs.
Qed.

Lemma untouched_storage s doc :
  untouched s (Environment.set_localStorage
                 (λ st, <[Environment.storageKey := doc]> st) s).
Proof.
  split; [done|]. split; [done|]. intros k Hk. cbn. by rewrite lookup_insert_ne.
Qed.

Create HintDb untouched.

Ltac untouched_step :=
  first
    [ solve [auto 1 with untouched nocore]
    | apply (preserves_ret untouched untouched_refl)
    | apply (preserves_lift untouched untouched_refl)
    | apply (preserves_gets untouched untouched_refl)
    | apply (preserves_deref untouched untouched_refl)
    | apply preserves_modify; intros ?;
        solve [split; [reflexivity|split; intros; reflexivity]]
    | apply (preserves_bind untouched untouched_trans); [|intros ?]
    | apply (preserves_forEach untouched untouched_refl untouched_trans); intros ?
    | apply (preserves_mapM untouched untouched_refl untouched_trans); intros ? ].

Ltac untouched_auto := repeat untouched_step.

Lemma untouched_update l f : preserves untouched (Environment.update l f).
Proof. unfold Environment.update, Environment.store. untouched_auto. Qed.
#[local] Hint Resolve untouched_update : untouched.

Lemma untouched_setZIndices base i ws :
  preserves untouched (Environment.setZIndices base i ws).
Proof.
  revert i. induction ws as [|a ws IH]; intros i; cbn [Environment.setZIndices];
    untouched_auto.
Qed.
#[local] Hint Resolve untouched_setZIndices : untouched.

Lemma untouched_updateZIndices : preserves untouched Environment.updateZIndices.
Proof. unfold Environment.updateZIndices. untouched_auto. Qed.
#[local] Hint Resolve untouched_updateZIndices : untouched.

Lemma untouched_saveState : preserves untouched Environment.saveState.
Proof.
  unfold Environment.saveState. untouched_auto.
  apply preserves_modify. intros s.
  destruct (JSON_stringify _); [apply untouched_storage|].
  split; [reflexivity|split; intros; reflexivity].
Qed.
#[local] Hint Resolve untouched_saveState : untouched.

Lemma untouched_clearSavedState : preserves untouched Environment.clearSavedState.
Proof.
  apply preserves_modify. intros s. split; [done|]. split; [done|].
  intros k Hk. cbn. by rewrite lookup_delete_ne.
Qed.
#[local] Hint Resolve untouched_clearSavedState : untouched.

Lemma untouched_bringToFront l : preserves untouched (Environment.bringToFront l).
Proof.
  unfold Environment.bringToFront. untouched_step; [untouched_auto|].
  destruct (Environment.indexOf _ _); untouched_auto.
Qed.
#[local] Hint Resolve untouched_bringToFront : untouched.

Lemma untouched_pinWindow l : preserves untouched (Environment.pinWindow l).
Proof.
  unfold Environment.pinWindow, Environment.fresh_node. untouched_auto.
Qed.
#[local] Hint Resolve untouched_pinWindow : untouched.

Lemma untouched_removeWindow l : preserves untouched (Environment.removeWindow l).
Proof.
  unfold Environment.removeWindow, Environment.console_log.
  do 3 (untouched_step; [untouched_auto|]).
  destruct (JsMap.has _ _); untouched_auto.
Qed.
#[local] Hint Resolve untouched_removeWindow : untouched.

Lemma untouched_resolveType cls config :
  preserves untouched (Environment.resolveType cls config).
Proof.
  unfold Environment.resolveType, Environment.console_log.
  untouched_step; [untouched_auto|].
  destruct (_ !! _); [untouched_auto|].
  untouched_step; [untouched_auto|].
  destruct (Environment.isSubclass cls); untouched_auto.
  apply preserves_modify. intros s. split; [done|]. split; [|done].
  intros n. cbn. by rewrite lookup_insert_ne.
Qed.
#[local] Hint Resolve untouched_resolveType : untouched.

Lemma untouched_attachListeners l config :
  preserves untouched (Environment.attachListeners l config).
Proof.
  unfold Environment.attachListeners.
  untouched_step; [|untouched_auto].
  destruct (truthy _); untouched_auto. destruct a. untouched_auto.
Qed.
#[local] Hint Resolve untouched_attachListeners : untouched.

Lemma untouched_createWindow vp rx ry id cls config :
  preserves untouched (Environment.createWindow vp rx ry id cls config).
Proof.
  unfold Environment.createWindow, Environment.console_log, Environment.alloc.
  untouched_step; [untouched_auto|].
  destruct (JsMap.has _ _).
  { untouched_step; [untouched_auto|]. destruct (JsMap.get _ _); untouched_auto. }
  untouched_step; [untouched_auto|].
  destruct a0 as [cls' config']. untouched_auto.
Qed.
#[local] Hint Resolve untouched_createWindow : untouched.

Lemma untouched_newWindow vp rx ry uuid cls config :
  preserves untouched (Environment.newWindow vp rx ry uuid cls config).
Proof. unfold Environment.newWindow. untouched_auto. Qed.
#[local] Hint Resolve untouched_newWindow : untouched.

Lemma untouched_perform o : preserves untouched (perform o).
Proof. destruct o; cbn [perform]; untouched_auto. Qed.
#[local] Hint Resolve untouched_perform : untouched.

Lemma untouched_run l cb : preserves untouched (Environment.run l cb).
Proof.
  destruct cb; cbn [Environment.run]; unfold Environment.startDragging;
    untouched_auto.
Qed.
#[local] Hint Resolve untouched_run : untouched.

Lemma untouched_emit l events : preserves untouched (Environment.emit l events).
Proof. unfold Environment.emit. untouched_auto. Qed.
#[local] Hint Resolve untouched_emit : untouched.

Lemma untouched_call l method : preserves untouched (Environment.call l method).
Proof.
  unfold Environment.call, Environment.store. untouched_step; [untouched_auto|].
  destruct (method a) as [w events]. untouched_auto.
Qed.
#[local] Hint Resolve untouched_call : untouched.

Lemma untouched_onMouseMove vp event :
  preserves untouched (Environment.onMouseMove vp event).
Proof.
  unfold Environment.onMouseMove. untouched_step; [untouched_auto|].
  destruct a; untouched_auto.
Qed.
#[local] Hint Resolve untouched_onMouseMove : untouched.

Lemma untouched_onMouseUp event : preserves untouched (Environment.onMouseUp event).
Proof.
  unfold Environment.onMouseUp. untouched_step; [untouched_auto|].
  destruct a; untouched_auto.
Qed.
#[local] Hint Resolve untouched_onMouseUp : untouched.

Lemma react_untouched (i : input) : preserves untouched (react i).
Proof. destruct i; cbn [react]; untouched_auto. Qed.

Lemma visited_untouched s : visited s → untouched Environment.new s.
Proof.
  induction 1 as [|s i r s' _ IH Hrun]; [apply untouched_refl|].
  eapply untouched_trans; [exact IH|].
  pose proof (react_untouched i s) as H. by rewrite Hrun in H.
Qed.

(** X14. Whatever happens to the page, the handler that runs, whether it
    returns or throws, leaves the base z-index, the window types
    registered under a name and every storage key but
    'windowEnvironmentState' as they were. In every state of a session
    the base is 1000, the names registered are the constructor's four
    (a class that [createWindow] registers is stored under the class, and is
    still not registered by name at the next call), and
    the storage holds no other key. *)
Theorem handlers_leave_untouched :
  (∀ i s, untouched s (react i s).2) ∧
  (∀ s, visited s →
     Environment.zIndexBase s = 1000 ∧
     (∀ n, Environment.windowTypes s !! Environment.ByName n =
           Environment.windowTypes Environment.new !! Environment.ByName n) ∧
     (∀ k, k ≠ Environment.storageKey → Environment.localStorage s !! k = None)).
Proof.
  split; [intros i s; apply react_untouched|].
  intros s Hs. destruct (visited_untouched s Hs) as (Hz & Ht & Hk).
  split; [by rewrite Hz|]. split; [done|].
  intros k Hne. by rewrite Hk.
Qed.

(** ** The listeners of a new window *)

Lemma emit_on event e cb ls :
  EventEmitter.emit event (EventEmitter.on e cb ls) =
  EventEmitter.emit event ls ++ (if String.eqb event e then [cb] else []).
Proof.
  destruct (String.eqb_spec event e) as [->|Hne].
  - apply emit_on_eq.
  - rewrite app_nil_r. by apply emit_on_ne.
Qed.

Lemma emit_user_handlers event (es : list (string * jsval)) (w : Window.t) :
  EventEmitter.emit event
    (Window.listeners
       (fold_left (λ w eh, Window.on eh.1 (UserCallback eh.2) w) es w)) =
  EventEmitter.emit event (Window.listeners w) ++
  ((λ eh, UserCallback eh.2) <$> filter (λ eh, eh.1 = event) es).
Proof.
  revert w. induction es as [|[e h] es IH]; intros w; cbn [fold_left].
  - by rewrite app_nil_r.
  - rewrite IH. cbn [Window.on Window.listeners Window.set_listeners].
    rewrite emit_on, <- app_assoc. f_equal.
    rewrite filter_cons. cbn [fst snd].
    destruct (String.eqb_spec event e) as [->|Hne].
    + by rewrite decide_True.
    + by rewrite decide_False by congruence.
Qed.

Lemma emit_wired event config this :
  EventEmitter.emit event (Window.listeners (wired config this)) =
  EventEmitter.emit event (Window.listeners this) ++
  handlers event config ++ ownListeners event.
Proof.
  unfold wired, handlers. cbn zeta.
  cbn [Window.on Window.listeners Window.set_listeners].
  rewrite !emit_on.
  assert (EventEmitter.emit event
            (Window.listeners
               (if truthy (get config "events")
                then fold_left (λ w eh, Window.on eh.1 (UserCallback eh.2) w)
                       (Environment.entries (get config "events")) this
                else this)) =
          EventEmitter.emit event (Window.listeners this) ++
          (if truthy (get config "events")
           then (λ eh, UserCallback eh.2)
                  <$> filter (λ eh, eh.1 = event)
                        (Environment.entries (get config "events"))
           else [])) as ->.
  { destruct (truthy _); [apply emit_user_handlers|by rewrite app_nil_r]. }
  rewrite <- !app_assoc. do 2 f_equal. unfold ownListeners.
  repeat match goal with
  | |- context [String.eqb event ?e] =>
      destruct (String.eqb_spec event e) as [->|?]; [reflexivity|]
  end.
  reflexivity.
Qed.

Lemma zheap_fields {X} (f : Window.t → X) base i ws h l :
  (∀ z w, f (Window.setZIndex z w) = f w) →
  f <$> zheap base i ws h !! l = f <$> h !! l.
Proof.
  intros Hf. revert i h. induction ws as [|a ws IH]; intros i h; [done|].
  cbn [zheap]. rewrite IH.
  destruct (decide (a = l)) as [->|Hne].
  - rewrite lookup_alter_eq. destruct (h !! l); cbn; by rewrite ?Hf.
  - by rewrite lookup_alter_ne.
Qed.

Lemma created_heap config this s :
  Environment.heap (created config this s) =
    zheap (Environment.zIndexBase s) 0
      (JsMap.values (JsMap.set (Window.id this) (Environment.nextLoc s)
                       (Environment.windows s)))
      (<[Environment.nextLoc s := wired config this]> (Environment.heap s)).
Proof. reflexivity. Qed.

Lemma created_object config this s :
  ∃ w, Environment.heap (created config this s) !! Environment.nextLoc s = Some w ∧
       persistent w = persistent this ∧
       Window.listeners w = Window.listeners (wired config this).
Proof.
  rewrite created_heap.
  set (h := <[Environment.nextLoc s := wired config this]> (Environment.heap s)).
  set (ws := JsMap.values _).
  pose proof (zheap_fields persistent (Environment.zIndexBase s) 0 ws h
                (Environment.nextLoc s) (λ _ _, eq_refl)) as Hp.
  pose proof (zheap_fields Window.listeners (Environment.zIndexBase s) 0 ws h
                (Environment.nextLoc s) (λ _ _, eq_refl)) as Hl.
  unfold h at 2 in Hp. unfold h at 2 in Hl.
  rewrite lookup_insert_eq in Hp, Hl.
  destruct (zheap _ _ _ _ !! _) as [w|]; [|discriminate Hp].
  exists w. split; [reflexivity|].
  apply (inj Some) in Hp. apply (inj Some) in Hl.
  split; [|exact Hl]. rewrite Hp. apply persistent_wired.
Qed.

(** X15. A window that [createWindow] has built from the class [Window]
    listens as follows, when the [events] of its configuration (as merged
    with the defaults) are an object, or absent, with no key that
    [Object.prototype] defines: for every event, the handlers the
    configuration gives for the event under [events], in their order, and
    then the environment's own listener for that event, if it has one.
    Nothing else is subscribed. *)
Theorem createWindow_subscribes vp rx ry id config s l s' :
  wf s → JsMap.has id (Environment.windows s) = false →
  Environment.createWindow vp rx ry id Environment.Window config s = (Ok l, s') →
  ∃ w, Environment.heap s' !! l = Some w ∧
       (plainEvents (Window.config w) →
        ∀ event, EventEmitter.emit event (Window.listeners w) =
                 handlers event (Window.config w) ++ ownListeners event).
Proof.
  intros Hwf Hhas Hrun. set (cls := Environment.Window) in *.
  destruct (resolveType_frame cls config s)
    as ([cls' config'] & s0 & Hres & Hh & Hw & Hn & Hz).
  destruct (Window.new (Environment.name cls') vp rx ry id config')
    as [this|e|] eqn:Hnew.
  - rewrite (createWindow_fresh_run vp rx ry id cls config s cls' config' s0 this
               Hwf Hhas Hres Hnew) in Hrun.
    injection Hrun as <- <-.
    destruct (created_object config' this s0) as (w & Hlook & Hp & Hl).
    exists w. split; [done|]. intros _ event.
    apply new_inv in Hnew as Hinv.
    assert (Window.listeners this = ∅) as Hnone by apply Hinv.
    assert (Window.config this = config') as Hcfg by apply Hinv.
    assert (Window.config w = config') as ->.
    { unfold persistent in Hp. congruence. }
    rewrite Hl, emit_wired, Hnone. reflexivity.
  - pose proof (createWindow_failed_run vp rx ry id cls config s cls' config' s0
                  Hhas Hres _ Hnew) as H.
    cbv beta iota in H. rewrite H in Hrun. done.
  - pose proof (createWindow_failed_run vp rx ry id cls config s cls' config' s0
                  Hhas Hres _ Hnew) as H.
    cbv beta iota in H. rewrite H in Hrun. done.
Qed.

(** ** Opening a window from the taskbar or the desktop *)

Lemma wf_fields_next h ws n n' : wf_fields h ws n → (n <= n')%nat → wf_fields h ws n'.
Proof.
  intros [H1 H2 H3] Hle. split; [done..|]. intros l Hl. apply H3 in Hl. lia.
Qed.

Lemma wf_fresh_loc s k : wf s → (k, Environment.nextLoc s) ∉ Environment.windows s.
Proof.
  intros Hwf Hin. destruct (wf_objs _ _ _ Hwf _ _ Hin) as (w & Hw & _).
  assert (Environment.nextLoc s < Environment.nextLoc s)%nat; [|lia].
  apply (wf_next _ _ _ Hwf). by exists w.
Qed.

Lemma filter_all {A} (P : A → Prop) `{∀ x, Decision (P x)} (l : list A) :
  Forall P l → filter P l = l.
Proof.
  induction 1 as [|x l Hx _ IH]; [done|]. by rewrite filter_cons_True, IH.
Qed.

Lemma filter_ext_elem {A} (P1 P2 : A → Prop) `{∀ x, Decision (P1 x)}
    `{∀ x, Decision (P2 x)} (l : list A) :
  (∀ x, x ∈ l → P1 x ↔ P2 x) → filter P1 l = filter P2 l.
Proof.
  induction l as [|x l IH]; intros Hl; [done|].
  rewrite !filter_cons.
  rewrite IH by (intros y Hy; apply Hl; by apply list_elem_of_further).
  destruct (decide (P1 x)) as [H1|H1], (decide (P2 x)) as [H2|H2];
    try reflexivity; exfalso;
    [apply H2|apply H1]; by apply (Hl x); [apply list_elem_of_here|].
Qed.

Lemma filter_fresh_loc s :
  wf s →
  filter (λ p : string * nat, p.2 ≠ Environment.nextLoc s) (Environment.windows s) =
  Environment.windows s.
Proof.
  intros Hwf. apply filter_all. apply Forall_forall. intros [k l] Hin.
  cbn. intros ->. by apply (wf_fresh_loc s k).
Qed.

Lemma pinWindow_run l s w :
  Environment.heap s !! l = Some w →
  Environment.pinWindow l s =
    (Ok tt,
     Environment.set_icons
       (λ i, <[Window.id w := Environment.TaskbarItem (Environment.nextLoc s)]> i)
       (Environment.set_taskbarScrollContainer_children
          (Environment.appendChild (Environment.nextLoc s))
          (Environment.set_nextLoc (S (Environment.nextLoc s)) s))).
Proof.
  intros Hw. unfold Environment.pinWindow.
  unfold Environment.bind at 1. unfold Environment.deref. rewrite Hw.
  reflexivity.
Qed.

Lemma elem_of_appendChild node children :
  node ∈ Environment.appendChild node children.
Proof. unfold Environment.appendChild. apply elem_of_app. right. apply list_elem_of_here. Qed.

Lemma wf_withPin id s : wf s → wf (withPin id s).
Proof. intros Hwf. apply (wf_fields_next _ _ (Environment.nextLoc s)); [done|cbn; lia]. Qed.

Lemma wf_renumbered s : wf s → wf (renumbered s).
Proof. apply wf_zheap. Qed.

Lemma wf_saved s : wf s → wf (saved s).
Proof. done. Qed.

Lemma zOrdered_saved s : zOrdered s → zOrdered (saved s).
Proof. done. Qed.

Lemma updateZIndices_renumbered s :
  wf s → Environment.updateZIndices s = (Ok tt, renumbered s).
Proof. intros Hwf. by apply updateZIndices_run, wf_bound. Qed.

Lemma saveState_saved s : wf s → Environment.saveState s = (Ok tt, saved s).
Proof. intros Hwf. by apply saveState_run, wf_bound. Qed.

Lemma created_member config this s :
  wf s → Window.id this ∉ JsMap.keys (Environment.windows s) →
  (Window.id this, Environment.nextLoc s) ∈ Environment.windows (created config this s).
Proof.
  intros Hwf Hfresh. rewrite created_windows by done.
  apply elem_of_app. right. apply list_elem_of_here.
Qed.

Lemma newWindow_run vp rx ry uuid cls config s cls' config' s0 this :
  wf s →
  JsMap.has uuid (Environment.windows s) = false →
  Environment.resolveType cls config s = (Ok (cls', config'), s0) →
  Window.new (Environment.name cls') vp rx ry uuid config' = Ok this →
  Environment.newWindow vp rx ry uuid cls config s =
    (Ok (Environment.nextLoc s0), opened config' this s0).
Proof.
  intros Hwf Hhas Hres Hnew. unfold Environment.newWindow.
  unfold Environment.bind at 1.
  rewrite (createWindow_fresh_run vp rx ry uuid cls config s cls' config' s0 this
             Hwf Hhas Hres Hnew).
  destruct (resolveType_frame cls config s) as (c & s0' & Hres' & Hh & Hw & Hn & Hz).
  rewrite Hres in Hres'. injection Hres' as <- <-.
  assert (Hwf0 : wf s0) by (by apply (wf_ext s)).
  apply new_inv in Hnew as Hinv.
  assert (Hid : Window.id this = uuid) by apply Hinv.
  assert (Hfresh : Window.id this ∉ JsMap.keys (Environment.windows s0)).
  { rewrite Hid, Hw. by apply JsMap_has_false. }
  destruct (created_object config' this s0) as (w1 & Hw1 & Hp1 & _).
  assert (Hid1 : Window.id w1 = Window.id this).
  { unfold persistent in Hp1. congruence. }
  pose proof (wf_created config' this s0 Hwf0 Hfresh) as Hwf1.
  pose proof (created_member config' this s0 Hwf0 Hfresh) as Hin1.
  set (s1 := created config' this s0) in *.
  unfold Environment.bind at 1.
  rewrite (pinWindow_run _ s1 w1 Hw1). rewrite Hid1.
  change (Environment.set_icons _ _) with (withPin (Window.id this) s1).
  pose proof (wf_withPin (Window.id this) s1 Hwf1) as Hwf2.
  set (s2 := withPin (Window.id this) s1) in *.
  unfold Environment.bind at 1.
  rewrite (bringToFront_member (Window.id this) (Environment.nextLoc s0) s2 Hwf2 Hin1).
  pose proof (wf_raised (Window.id this) (Environment.nextLoc s0) s2 Hwf2 Hin1) as Hwf3.
  set (s3 := raised _ _ s2) in *.
  unfold Environment.bind at 1.
  rewrite (updateZIndices_renumbered s3 Hwf3).
  pose proof (wf_renumbered s3 Hwf3) as Hwf4.
  unfold Environment.bind at 1.
  rewrite (saveState_saved _ Hwf4).
  reflexivity.
Qed.

Lemma windows_saved s : Environment.windows (saved s) = Environment.windows s.
Proof. reflexivity. Qed.

Lemma windows_renumbered s :
  Environment.windows (renumbered s) = Environment.windows s.
Proof. reflexivity. Qed.

Lemma windows_withPin id s :
  Environment.windows (withPin id s) = Environment.windows s.
Proof. reflexivity. Qed.

Lemma heap_saved s : Environment.heap (saved s) = Environment.heap s.
Proof. reflexivity. Qed.

Lemma heap_renumbered s :
  Environment.heap (renumbered s) =
    zheap (Environment.zIndexBase s) 0 (JsMap.values (Environment.windows s))
          (Environment.heap s).
Proof. reflexivity. Qed.

Lemma heap_withPin id s : Environment.heap (withPin id s) = Environment.heap s.
Proof. reflexivity. Qed.

Lemma heap_raised k l s :
  Environment.heap (raised k l s) =
    zheap (Environment.zIndexBase s) 0
      (JsMap.values (filter (λ p, p.2 ≠ l) (Environment.windows s) ++ [(k, l)]))
      (Environment.heap s).
Proof. reflexivity. Qed.

Lemma heap_fields_saved {X} (f : Window.t → X) s l :
  f <$> Environment.heap (saved s) !! l = f <$> Environment.heap s !! l.
Proof. by rewrite heap_saved. Qed.

Lemma heap_fields_renumbered {X} (f : Window.t → X) s l :
  (∀ z w, f (Window.setZIndex z w) = f w) →
  f <$> Environment.heap (renumbered s) !! l = f <$> Environment.heap s !! l.
Proof. intros Hf. by rewrite heap_renumbered, zheap_fields. Qed.

Lemma heap_fields_raised {X} (f : Window.t → X) k l' s l :
  (∀ z w, f (Window.setZIndex z w) = f w) →
  f <$> Environment.heap (raised k l' s) !! l = f <$> Environment.heap s !! l.
Proof. intros Hf. by rewrite heap_raised, zheap_fields. Qed.

Lemma heap_fields_created {X} (f : Window.t → X) config this s l :
  (∀ z w, f (Window.setZIndex z w) = f w) →
  f <$> Environment.heap (created config this s) !! l =
  f <$> <[Environment.nextLoc s := wired config this]> (Environment.heap s) !! l.
Proof. intros Hf. by rewrite created_heap, zheap_fields. Qed.

Section opened.
Context (config : JsObject) (this : Window.t) (s : Environment.t).
Context (Hwf : wf s) (Hfresh : Window.id this ∉ JsMap.keys (Environment.windows s)).

Lemma opened_windows :
  Environment.windows (opened config this s) =
    Environment.windows s ++ [(Window.id this, Environment.nextLoc s)].
Proof using Hwf Hfresh.
  unfold opened.
  rewrite windows_saved, windows_renumbered, raised_windows, windows_withPin.
  rewrite created_windows by done.
  rewrite filter_app, filter_fresh_loc by done.
  rewrite filter_cons, decide_False by (cbn; tauto).
  by rewrite filter_nil, app_nil_r.
Qed.

Lemma wf_opened : wf (opened config this s).
Proof using Hwf Hfresh.
  apply wf_saved, wf_renumbered, wf_raised.
  - by apply wf_withPin, wf_created.
  - rewrite windows_withPin. by apply created_member.
Qed.

Lemma zOrdered_opened : zOrdered (opened config this s).
Proof using Hwf Hfresh.
  apply zOrdered_saved. apply zOrdered_zheap. apply wf_raised.
  - by apply wf_withPin, wf_created.
  - rewrite windows_withPin. by apply created_member.
Qed.

Lemma opened_fields {X} (f : Window.t → X) l :
  (∀ z w, f (Window.setZIndex z w) = f w) →
  f <$> Environment.heap (opened config this s) !! l =
  f <$> <[Environment.nextLoc s := wired config this]> (Environment.heap s) !! l.
Proof using Type.
  intros Hf. unfold opened.
  rewrite heap_fields_saved, heap_fields_renumbered, heap_fields_raised by done.
  rewrite heap_withPin. by apply heap_fields_created.
Qed.

Lemma opened_object :
  ∃ w, Environment.heap (opened config this s) !! Environment.nextLoc s = Some w ∧
       persistent w = persistent this ∧
       Window.listeners w = Window.listeners (wired config this).
Proof using Type.
  pose proof (opened_fields persistent (Environment.nextLoc s) (λ _ _, eq_refl)) as Hp.
  pose proof (opened_fields Window.listeners (Environment.nextLoc s)
                (λ _ _, eq_refl)) as Hl.
  rewrite lookup_insert_eq in Hp, Hl.
  destruct (Environment.heap (opened config this s) !! Environment.nextLoc s)
    as [w|]; [|discriminate Hp].
  exists w. split; [reflexivity|].
  apply (inj Some) in Hp. apply (inj Some) in Hl.
  split; [|exact Hl]. rewrite Hp. apply persistent_wired.
Qed.

Lemma pinned_opened : pinned (opened config this s) (Environment.nextLoc s).
Proof using Hwf Hfresh.
  destruct opened_object as (w & Hw & Hp & _).
  assert (Hid : Window.id w = Window.id this).
  { unfold persistent in Hp. congruence. }
  exists w, (S (Environment.nextLoc s)). split; [done|]. rewrite Hid.
  split; [rewrite opened_windows; apply elem_of_app; right; apply list_elem_of_here|].
  split; [apply elem_of_appendChild|].
  split; [apply lookup_insert_eq|apply elem_of_appendChild].
Qed.

End opened.

(** X17. [newWindow] for the class [Window], with a fresh id and a
    configuration that, once the registered defaults are merged, the
    constructor accepts and whose [events] are an object (or absent)
    with no key that [Object.prototype] defines, returns the new
    window, last in the collection and so on top, with the z-index
    base + n for n windows before it; the window is pinned: its element
    is in the page and its button in the taskbar, under its id in
    [icons]. The environment stays well formed, its z-indices are
    contiguous, and no other window is moved, resized or renamed. *)
Theorem newWindow_opens_on_top vp rx ry uuid config d this s :
  wf s →
  JsMap.has uuid (Environment.windows s) = false →
  Environment.windowTypes s
    !! Environment.ByName (Environment.name Environment.Window) = Some d →
  plainEvents (Environment.mergeDefaults config d) →
  Window.new (Environment.name Environment.Window) vp rx ry uuid
    (Environment.mergeDefaults config d) = Ok this →
  ∃ s' w,
    Environment.newWindow vp rx ry uuid Environment.Window config s =
      (Ok (Environment.nextLoc s), s') ∧
    Environment.windows s' =
      Environment.windows s ++ [(uuid, Environment.nextLoc s)] ∧
    Environment.heap s' !! Environment.nextLoc s = Some w ∧
    persistent w = persistent this ∧
    Window.zIndex w =
      Environment.zIndexBase s +
      inject_Z (Z.of_nat (length (Environment.windows s))) ∧
    pinned s' (Environment.nextLoc s) ∧ wf s' ∧ zOrdered s' ∧
    (∀ l, l ≠ Environment.nextLoc s →
          persistent <$> Environment.heap s' !! l =
          persistent <$> Environment.heap s !! l).
Proof.
  intros Hwf Hhas Hd _ Hnew. set (cls := Environment.Window) in *.
  pose proof (resolveType_registered cls config d s Hd) as Hres.
  pose proof (newWindow_run vp rx ry uuid cls config s cls _ s this
                Hwf Hhas Hres Hnew) as Hrun.
  apply new_inv in Hnew as Hinv.
  assert (Hid : Window.id this = uuid) by apply Hinv.
  assert (Hfresh : Window.id this ∉ JsMap.keys (Environment.windows s)).
  { rewrite Hid. by apply JsMap_has_false. }
  set (config' := Environment.mergeDefaults config d) in *.
  pose proof (opened_windows config' this s Hwf Hfresh) as Hws.
  pose proof (zOrdered_opened config' this s Hwf Hfresh) as Hz.
  destruct (Hz (length (Environment.windows s)) (Environment.nextLoc s))
    as (w & Hw & Hzw).
  { rewrite Hws. unfold JsMap.values. rewrite fmap_app.
    rewrite lookup_app_r by (by rewrite length_fmap).
    by rewrite length_fmap, Nat.sub_diag. }
  exists (opened config' this s), w.
  split; [exact Hrun|]. split; [by rewrite Hws, Hid|]. split; [exact Hw|].
  split.
  { destruct (opened_object config' this s) as (w' & Hw' & Hp & _).
    rewrite Hw in Hw'. by injection Hw' as <-. }
  split; [exact Hzw|].
  split; [by apply pinned_opened|].
  split; [by apply wf_opened|]. split; [exact Hz|].
  intros l Hl.
  rewrite (opened_fields config' this s persistent l (λ _ _, eq_refl)).
  by rewrite lookup_insert_ne.
Qed.

(** ** Closing a window *)

Lemma JsMap_has_elem {A} (k : string) (v : A) (m : list (string * A)) :
  (k, v) ∈ m → JsMap.has k m = true.
Proof.
  intros Hin. apply JsMap_has_true. unfold JsMap.keys.
  apply list_elem_of_fmap. by exists (k, v).
Qed.

Lemma JsMap_has_delete {A} (k : string) (m : list (string * A)) :
  JsMap.has k (JsMap.delete k m) = false.
Proof.
  apply JsMap_has_false. rewrite JsMap_delete_filter. unfold JsMap.keys.
  intros ([k' v] & -> & [Hne _]%list_elem_of_filter)%list_elem_of_fmap.
  by apply Hne.
Qed.

Lemma removeWindow_absent l s w :
  Environment.heap s !! l = Some w →
  JsMap.has (Window.id w) (Environment.windows s) = false →
  Environment.removeWindow l s =
    (Ok tt, Environment.set_console
              (λ c, c ++ ["Removing window: " +:+ Window.id w]) s).
Proof.
  intros Hw Hhas. unfold Environment.removeWindow.
  unfold Environment.bind at 1. unfold Environment.deref. rewrite Hw.
  unfold Environment.bind at 1. cbn [Environment.console_log Environment.modify].
  unfold Environment.bind at 1. cbn [Environment.gets Environment.windows
    Environment.set_console]. by rewrite Hhas.
Qed.

Lemma removeWindow_run l s w node :
  wf s →
  Environment.heap s !! l = Some w →
  (Window.id w, l) ∈ Environment.windows s →
  l ∈ Environment.environment_children s →
  Environment.icons s !! Window.id w = Some (Environment.TaskbarItem node) →
  node ∈ Environment.taskbarScrollContainer_children s →
  Environment.removeWindow l s = (Ok tt, closed w l node s).
Proof.
  intros Hwf Hw Hin Henv Hpin Hnode. unfold Environment.removeWindow.
  unfold Environment.bind at 1. unfold Environment.deref. rewrite Hw.
  unfold Environment.bind at 1. cbn [Environment.console_log Environment.modify].
  unfold Environment.bind at 1. cbn [Environment.gets Environment.windows
    Environment.set_console].
  rewrite (JsMap_has_elem _ _ _ Hin).
  unfold Environment.bind at 1. cbn [Environment.modify].
  unfold Environment.bind at 1. cbn [Environment.gets
    Environment.environment_children Environment.set_windows Environment.set_console].
  unfold Environment.bind at 1. unfold Environment.lift at 1.
  unfold Environment.removeChild at 1. rewrite bool_decide_eq_true_2 by done.
  unfold Environment.bind at 1. cbn [Environment.modify].
  unfold Environment.bind at 1. cbn [Environment.gets Environment.icons
    Environment.set_environment_children Environment.set_windows
    Environment.set_console]. rewrite Hpin.
  unfold Environment.bind at 1. cbn [Environment.gets
    Environment.taskbarScrollContainer_children
    Environment.set_environment_children Environment.set_windows
    Environment.set_console].
  unfold Environment.bind at 1. unfold Environment.lift at 1.
  unfold Environment.removeChild_handle, Environment.removeChild.
  rewrite bool_decide_eq_true_2 by done.
  unfold Environment.bind at 1. cbn [Environment.modify].
  unfold Environment.bind at 1. cbn [Environment.modify].
  set (s4 := Environment.set_icons _ _).
  assert (Hwf4 : wf s4) by (by apply wf_delete).
  unfold Environment.bind at 1.
  rewrite (updateZIndices_renumbered s4 Hwf4).
  rewrite (saveState_saved _ (wf_renumbered s4 Hwf4)).
  reflexivity.
Qed.

Lemma delete_by_loc s w l :
  wf s → Environment.heap s !! l = Some w → (Window.id w, l) ∈ Environment.windows s →
  JsMap.delete (Window.id w) (Environment.windows s) =
  filter (λ p, p.2 ≠ l) (Environment.windows s).
Proof.
  intros Hwf Hw Hin. rewrite JsMap_delete_filter.
  apply filter_ext_elem. intros [k l'] Hin'. cbn. split.
  - intros Hne ->. destruct (wf_objs _ _ _ Hwf _ _ Hin') as (w' & Hw' & Hid).
    congruence.
  - intros Hne ->. apply Hne.
    pose proof (JsMap_get_elem _ _ _ (wf_keys _ _ _ Hwf) Hin) as H1.
    pose proof (JsMap_get_elem _ _ _ (wf_keys _ _ _ Hwf) Hin') as H2.
    congruence.
Qed.

(** X19. [removeWindow] on a pinned window (one whose element is in the
    page and whose button is in the taskbar, as [newWindow] leaves it)
    returns: the window leaves the collection, the other windows keep
    their order and are renumbered from the base without a gap; the
    element is taken out of the page and the button out of the taskbar,
    the other children of both staying in their order; the entry of the
    window leaves [icons]; and the snapshot is written again. A second
    [removeWindow] on it only logs. *)
Theorem removeWindow_closes_pinned (s : Environment.t) (l : nat) :
  wf s → pinned s l →
  ∃ s' w node,
    Environment.heap s !! l = Some w ∧
    Environment.icons s !! Window.id w = Some (Environment.TaskbarItem node) ∧
    Environment.removeWindow l s = (Ok tt, s') ∧
    Environment.windows s' = filter (λ p, p.2 ≠ l) (Environment.windows s) ∧
    wf s' ∧ zOrdered s' ∧
    Environment.environment_children s' =
      filter (λ n, n ≠ l) (Environment.environment_children s) ∧
    (l ∉ Environment.environment_children s') ∧
    Environment.taskbarScrollContainer_children s' =
      filter (λ n, n ≠ node) (Environment.taskbarScrollContainer_children s) ∧
    (node ∉ Environment.taskbarScrollContainer_children s') ∧
    Environment.icons s' = delete (Window.id w) (Environment.icons s) ∧
    Environment.icons s' !! Window.id w = None ∧
    snapshot s' =
      JSON_stringify (JObj [("windows", JArr (savedEntries s'))]) ∧
    Environment.removeWindow l s' =
      (Ok tt, Environment.set_console
                (λ c, c ++ ["Removing window: " +:+ Window.id w]) s').
Proof.
  intros Hwf (w & node & Hw & Hin & Henv & Hpin & Hnode).
  exists (closed w l node s), w, node. split; [done|]. split; [done|].
  split; [by apply removeWindow_run|].
  assert (Hwf' : wf (closed w l node s)).
  { apply wf_saved, wf_renumbered. by apply wf_delete. }
  split.
  { unfold closed, saved, renumbered.
    cbn [Environment.windows Environment.set_localStorage Environment.set_heap
         Environment.set_icons Environment.set_taskbarScrollContainer_children
         Environment.set_environment_children Environment.set_windows
         Environment.set_console].
    by apply delete_by_loc. }
  split; [done|].
  split. { apply zOrdered_saved, zOrdered_zheap. by apply wf_delete. }
  split; [reflexivity|].
  split.
  { cbn. intros [Hne _]%list_elem_of_filter. by apply Hne. }
  split; [reflexivity|].
  split.
  { cbn. intros [Hne _]%list_elem_of_filter. by apply Hne. }
  split; [reflexivity|].
  split; [cbn; apply lookup_delete_eq|].
  split.
  { unfold closed. set (s5 := renumbered _). unfold snapshot, saved.
    cbn [Environment.localStorage Environment.set_localStorage].
    unfold savedStorage. cbn [JSON_stringify].
    rewrite lookup_insert_eq. reflexivity. }
  assert (Window.id <$> Environment.heap (closed w l node s) !! l = Some (Window.id w))
    as Hid.
  { unfold closed, saved, renumbered.
    cbn [Environment.heap Environment.set_localStorage Environment.set_heap
         Environment.set_icons Environment.set_taskbarScrollContainer_children
         Environment.set_environment_children Environment.set_windows
         Environment.set_console].
    rewrite (zheap_fields Window.id) by done. by rewrite Hw. }
  destruct (Environment.heap (closed w l node s) !! l) as [w'|] eqn:Hw'; [|done].
  injection Hid as Hid.
  rewrite (removeWindow_absent l _ w' Hw'); [by rewrite Hid|].
  rewrite Hid. cbn. apply JsMap_has_delete.
Qed.

Lemma windows_closed w l node s :
  Environment.windows (closed w l node s) =
    JsMap.delete (Window.id w) (Environment.windows s).
Proof. reflexivity. Qed.

Lemma heap_closed w l node s :
  Environment.heap (closed w l node s) =
    zheap (Environment.zIndexBase s) 0
      (JsMap.values (JsMap.delete (Window.id w) (Environment.windows s)))
      (Environment.heap s).
Proof. reflexivity. Qed.

(** ** Delivering an event *)

Lemma bind_ret_tt (m : Environment.M unit) s :
  Environment.bind m (λ _, Environment.ret tt) s = m s.
Proof. unfold Environment.bind. by destruct (m s) as [[[]|e|] s']. Qed.

Lemma forEach_one {A} (f : A → Environment.M unit) (a : A) s :
  Environment.forEach f [a] s = f a s.
Proof. cbn [Environment.forEach]. apply bind_ret_tt. Qed.

Lemma emit_one l event s w :
  Environment.heap s !! l = Some w →
  Environment.emit l [event] s =
    Environment.forEach (Environment.run l)
      (EventEmitter.emit event (Window.listeners w)) s.
Proof.
  intros Hw. unfold Environment.emit. rewrite forEach_one.
  unfold Environment.bind, Environment.deref. by rewrite Hw.
Qed.

Lemma emit_none l s : Environment.emit l [] s = (Ok tt, s).
Proof. reflexivity. Qed.

Lemma emit_to l event cb s w :
  Environment.heap s !! l = Some w →
  EventEmitter.emit event (Window.listeners w) = [cb] →
  Environment.emit l [event] s = Environment.run l cb s.
Proof. intros Hw He. by rewrite (emit_one l event s w Hw), He, forEach_one. Qed.

Lemma closed_facts w l node s :
  wf s → Environment.heap s !! l = Some w →
  (Window.id w, l) ∈ Environment.windows s →
  Environment.windows (closed w l node s) =
    filter (λ p, p.2 ≠ l) (Environment.windows s) ∧
  wf (closed w l node s) ∧ zOrdered (closed w l node s) ∧
  (∀ l', persistent <$> Environment.heap (closed w l node s) !! l' =
         persistent <$> Environment.heap s !! l').
Proof.
  intros Hwf Hw Hin.
  split; [rewrite windows_closed; by apply delete_by_loc|].
  split. { apply wf_saved, wf_renumbered. by apply wf_delete. }
  split. { apply zOrdered_saved, zOrdered_zheap. by apply wf_delete. }
  intros l'. by rewrite heap_closed, zheap_persistent.
Qed.

Lemma close_opened (s1 : Environment.t) (ws : list (string * nat)) (l : nat)
    (w : Window.t) (node : nat) :
  wf s1 →
  Environment.heap s1 !! l = Some w →
  (Window.id w, l) ∈ Environment.windows s1 →
  l ∈ Environment.environment_children s1 →
  Environment.icons s1 !! Window.id w = Some (Environment.TaskbarItem node) →
  node ∈ Environment.taskbarScrollContainer_children s1 →
  EventEmitter.emit "close" (Window.listeners w) = [OnClose] →
  Environment.windows s1 = ws ++ [(Window.id w, l)] →
  filter (λ p : string * nat, p.2 ≠ l) ws = ws →
  ∃ s2,
    Environment.emit l ["close"] s1 = (Ok tt, s2) ∧
    Environment.removeWindow l s1 = (Ok tt, s2) ∧
    Environment.windows s2 = ws ∧ wf s2 ∧ zOrdered s2 ∧
    (∀ l', persistent <$> Environment.heap s2 !! l' =
           persistent <$> Environment.heap s1 !! l').
Proof.
  intros Hwf Hw Hin Henv Hpin Hnode Hclose Hws Hfilter.
  pose proof (removeWindow_run l s1 w node Hwf Hw Hin Henv Hpin Hnode) as Hrem.
  destruct (closed_facts w l node s1 Hwf Hw Hin) as (Hws2 & Hwf2 & Hz2 & Hp2).
  exists (closed w l node s1).
  split; [by rewrite (emit_to l "close" OnClose s1 w Hw Hclose)|].
  split; [exact Hrem|].
  split; [|done].
  rewrite Hws2, Hws, filter_app, Hfilter.
  rewrite filter_cons, decide_False by (cbn; tauto).
  by rewrite filter_nil, app_nil_r.
Qed.

(** X20. Opening and closing: after [newWindow] has opened a window of
    the class [Window] (from a configuration whose [events], once the
    defaults are merged, are an object or absent, with no key that
    [Object.prototype] defines and no 'close' handler of its own), a
    click on its close button runs [removeWindow], which returns and
    leaves the collection as it was before the window was opened,
    renumbered without a gap, with every other window as it was. *)
Theorem newWindow_then_close vp rx ry uuid config d this s :
  wf s →
  JsMap.has uuid (Environment.windows s) = false →
  Environment.windowTypes s
    !! Environment.ByName (Environment.name Environment.Window) = Some d →
  plainEvents (Environment.mergeDefaults config d) →
  Window.new (Environment.name Environment.Window) vp rx ry uuid
    (Environment.mergeDefaults config d) = Ok this →
  handlers "close" (Environment.mergeDefaults config d) = [] →
  ∃ s1 s2,
    Environment.newWindow vp rx ry uuid Environment.Window config s =
      (Ok (Environment.nextLoc s), s1) ∧
    Environment.emit (Environment.nextLoc s) ["close"] s1 = (Ok tt, s2) ∧
    Environment.removeWindow (Environment.nextLoc s) s1 = (Ok tt, s2) ∧
    Environment.windows s2 = Environment.windows s ∧
    wf s2 ∧ zOrdered s2 ∧
    (∀ l, l ≠ Environment.nextLoc s →
          persistent <$> Environment.heap s2 !! l =
          persistent <$> Environment.heap s !! l).
Proof.
  intros Hwf Hhas Hd _ Hnew Hclose. set (cls := Environment.Window) in *.
  pose proof (resolveType_registered cls config d s Hd) as Hres.
  pose proof (newWindow_run vp rx ry uuid cls config s cls _ s this
                Hwf Hhas Hres Hnew) as Hrun.
  apply new_inv in Hnew as Hinv.
  assert (Hid : Window.id this = uuid) by apply Hinv.
  assert (Hnone : Window.listeners this = ∅) by apply Hinv.
  assert (Hfresh : Window.id this ∉ JsMap.keys (Environment.windows s)).
  { rewrite Hid. by apply JsMap_has_false. }
  clear Hinv Hres Hnew Hhas Hd.
  revert Hrun Hclose. generalize (Environment.mergeDefaults config d).
  intros config' Hrun Hclose.
  pose proof (wf_opened config' this s Hwf Hfresh) as Hwf1.
  pose proof (opened_windows config' this s Hwf Hfresh) as Hws1.
  destruct (opened_object config' this s) as (w & Hw & Hp & Hl).
  destruct (pinned_opened config' this s Hwf Hfresh)
    as (w' & node & Hw' & Hin & Henv & Hpin & Hnode).
  rewrite Hw in Hw'. injection Hw' as <-.
  assert (Hidw : Window.id w = Window.id this).
  { unfold persistent in Hp. congruence. }
  assert (Hcl : EventEmitter.emit "close" (Window.listeners w) = [OnClose]).
  { rewrite Hl, emit_wired, Hnone, Hclose. reflexivity. }
  pose proof (opened_fields config' this s persistent) as Hfields.
  revert Hrun Hwf1 Hws1 Hw Hin Henv Hpin Hnode Hfields.
  generalize (opened config' this s). intros s1 Hrun Hwf1 Hws1 Hw Hin Henv Hpin Hnode Hfields.
  rewrite <- Hidw in Hws1.
  destruct (close_opened s1 (Environment.windows s) (Environment.nextLoc s) w node
              Hwf1 Hw Hin Henv Hpin Hnode Hcl Hws1 (filter_fresh_loc s Hwf))
    as (s2 & Hemit & Hrem & Hws2 & Hwf2 & Hz2 & Hp2).
  exists s1, s2. split; [exact Hrun|]. split; [exact Hemit|].
  split; [exact Hrem|]. split; [exact Hws2|]. split; [exact Hwf2|].
  split; [exact Hz2|].
  intros l Hne. rewrite Hp2, (Hfields l (λ _ _, eq_refl)).
  by rewrite lookup_insert_ne.
Qed.

(** ** Calling a method of a window *)

Lemma call_run l method s w w' events :
  Environment.heap s !! l = Some w → method w = (w', events) →
  Environment.call l method s = Environment.emit l events (stored l w' s).
Proof.
  intros Hw Hm. unfold Environment.call.
  unfold Environment.bind at 1. unfold Environment.deref. rewrite Hw, Hm.
  reflexivity.
Qed.

Lemma heap_stored l w s : Environment.heap (stored l w s) = <[l := w]> (Environment.heap s).
Proof. reflexivity. Qed.

Lemma windows_stored l w s : Environment.windows (stored l w s) = Environment.windows s.
Proof. reflexivity. Qed.

Lemma lookup_stored l w s : Environment.heap (stored l w s) !! l = Some w.
Proof. rewrite heap_stored. apply lookup_insert_eq. Qed.

Lemma wf_stored l w w' s :
  wf s → Environment.heap s !! l = Some w → Window.id w' = Window.id w →
  wf (stored l w' s).
Proof.
  intros [H1 H2 H3] Hw Hid. split; [exact H1| |].
  - intros k l' Hin. rewrite heap_stored.
    destruct (H2 k l' Hin) as (w0 & Hw0 & Hid0).
    destruct (decide (l' = l)) as [->|Hne].
    + exists w'. rewrite lookup_insert_eq. split; [done|]. congruence.
    + exists w0. by rewrite lookup_insert_ne.
  - intros l' Hl'. rewrite heap_stored in Hl'.
    apply lookup_insert_is_Some' in Hl' as [->|Hl']; [|by apply H3].
    apply H3. by exists w.
Qed.

Lemma zOrdered_stored l w w' s :
  zOrdered s → Environment.heap s !! l = Some w → Window.zIndex w' = Window.zIndex w →
  zOrdered (stored l w' s).
Proof.
  intros Hz Hw Hzi k l' Hk. destruct (Hz k l' Hk) as (w0 & Hw0 & Hz0).
  cbn [Environment.zIndexBase stored Environment.set_heap].
  rewrite heap_stored.
  destruct (decide (l' = l)) as [->|Hne].
  - exists w'. rewrite lookup_insert_eq. split; [done|]. congruence.
  - exists w0. by rewrite lookup_insert_ne.
Qed.

Lemma stored_same l w s : Environment.heap s !! l = Some w → stored l w s = s.
Proof.
  intros Hw. destruct s. unfold stored, Environment.set_heap. cbn in *.
  f_equal. by apply insert_id.
Qed.

Lemma saved_snapshot s :
  snapshot (saved s) =
    Some (JObj [("windows",
                 JArr ((λ x, default JNull (JSON_stringify x)) <$> savedEntries s))]).
Proof. unfold saved. exact (snapshot_saved s). Qed.

Lemma savedEntries_saved s : savedEntries (saved s) = savedEntries s.
Proof. reflexivity. Qed.

Lemma savedEntry_saved s i l w :
  JsMap.values (Environment.windows s) !! i = Some l →
  Environment.heap s !! l = Some w →
  ∃ entry, savedEntry (saved s) i = Some entry ∧
    get (configOfEntry entry) "x" = JNum (Window.x w) ∧
    get (configOfEntry entry) "y" = JNum (Window.y w) ∧
    get (configOfEntry entry) "width" = JNum (Window.width w) ∧
    get (configOfEntry entry) "height" = JNum (Window.height w) ∧
    get (configOfEntry entry) "isMinimized" = JBool (Window.isMinimized w).
Proof.
  intros Hi Hw.
  destruct (snapshot_entry s i l w Hi Hw) as (e & He & Hs).
  destruct (saved_entry_geometry w) as (e' & Hs' & Hwd & Hht & Hx & Hy & Hm & _).
  rewrite Hs in Hs'. injection Hs' as <-.
  exists e. unfold savedEntry. rewrite saved_snapshot.
  split; [exact He|]. done.
Qed.

(** ** Dragging a window across the desktop *)

Lemma startDragging_run k l s :
  wf s → (k, l) ∈ Environment.windows s →
  Environment.startDragging l s = (Ok tt, dragging k l s).
Proof.
  intros Hwf Hin. unfold Environment.startDragging.
  unfold Environment.bind at 1. cbn [Environment.modify].
  by rewrite (bringToFront_member k l
                (Environment.set_currentlyDragging (Some l) s) Hwf Hin).
Qed.

Lemma windows_dragging k l s :
  Environment.windows (dragging k l s) =
    filter (λ p, p.2 ≠ l) (Environment.windows s) ++ [(k, l)].
Proof. reflexivity. Qed.

Lemma currentlyDragging_dragging k l s :
  Environment.currentlyDragging (dragging k l s) = Some l.
Proof. reflexivity. Qed.

Lemma heap_fields_dragging {X} (f : Window.t → X) k l s l' :
  (∀ z w, f (Window.setZIndex z w) = f w) →
  f <$> Environment.heap (dragging k l s) !! l' = f <$> Environment.heap s !! l'.
Proof. intros Hf. unfold dragging. by rewrite heap_fields_raised. Qed.

Lemma wf_dragging k l s : wf s → (k, l) ∈ Environment.windows s → wf (dragging k l s).
Proof. intros Hwf Hin. by apply wf_raised. Qed.

Lemma zOrdered_dragging k l s :
  wf s → (k, l) ∈ Environment.windows s → zOrdered (dragging k l s).
Proof. intros Hwf Hin. by apply zOrdered_raised. Qed.

(** X21. A press on the title bar of a member window whose 'dragStart'
    is heard by the environment alone starts the drag and raises the
    window: [startDrag] records the anchors, the environment takes the
    window as the one being dragged and brings it to the front, the other
    windows keeping their order; the z-indices are renumbered without a
    gap. Apart from its z-index the window is as [startDrag] left it. *)
Theorem titleBar_mouseDown_raises (s : Environment.t) (k : string) (l : nat)
    (w : Window.t) (event : MouseEvent) :
  wf s → (k, l) ∈ Environment.windows s → Environment.heap s !! l = Some w →
  EventEmitter.emit "dragStart" (Window.listeners w) = [OnDragStart] →
  ∃ s' w',
    react (TitleBarMouseDown l event) s = (Ok tt, s') ∧
    Environment.currentlyDragging s' = Some l ∧
    Environment.windows s' =
      filter (λ p, p.2 ≠ l) (Environment.windows s) ++ [(k, l)] ∧
    Environment.heap s' !! l = Some w' ∧
    Window.setZIndex 0 w' = Window.setZIndex 0 (Window.startDrag event w).1 ∧
    Window.isDragging w' = true ∧
    wf s' ∧ zOrdered s'.
Proof.
  intros Hwf Hin Hw Hls. cbn [react].
  set (w1 := (Window.startDrag event w).1).
  assert (Hwf1 : wf (stored l w1 s)) by (by apply (wf_stored l w)).
  rewrite (call_run l (Window.startDrag event) s w w1 ["dragStart"] Hw eq_refl).
  rewrite (emit_to l "dragStart" OnDragStart _ w1 (lookup_stored l w1 s) Hls).
  cbn [Environment.run].
  rewrite (startDragging_run k l _ Hwf1 Hin).
  pose proof (heap_fields_dragging (Window.setZIndex 0) k l (stored l w1 s) l
                (λ _ _, eq_refl)) as Hf.
  rewrite lookup_stored in Hf.
  destruct (Environment.heap (dragging k l (stored l w1 s)) !! l) as [w'|] eqn:Hw';
    [|discriminate Hf].
  apply (inj Some) in Hf.
  exists (dragging k l (stored l w1 s)), w'.
  split; [reflexivity|]. split; [reflexivity|]. split; [reflexivity|].
  split; [exact Hw'|]. split; [exact Hf|].
  split; [exact (f_equal Window.isDragging Hf)|].
  split; [by apply wf_dragging | by apply zOrdered_dragging].
Qed.

Lemma onMouseMove_idle vp event s :
  Environment.currentlyDragging s = None →
  Environment.onMouseMove vp event s = (Ok tt, s).
Proof.
  intros H. unfold Environment.onMouseMove, Environment.bind, Environment.gets.
  by rewrite H.
Qed.

Lemma onMouseUp_idle event s :
  Environment.currentlyDragging s = None →
  Environment.onMouseUp event s = (Ok tt, s).
Proof.
  intros H. unfold Environment.onMouseUp, Environment.bind, Environment.gets.
  by rewrite H.
Qed.

Lemma onMouseMove_call vp event s l :
  Environment.currentlyDragging s = Some l →
  Environment.onMouseMove vp event s =
    Environment.call l (Window.drag vp event) s.
Proof.
  intros H. unfold Environment.onMouseMove.
  unfold Environment.bind at 1. cbn [Environment.gets]. by rewrite H.
Qed.

Lemma call_saving l method s w w' event cb :
  wf s → Environment.heap s !! l = Some w → method w = (w', [event]) →
  Window.id w' = Window.id w → Window.listeners w' = Window.listeners w →
  EventEmitter.emit event (Window.listeners w) = [cb] →
  Environment.run l cb = Environment.saveState →
  Environment.call l method s = (Ok tt, saved (stored l w' s)).
Proof.
  intros Hwf Hw Hm Hid Hls He Hcb.
  rewrite (call_run l method s w w' [event] Hw Hm).
  rewrite (emit_to l event cb _ w' (lookup_stored l w' s)) by (by rewrite Hls).
  rewrite Hcb. apply saveState_saved. by apply (wf_stored l w).
Qed.

Lemma savedEntry_stored s l w' i :
  JsMap.values (Environment.windows s) !! i = Some l →
  ∃ entry, savedEntry (saved (stored l w' s)) i = Some entry ∧
    get (configOfEntry entry) "x" = JNum (Window.x w') ∧
    get (configOfEntry entry) "y" = JNum (Window.y w') ∧
    get (configOfEntry entry) "width" = JNum (Window.width w') ∧
    get (configOfEntry entry) "height" = JNum (Window.height w') ∧
    get (configOfEntry entry) "isMinimized" = JBool (Window.isMinimized w').
Proof.
  intros Hi. apply (savedEntry_saved (stored l w' s) i l w').
  - by rewrite windows_stored.
  - apply lookup_stored.
Qed.

(** X22. While no window is being dragged, a pointer move does nothing.
    While a member window is being dragged whose 'drag' is heard by the
    environment alone, [onMouseMove] moves it as [drag] does, leaves the
    other windows and the order of the collection as they are, and saves
    the state: the entry of the window in the stored snapshot holds its
    new x and y. *)
Theorem onMouseMove_drags (s : Environment.t) (vp : Viewport) (event : MouseEvent) :
  (Environment.currentlyDragging s = None →
     Environment.onMouseMove vp event s = (Ok tt, s)) ∧
  (∀ l w i,
     wf s → Environment.currentlyDragging s = Some l →
     Environment.heap s !! l = Some w → Window.isDragging w = true →
     JsMap.values (Environment.windows s) !! i = Some l →
     EventEmitter.emit "drag" (Window.listeners w) = [OnDrag] →
     ∃ s' entry,
       Environment.onMouseMove vp event s = (Ok tt, s') ∧
       Environment.heap s' = <[l := (Window.drag vp event w).1]> (Environment.heap s) ∧
       Environment.windows s' = Environment.windows s ∧
       Environment.currentlyDragging s' = Some l ∧
       savedEntry s' i = Some entry ∧
       get (configOfEntry entry) "x" = JNum (Window.x (Window.drag vp event w).1) ∧
       get (configOfEntry entry) "y" = JNum (Window.y (Window.drag vp event w).1) ∧
       wf s').
Proof.
  split; [apply onMouseMove_idle|].
  intros l w i Hwf Hcur Hw Hd Hi Hls.
  pose proof (drag_dragging vp event w Hd) as Hdrag.
  set (w' := (Window.drag vp event w).1) in *.
  assert (Hm : Window.drag vp event w = (w', ["drag"])).
  { unfold w'. by rewrite Hdrag. }
  assert (Hid : Window.id w' = Window.id w) by (unfold w'; by rewrite Hdrag).
  assert (Hl : Window.listeners w' = Window.listeners w)
    by (unfold w'; by rewrite Hdrag).
  clearbody w'. clear Hdrag.
  destruct (savedEntry_stored s l w' i Hi) as (entry & He & Hx & Hy & _).
  exists (saved (stored l w' s)), entry.
  split.
  { rewrite (onMouseMove_call vp event s l Hcur).
    by apply (call_saving l _ s w w' "drag" OnDrag). }
  split; [reflexivity|]. split; [reflexivity|]. split; [exact Hcur|].
  split; [exact He|]. split; [exact Hx|]. split; [exact Hy|].
  apply wf_saved. by apply (wf_stored l w).
Qed.

(** X23. A release of the pointer while a window is being dragged ends
    the drag: the window is no longer dragging, the environment drags
    none, the state is saved, and the pointer moves and releases that
    follow do nothing. While no window is being dragged a release does
    nothing. *)
Theorem onMouseUp_ends_drag (s : Environment.t) (event later : MouseEvent)
    (vp : Viewport) :
  (Environment.currentlyDragging s = None →
     Environment.onMouseUp event s = (Ok tt, s)) ∧
  (∀ l w,
     wf s → Environment.currentlyDragging s = Some l →
     Environment.heap s !! l = Some w → Window.isDragging w = true →
     EventEmitter.emit "dragEnd" (Window.listeners w) = [OnDragEnd] →
     ∃ s',
       Environment.onMouseUp event s = (Ok tt, s') ∧
       Environment.currentlyDragging s' = None ∧
       Environment.heap s' = <[l := Window.set_isDragging false w]> (Environment.heap s) ∧
       Environment.windows s' = Environment.windows s ∧
       snapshot s' =
         JSON_stringify (JObj [("windows", JArr (savedEntries s'))]) ∧
       Environment.onMouseMove vp later s' = (Ok tt, s') ∧
       Environment.onMouseUp later s' = (Ok tt, s')).
Proof.
  split; [apply onMouseUp_idle|].
  intros l w Hwf Hcur Hw Hd Hls.
  set (w' := Window.set_isDragging false w).
  exists (Environment.set_currentlyDragging None (saved (stored l w' s))).
  split.
  { unfold Environment.onMouseUp.
    unfold Environment.bind at 1. cbn [Environment.gets]. rewrite Hcur.
    unfold Environment.bind at 1.
    by rewrite (call_saving l Window.dragEnd s w w' "dragEnd" OnDragEnd Hwf Hw
                  (dragEnd_dragging w Hd) eq_refl eq_refl Hls eq_refl). }
  split; [reflexivity|]. split; [reflexivity|]. split; [reflexivity|].
  split.
  { change (snapshot (saved (stored l w' s)) =
            JSON_stringify (JObj [("windows", JArr (savedEntries (stored l w' s)))])).
    by rewrite saved_snapshot, JSON_stringify_obj. }
  split; [by apply onMouseMove_idle | by apply onMouseUp_idle].
Qed.

(** ** The minimize button *)

(** X24. A click on the minimize button of a member window (or on its pin
    in the taskbar) whose 'minimize' is heard by the environment alone
    toggles the window and saves the state: the entry of the window in
    the stored snapshot holds the new minimized flag, and the position and
    the size the window has. *)
Theorem minimize_click_is_saved (s : Environment.t) (l : nat) (w : Window.t) (i : nat) :
  wf s → Environment.heap s !! l = Some w →
  JsMap.values (Environment.windows s) !! i = Some l →
  EventEmitter.emit "minimize" (Window.listeners w) = [OnMinimize] →
  ∃ s' entry,
    react (MinimizeClick l) s = (Ok tt, s') ∧
    Environment.heap s' = <[l := (Window.toggleMinimize w).1]> (Environment.heap s) ∧
    Environment.windows s' = Environment.windows s ∧
    savedEntry s' i = Some entry ∧
    get (configOfEntry entry) "isMinimized" = JBool (negb (Window.isMinimized w)) ∧
    get (configOfEntry entry) "x" = JNum (Window.x w) ∧
    get (configOfEntry entry) "y" = JNum (Window.y w) ∧
    get (configOfEntry entry) "width" = JNum (Window.width w) ∧
    get (configOfEntry entry) "height" = JNum (Window.height w).
Proof.
  intros Hwf Hw Hi Hls. cbn [react].
  set (w' := (Window.toggleMinimize w).1).
  assert (Hfields :
    (Window.id w', Window.listeners w', Window.isMinimized w',
     Window.x w', Window.y w', Window.width w', Window.height w') =
    (Window.id w, Window.listeners w, negb (Window.isMinimized w),
     Window.x w, Window.y w, Window.width w, Window.height w)).
  { unfold w', Window.toggleMinimize. by destruct (Window.isMinimized w). }
  assert (Hm : Window.toggleMinimize w = (w', ["minimize"])) by reflexivity.
  clearbody w'.
  injection Hfields as Hid Hl Hmin Hx Hy Hwd Hht.
  destruct (savedEntry_stored s l w' i Hi)
    as (entry & He & Ex & Ey & Ewd & Eht & Emin).
  exists (saved (stored l w' s)), entry.
  split; [by apply (call_saving l _ s w w' "minimize" OnMinimize)|].
  split; [reflexivity|]. split; [reflexivity|]. split; [exact He|].
  rewrite <- Hmin, <- Hx, <- Hy, <- Hwd, <- Hht. done.
Qed.

(** ** Every session keeps the environment well formed *)

Lemma wf_fmap (f : Window.t → Window.t) s :
  (∀ w, Window.id (f w) = Window.id w) →
  wf s → wf (Environment.set_heap (fmap f) s).
Proof.
  intros Hid [H1 H2 H3]. split; [exact H1| |].
  - intros k l Hin. destruct (H2 k l Hin) as (w & Hw & Hk).
    exists (f w). cbn. rewrite lookup_fmap, Hw. split; [done|]. by rewrite Hid.
  - intros l Hl. apply H3. cbn in Hl. rewrite lookup_fmap in Hl.
    by apply fmap_is_Some in Hl.
Qed.

Lemma zOrdered_fmap (f : Window.t → Window.t) s :
  (∀ w, Window.zIndex (f w) = Window.zIndex w) →
  zOrdered s → zOrdered (Environment.set_heap (fmap f) s).
Proof.
  intros Hzi Hz k l Hk. destruct (Hz k l Hk) as (w & Hw & Hzw).
  exists (f w). cbn. rewrite lookup_fmap, Hw. split; [done|]. by rewrite Hzi.
Qed.

Lemma resize_keeps (vp : Viewport) (event : MouseEvent) (w : Window.t) :
  Window.id (Window.resize vp event w) = Window.id w ∧
  Window.zIndex (Window.resize vp event w) = Window.zIndex w.
Proof.
  unfold Window.resize. destruct (negb (Window.isResizing w)); [done|].
  destruct (negb (Qeq_bool (Window.resizeDirX w) 0)),
           (negb (Qeq_bool (Window.resizeDirY w) 0)); done.
Qed.

Lemma endResize_keeps (w : Window.t) :
  Window.id (Window.endResize w).1 = Window.id w ∧
  Window.zIndex (Window.endResize w).1 = Window.zIndex w.
Proof. unfold Window.endResize. by destruct (negb (Window.isResizing w)). Qed.

Lemma drag_keeps (vp : Viewport) (event : MouseEvent) (w : Window.t) :
  Window.id (Window.drag vp event w).1 = Window.id w ∧
  Window.zIndex (Window.drag vp event w).1 = Window.zIndex w.
Proof. unfold Window.drag. by destruct (negb (Window.isDragging w)). Qed.

Lemma dragEnd_keeps (w : Window.t) :
  Window.id (Window.dragEnd w).1 = Window.id w ∧
  Window.zIndex (Window.dragEnd w).1 = Window.zIndex w.
Proof. unfold Window.dragEnd. by destruct (negb (Window.isDragging w)). Qed.

Lemma toggleMinimize_keeps (w : Window.t) :
  Window.id (Window.toggleMinimize w).1 = Window.id w ∧
  Window.zIndex (Window.toggleMinimize w).1 = Window.zIndex w.
Proof. unfold Window.toggleMinimize. by destruct (Window.isMinimized w). Qed.

Section session.
Variable P : Prop.

Lemma sound_stored l w w' s :
  sound P s → Environment.heap s !! l = Some w →
  Window.id w' = Window.id w → Window.zIndex w' = Window.zIndex w →
  sound P (stored l w' s).
Proof.
  intros [Hwf Hz] Hw Hid Hzi. split; [by apply (wf_stored l w)|].
  intros HP. by apply (zOrdered_stored l w); [apply Hz| |].
Qed.

Lemma spec_run l cb s :
  sound P s → wp (Environment.run l cb) (λ _ s', sound P s') wf s.
Proof.
  intros [Hwf Hz]. destruct cb; cbn [Environment.run]; try (by split).
  - by apply spec_removeWindow.
  - eapply wp_mono; [| |by apply (spec_bringToFront P)]; done.
  - unfold Environment.startDragging. apply wp_bind, wp_modify.
    eapply wp_mono; [| |by apply (spec_bringToFront P)]; done.
  - eapply wp_mono; [| |by apply (spec_saveState P)]; done.
  - eapply wp_mono; [| |by apply (spec_saveState P)]; done.
  - eapply wp_mono; [| |by apply (spec_saveState P)]; done.
Qed.

Lemma spec_emit l events s :
  sound P s → wp (Environment.emit l events) (λ _ s', sound P s') wf s.
Proof.
  intros Hs. unfold Environment.emit.
  apply (wp_forEach _ _ (λ _ s', sound P s')); [done|].
  intros done event rest s1 _ Hs1.
  apply wp_bind, wp_deref.
  destruct (Environment.heap s1 !! l) as [w|]; [|apply Hs1].
  apply (wp_forEach _ _ (λ _ s', sound P s')); [done|].
  intros done' cb rest' s2 _ Hs2. by apply spec_run.
Qed.

Lemma spec_call l method s :
  (∀ w, Window.id (method w).1 = Window.id w ∧
        Window.zIndex (method w).1 = Window.zIndex w) →
  sound P s → wp (Environment.call l method) (λ _ s', sound P s') wf s.
Proof.
  intros Hkeep Hs. unfold Environment.call.
  apply wp_bind, wp_deref.
  destruct (Environment.heap s !! l) as [w|] eqn:Hw; [|apply Hs].
  destruct (Hkeep w) as [Hid Hzi].
  destruct (method w) as [w' events]. cbn [fst] in Hid, Hzi.
  apply wp_bind. unfold Environment.store. apply wp_modify.
  apply spec_emit. by apply (sound_stored l w).
Qed.

Lemma spec_react i s :
  sound P s → wp (react i) (λ _ s', sound P s') wf s.
Proof.
  intros Hs. destruct i; cbn [react].
  - destruct Hs. by apply spec_perform.
  - destruct Hs. eapply wp_mono; [| |by apply (spec_saveState P)]; done.
  - apply Hs.
  - apply spec_call; [done|exact Hs].
  - apply wp_update.
    destruct (Environment.heap s !! window) as [w|] eqn:Hw; [|apply Hs].
    by apply (sound_stored window w).
  - apply wp_bind. unfold Environment.onMouseMove.
    apply wp_bind, wp_gets.
    assert (∀ s1, sound P s1 →
              wp (Environment.modify
                    (Environment.set_heap (fmap (Window.resize vp event))))
                 (λ _ s', sound P s') wf s1) as Hresize.
    { intros s1 [Hwf1 Hz1]. apply wp_modify. split.
      - apply wf_fmap; [|done]. intros w. apply resize_keeps.
      - intros HP. apply zOrdered_fmap; [|by apply Hz1].
        intros w. apply resize_keeps. }
    destruct (Environment.currentlyDragging s) as [l|].
    + eapply wp_mono; [| |apply (spec_call l (Window.drag vp event))]; try done.
      intros w. apply drag_keeps.
    + by apply Hresize.
  - apply wp_bind. unfold Environment.onMouseUp.
    apply wp_bind, wp_gets.
    assert (∀ s1, sound P s1 →
              wp (Environment.modify
                    (Environment.set_heap (fmap (λ w, (Window.endResize w).1))))
                 (λ _ s', sound P s') wf s1) as Hend.
    { intros s1 [Hwf1 Hz1]. apply wp_modify. split.
      - apply wf_fmap; [|done]. intros w. apply endResize_keeps.
      - intros HP. apply zOrdered_fmap; [|by apply Hz1].
        intros w. apply endResize_keeps. }
    destruct (Environment.currentlyDragging s) as [l|].
    + apply wp_bind.
      eapply wp_mono; [| |apply (spec_call l Window.dragEnd)]; try done.
      intros w. apply dragEnd_keeps.
    + by apply Hend.
  - apply spec_call; [|exact Hs]. intros w. apply toggleMinimize_keeps.
  - by apply spec_emit.
  - by apply spec_emit.
  - destruct Hs as [Hwf Hz]. apply wp_modify. split.
    + by apply wf_fmap.
    + intros HP. apply zOrdered_fmap; [done|by apply Hz].
Qed.

End session.

Lemma reachable_visited s : reachable s → visited s.
Proof.
  induction 1 as [|s o r s' _ IH Hrun]; [constructor|].
  by apply (visited_step s (Call o) r).
Qed.

Lemma completed_settled s : completed s → settled s.
Proof.
  induction 1 as [|s o s' _ IH Hrun]; [constructor|].
  by apply (settled_step s (Call o)).
Qed.

Lemma visited_wf s : visited s → wf s.
Proof.
  induction 1 as [|s i r s' _ IH Hrun]; [apply wf_new|].
  pose proof (spec_react False i s (conj IH (λ H, False_ind _ H))) as Hwp.
  unfold wp in Hwp. rewrite Hrun in Hwp. destruct r; [apply Hwp|done..].
Qed.

Lemma settled_sound s : settled s → wf s ∧ zOrdered s.
Proof.
  induction 1 as [|s i s' _ [IHwf IHz] Hrun];
    [split; [apply wf_new|apply zOrdered_new]|].
  pose proof (spec_react True i s (conj IHwf (λ _, IHz))) as Hwp.
  unfold wp in Hwp. rewrite Hrun in Hwp. destruct Hwp as [? Hz']. auto.
Qed.

(** X26. Whatever happens to the page, the environment stays well formed:
    in every state of a session the keys of the collection are distinct
    and each is the id of the window stored under it. As long as every
    handler has returned, the z-indices are moreover the base, base + 1,
    ... in the order of the collection. *)
Theorem session_stays_well_formed (s : Environment.t) :
  (visited s → wf s) ∧ (settled s → wf s ∧ zOrdered s).
Proof. split; [apply visited_wf|apply settled_sound]. Qed.

(** ** Classes that are not registered by name *)

Lemma resolveType_unregistered cls config s :
  Environment.windowTypes s !! Environment.ByName (Environment.name cls) = None →
  ∃ s0,
    Environment.resolveType cls config s = (Ok (fallback cls, config), s0) ∧
    Environment.heap s0 = Environment.heap s ∧
    Environment.windows s0 = Environment.windows s ∧
    Environment.nextLoc s0 = Environment.nextLoc s ∧
    Environment.windowTypes s0 !! Environment.ByName (Environment.name cls) = None ∧
    Environment.windowTypes s0 !! Environment.ByClass (Environment.name cls) =
      (if Environment.isSubclass cls then Some (Environment.registration config)
       else Environment.windowTypes s !! Environment.ByClass (Environment.name cls)).
Proof.
  intros Hnone. unfold Environment.resolveType, fallback.
  unfold Environment.bind at 1. cbn [Environment.gets]. rewrite Hnone.
  destruct (Environment.isSubclass cls).
  - eexists. split; [reflexivity|]. cbn. do 3 (split; [done|]).
    split; [by rewrite lookup_insert_ne|apply lookup_insert_eq].
  - eexists. split; [reflexivity|]. done.
Qed.

(** X16. A class that is not registered by name gets no defaults. For a
    subclass of [Window], [createWindow] stores a registration under the
    class itself, where the lookup by name does not find it, so that the
    class is still unregistered at the next call. Any other value falls
    back to [Window]: the window is built by the constructor of [Window]
    from the configuration as the caller gave it (when its [events] are
    an object or absent, with no key that [Object.prototype] defines);
    and when that constructor throws, [createWindow] throws and the
    collection is as before. *)
Theorem createWindow_unregistered vp rx ry id cls config s :
  wf s → JsMap.has id (Environment.windows s) = false →
  Environment.windowTypes s !! Environment.ByName (Environment.name cls) = None →
  ∃ s0,
    Environment.resolveType cls config s = (Ok (fallback cls, config), s0) ∧
    Environment.windowTypes s0 !! Environment.ByName (Environment.name cls) = None ∧
    Environment.windowTypes s0 !! Environment.ByClass (Environment.name cls) =
      (if Environment.isSubclass cls then Some (Environment.registration config)
       else Environment.windowTypes s !! Environment.ByClass (Environment.name cls)) ∧
    (Environment.isSubclass cls = false → plainEvents config →
     ∀ this,
       Window.new (Environment.name Environment.Window) vp rx ry id config
         = Ok this →
       ∃ s' w,
         Environment.createWindow vp rx ry id cls config s =
           (Ok (Environment.nextLoc s), s') ∧
         Environment.windows s' =
           Environment.windows s ++ [(id, Environment.nextLoc s)] ∧
         Environment.heap s' !! Environment.nextLoc s = Some w ∧
         Window.config w = config ∧
         Window.className w = Environment.name Environment.Window) ∧
    (Environment.isSubclass cls = false →
     ∀ e,
       Window.new (Environment.name Environment.Window) vp rx ry id config
         = Throw e →
       Environment.createWindow vp rx ry id cls config s = (Throw e, s0) ∧
       Environment.windows s0 = Environment.windows s).
Proof.
  intros Hwf Hhas Hnone.
  destruct (resolveType_unregistered cls config s Hnone)
    as (s0 & Hres & Hh & Hw & Hn & Hname & Hclass).
  exists s0. split; [exact Hres|]. split; [exact Hname|]. split; [exact Hclass|].
  unfold fallback in Hres.
  split.
  - intros Hsub _ this Hnew. rewrite Hsub in Hres.
    pose proof (createWindow_fresh_run vp rx ry id cls config s _ _ s0 this
                  Hwf Hhas Hres Hnew) as Hrun.
    apply new_inv in Hnew as Hinv.
    assert (Hid : Window.id this = id) by apply Hinv.
    assert (Hcfg : Window.config this = config) by apply Hinv.
    assert (Hcls : Window.className this = Environment.name Environment.Window)
      by apply Hinv.
    destruct (created_object config this s0) as (w & Hlook & Hp & _).
    exists (created config this s0), w. rewrite <- Hn.
    split; [exact Hrun|]. split.
    { rewrite created_windows, Hw, Hid; [done|].
      rewrite Hid, Hw. by apply JsMap_has_false. }
    split; [exact Hlook|]. unfold persistent in Hp. split; congruence.
  - intros Hsub e Hnew. rewrite Hsub in Hres.
    pose proof (createWindow_failed_run vp rx ry id cls config s _ _ s0
                  Hhas Hres _ Hnew) as H.
    cbv beta iota in H. by split.
Qed.

(** ** The registered types *)

Lemma registered_fields n d :
  Environment.windowTypes Environment.new !! Environment.ByName n = Some d →
  (∃ w h, get d "width" = JNum w ∧ get d "height" = JNum h ∧
          truthy (JNum w) = true ∧ truthy (JNum h) = true) ∧
  get d "styles" = JObj [] ∧
  d !! "x" = None ∧ d !! "y" = None ∧ d !! "zIndex" = None.
Proof.
  intros H. apply elem_of_list_to_map_2 in H.
  repeat (apply elem_of_cons in H as [Heq|H];
          [injection Heq as _ ->;
           split; [eexists _, _; repeat split; vm_compute; reflexivity|];
           repeat split; vm_compute; reflexivity|]).
  by apply elem_of_nil in H.
Qed.

Lemma merged_accepted cls vp rx ry id config n d :
  Environment.windowTypes Environment.new !! Environment.ByName n = Some d →
  wellTyped config →
  ∃ this, Window.new cls vp rx ry id (Environment.mergeDefaults config d) = Ok this.
Proof.
  intros Hd Hty.
  destruct (registered_fields n d Hd)
    as ((w & h & Hw & Hh & Htw & Hth) & Hs & Hx & Hy & Hz).
  pose proof (λ k, get_merged config d k) as Hget.
  assert (∃ w', get (Environment.mergeDefaults config d) "width" = JNum w')
    as [w' Hw'].
  { rewrite Hget. unfold get in Hw. destruct (d !! "width") as [dv|]; [|done].
    cbn in Hw. subst dv. unfold js_or.
    destruct (truthy (get config "width")) eqn:Ht; [|by eexists].
    destruct (Hty "width") as [Hf|[m Hm]]; [repeat constructor|congruence|eauto]. }
  assert (∃ h', get (Environment.mergeDefaults config d) "height" = JNum h')
    as [h' Hh'].
  { rewrite Hget. unfold get in Hh. destruct (d !! "height") as [dv|]; [|done].
    cbn in Hh. subst dv. unfold js_or.
    destruct (truthy (get config "height")) eqn:Ht; [|by eexists].
    destruct (Hty "height") as [Hf|[m Hm]];
      [repeat constructor|congruence|eauto]. }
  destruct (constructor_accepts cls vp rx ry id
              (Environment.mergeDefaults config d) w' h' Hw' Hh') as (this & Hnew).
  - intros k Hk. rewrite Hget.
    assert (d !! k = None) as ->.
    { repeat (apply elem_of_cons in Hk as [->|Hk]; [done|]).
      by apply elem_of_nil in Hk. }
    apply Hty. unfold numericFields.
    repeat (apply elem_of_cons in Hk as [->|Hk]; [repeat constructor|]).
    by apply elem_of_nil in Hk.
  - rewrite Hget. unfold get in Hs. destruct (d !! "styles") as [dv|]; [|done].
    cbn in Hs. subst dv. unfold js_or.
    destruct (truthy (get config "styles")) eqn:Ht; [|done].
    intros Heq. by rewrite Heq in Ht.
  - rewrite Hget. unfold get in Hs. destruct (d !! "styles") as [dv|]; [|done].
    cbn in Hs. subst dv. unfold js_or.
    destruct (truthy (get config "styles")) eqn:Ht; [|done].
    intros Heq. by rewrite Heq in Ht.
  - by exists this.
Qed.

Lemma plainEvents_merged (config d : JsObject) :
  get d "events" = JObj [] → plainEvents config →
  plainEvents (Environment.mergeDefaults config d).
Proof.
  intros Hd Hev. unfold plainEvents. rewrite get_merged.
  unfold get in Hd. destruct (d !! "events") as [dv|]; [|done].
  cbn in Hd. subst dv. unfold js_or.
  destruct (truthy (get config "events")) eqn:Ht; [exact Hev|].
  split; [right; by eexists|]. split; [apply NoDup_nil_2|].
  intros eh Heh. by apply elem_of_nil in Heh.
Qed.

(** X18. The window type [Window] can be opened at any time of a session:
    for an id that is not in use and a configuration whose numeric
    fields hold numbers (or are left out) and whose [events] are an
    object (or left out) with no key that [Object.prototype] defines,
    [newWindow] does not throw; it returns the new window, stored under
    the id, last in the collection, built from the configuration merged
    with the defaults of the type. *)
Theorem registered_window_opens vp rx ry uuid config s :
  visited s →
  wellTyped config → plainEvents config →
  JsMap.has uuid (Environment.windows s) = false →
  ∃ s' w,
    Environment.newWindow vp rx ry uuid Environment.Window config s =
      (Ok (Environment.nextLoc s), s') ∧
    JsMap.get uuid (Environment.windows s') = Some (Environment.nextLoc s) ∧
    last (Environment.windows s') = Some (uuid, Environment.nextLoc s) ∧
    Environment.heap s' !! Environment.nextLoc s = Some w ∧
    Window.id w = uuid ∧
    Window.className w = Environment.name Environment.Window ∧
    Window.config w =
      Environment.mergeDefaults config
        (Environment.defaultConfig "Window" 600 400 [] []) ∧
    plainEvents (Window.config w).
Proof.
  intros Hs Hty Hev Hhas. set (cls := Environment.Window).
  set (d := Environment.defaultConfig "Window" 600 400 [] []).
  assert (Hd : Environment.windowTypes Environment.new
                 !! Environment.ByName (Environment.name cls) = Some d).
  { apply elem_of_list_to_map_1; [|apply list_elem_of_here].
    repeat (apply NoDup_cons; split;
            [intros H; repeat (apply elem_of_cons in H as [H|H]; [discriminate H|]);
             by apply elem_of_nil in H|]).
    apply NoDup_nil_2. }
  pose proof (visited_wf s Hs) as Hwf.
  destruct (visited_untouched s Hs) as (_ & Ht & _).
  assert (Hd' : Environment.windowTypes s !! Environment.ByName (Environment.name cls)
                = Some d) by (by rewrite Ht).
  destruct (merged_accepted (Environment.name cls) vp rx ry uuid config _ d Hd Hty)
    as (this & Hnew).
  pose proof (resolveType_registered cls config d s Hd') as Hres.
  pose proof (newWindow_run vp rx ry uuid cls config s cls _ s this
                Hwf Hhas Hres Hnew) as Hrun.
  apply new_inv in Hnew as Hinv.
  assert (Hid : Window.id this = uuid) by apply Hinv.
  assert (Hcfg : Window.config this = Environment.mergeDefaults config d)
    by apply Hinv.
  assert (Hcls : Window.className this = Environment.name cls) by apply Hinv.
  assert (Hfresh : Window.id this ∉ JsMap.keys (Environment.windows s)).
  { rewrite Hid. by apply JsMap_has_false. }
  assert (Hev' : plainEvents (Environment.mergeDefaults config d))
    by (by apply plainEvents_merged).
  set (config' := Environment.mergeDefaults config d) in *.
  pose proof (opened_windows config' this s Hwf Hfresh) as Hws.
  pose proof (wf_opened config' this s Hwf Hfresh) as Hwf'.
  destruct (opened_object config' this s) as (w & Hw & Hp & _).
  exists (opened config' this s), w.
  split; [exact Hrun|].
  rewrite Hws, Hid.
  split.
  { apply JsMap_get_elem; [rewrite <- Hid, <- Hws; apply Hwf'|].
    apply elem_of_app. right. repeat constructor. }
  split; [apply last_snoc|]. split; [exact Hw|].
  unfold persistent in Hp.
  assert (Window.config w = config') as Hcw by congruence.
  split; [congruence|]. split; [congruence|]. split; [exact Hcw|].
  by rewrite Hcw.
Qed.

(** ** Clearing the saved state *)

Lemma clearSavedState_run s :
  Environment.clearSavedState s =
    (Ok tt, Environment.set_localStorage (λ st, delete Environment.storageKey st) s).
Proof. reflexivity. Qed.

(** X25. [clearSavedState] removes the snapshot from the storage and
    leaves every other key, the collection and the windows alone; but it
    does not outlive the page: when the page is unloaded the environment
    saves again, and the storage holds a snapshot with one entry for each
    window of the collection. *)
Theorem clearSavedState_until_unload (s : Environment.t) :
  visited s →
  ∃ s1 s2 doc,
    react ClearSavedState s = (Ok tt, s1) ∧
    snapshot s1 = None ∧
    (∀ k, k ≠ Environment.storageKey →
          Environment.localStorage s1 !! k = Environment.localStorage s !! k) ∧
    react BeforeUnload s1 = (Ok tt, s2) ∧
    snapshot s2 = Some doc ∧
    length (savedWindows doc) = length (Environment.windows s) ∧
    (Environment.windows s2, Environment.heap s2) =
      (Environment.windows s, Environment.heap s).
Proof.
  intros Hs. pose proof (visited_wf s Hs) as Hwf.
  set (s1 := Environment.set_localStorage (λ st, delete Environment.storageKey st) s).
  assert (Hwf1 : wf s1) by exact Hwf.
  exists s1, (saved s1). eexists.
  split; [reflexivity|].
  split; [apply lookup_delete_eq|].
  split; [intros k Hne; by apply lookup_delete_ne|].
  split; [cbn [react]; by apply saveState_saved|].
  split; [apply saved_snapshot|].
  split; [|reflexivity].
  unfold savedWindows, member_opt. cbn.
  unfold savedEntries, JsMap.values. by rewrite !length_fmap.
Qed.

Lemma completed_desktopOpened : completed desktopOpened.
Proof.
  apply (completed_step Environment.new openA); [constructor|].
  vm_compute. reflexivity.
Qed.

Lemma visited_desktopOpened : visited desktopOpened.
Proof. apply reachable_visited, completed_reachable, completed_desktopOpened. Qed.

Example desktopOpened_windows :
  Environment.windows desktopOpened = [("A", 0%nat)].
Proof. vm_compute. reflexivity. Qed.

Lemma clearSavedState_until_unload_witness :
  ∃ s1 s2 doc,
    react ClearSavedState desktopOpened = (Ok tt, s1) ∧
    snapshot s1 = None ∧
    react BeforeUnload s1 = (Ok tt, s2) ∧
    snapshot s2 = Some doc ∧
    length (savedWindows doc) = 1%nat.
Proof.
  destruct (clearSavedState_until_unload desktopOpened visited_desktopOpened)
    as (s1 & s2 & doc & H1 & H2 & _ & H3 & H4 & H5 & _).
  exists s1, s2, doc.
  split; [exact H1|]. split; [exact H2|]. split; [exact H3|]. split; [exact H4|].
  by rewrite H5, desktopOpened_windows.
Defined.

(** ** The scenario session *)

Lemma wf_desktopOpened : wf desktopOpened.
Proof. apply visited_wf, visited_desktopOpened. Qed.

Example desktopOpened_A :
  ∃ w, Environment.heap desktopOpened !! 0%nat = Some w ∧
       Window.id w = "A" ∧
       EventEmitter.emit "dragStart" (Window.listeners w) = [OnDragStart] ∧
       EventEmitter.emit "minimize" (Window.listeners w) = [OnMinimize].
Proof.
  destruct (Environment.heap desktopOpened !! 0%nat) as [w|] eqn:Hw;
    [|vm_compute in Hw; discriminate Hw].
  exists w. split; [reflexivity|].
  vm_compute in Hw. injection Hw as <-.
  repeat split; vm_compute; reflexivity.
Qed.

Lemma newWindow_pinned vp rx ry uuid cls config s l s' :
  wf s → JsMap.has uuid (Environment.windows s) = false →
  Environment.newWindow vp rx ry uuid cls config s = (Ok l, s') →
  pinned s' l.
Proof.
  intros Hwf Hhas Hrun.
  destruct (resolveType_frame cls config s)
    as ([cls' config'] & s0 & Hres & Hh & Hw & Hn & Hz).
  assert (Hwf0 : wf s0).
  { unfold wf in *. by rewrite Hh, Hw, Hn. }
  destruct (Window.new (Environment.name cls') vp rx ry uuid config')
    as [this|e|] eqn:Hnew.
  - rewrite (newWindow_run vp rx ry uuid cls config s cls' config' s0 this
               Hwf Hhas Hres Hnew) in Hrun.
    injection Hrun as <- <-.
    apply pinned_opened; [exact Hwf0|].
    apply new_inv in Hnew as Hinv.
    assert (Hid : Window.id this = uuid) by apply Hinv.
    rewrite Hid, Hw. by apply JsMap_has_false.
  - pose proof (createWindow_failed_run vp rx ry uuid cls config s cls' config' s0
                  Hhas Hres _ Hnew) as H.
    cbv beta iota in H. unfold Environment.newWindow in Hrun.
    unfold Environment.bind at 1 in Hrun. rewrite H in Hrun. done.
  - pose proof (createWindow_failed_run vp rx ry uuid cls config s cls' config' s0
                  Hhas Hres _ Hnew) as H.
    cbv beta iota in H. unfold Environment.newWindow in Hrun.
    unfold Environment.bind at 1 in Hrun. rewrite H in Hrun. done.
Qed.

Example desktopOpened_run :
  Environment.newWindow viewport1000x800 (1#2) (1#2) "A" Environment.Window
    (sized 600 400) Environment.new = (Ok 0%nat, desktopOpened).
Proof. vm_compute. reflexivity. Qed.

Lemma pinned_desktopOpened : pinned desktopOpened 0%nat.
Proof.
  apply (newWindow_pinned viewport1000x800 (1#2) (1#2) "A" Environment.Window
           (sized 600 400) Environment.new);
    [apply wf_new|reflexivity|apply desktopOpened_run].
Qed.

(** ** The theorems on the scenario session *)

Lemma wellTyped_sized (w h : Q) : wellTyped (sized w h).
Proof.
  intros k Hk. unfold numericFields in Hk.
  apply elem_of_cons in Hk as [->|Hk]; [right; by eexists|].
  apply elem_of_cons in Hk as [->|Hk]; [right; by eexists|].
  left.
  repeat (apply elem_of_cons in Hk as [->|Hk]; [reflexivity|]).
  by apply elem_of_nil in Hk.
Qed.

Lemma registered_names_NoDup :
  NoDup [ Environment.ByName (Environment.name Environment.Window);
          Environment.ByName (Environment.name Environment.ChatWindow);
          Environment.ByName (Environment.name Environment.Popup);
          Environment.ByName (Environment.name Environment.EmojiSelector) ].
Proof.
  repeat (apply NoDup_cons; split;
          [intros H; repeat (apply elem_of_cons in H as [H|H]; [discriminate H|]);
           by apply elem_of_nil in H|]).
  apply NoDup_nil_2.
Qed.

Example Window_registered :
  Environment.windowTypes Environment.new
    !! Environment.ByName (Environment.name Environment.Window) =
  Some (Environment.defaultConfig "Window" 600 400 [] []).
Proof.
  apply elem_of_list_to_map_1; [exact registered_names_NoDup|].
  apply list_elem_of_here.
Qed.

Example desktopA_run :
  Environment.createWindow viewport1000x800 (1#2) (1#2) "A" Environment.Window
    (sized 600 400) Environment.new = (Ok 0%nat, desktopA).
Proof. vm_compute. reflexivity. Qed.

Example desktopA_events w :
  Environment.heap desktopA !! 0%nat = Some w →
  get (Window.config w) "events" = JObj [] ∧
  Environment.entries (get (Window.config w) "events") = [].
Proof.
  intros Hw. vm_compute in Hw. injection Hw as <-. split; vm_compute; reflexivity.
Qed.

Example Window_events :
  plainEvents
    (Environment.mergeDefaults (sized 600 400)
       (Environment.defaultConfig "Window" 600 400 [] [])).
Proof.
  assert (get (Environment.mergeDefaults (sized 600 400)
                 (Environment.defaultConfig "Window" 600 400 [] [])) "events"
          = JObj []) as H by (vm_compute; reflexivity).
  split; [right; exists []; exact H|]. rewrite H. clear H.
  split; [apply NoDup_nil_2|]. intros eh Heh.
  destruct (proj1 (elem_of_nil eh) Heh).
Qed.

Lemma plainEvents_sized (w h : Q) : plainEvents (sized w h).
Proof.
  assert (get (sized w h) "events" = JUndefined) as H by reflexivity.
  split; [left; reflexivity|]. rewrite H.
  split; [apply NoDup_nil_2|]. intros eh Heh.
  destruct (proj1 (elem_of_nil eh) Heh).
Qed.

Example desktopOpened_fields :
  JsMap.values (Environment.windows desktopOpened) !! 0%nat = Some 0%nat ∧
  ∀ w, Environment.heap desktopOpened !! 0%nat = Some w →
       Window.isMinimized w = false.
Proof.
  split; [rewrite desktopOpened_windows; reflexivity|].
  intros w Hw. vm_compute in Hw. injection Hw as <-. reflexivity.
Qed.

Lemma visited_desktopGrabbed : visited desktopGrabbed.
Proof.
  apply (visited_step desktopOpened (TitleBarMouseDown 0%nat (at_ 100 100))
           (react (TitleBarMouseDown 0%nat (at_ 100 100)) desktopOpened).1);
    [apply visited_desktopOpened|apply surjective_pairing].
Qed.

Example desktopGrabbed_A :
  Environment.currentlyDragging desktopGrabbed = Some 0%nat ∧
  JsMap.values (Environment.windows desktopGrabbed) !! 0%nat = Some 0%nat ∧
  ∃ w, Environment.heap desktopGrabbed !! 0%nat = Some w ∧
       Window.isDragging w = true ∧
       EventEmitter.emit "drag" (Window.listeners w) = [OnDrag] ∧
       EventEmitter.emit "dragEnd" (Window.listeners w) = [OnDragEnd].
Proof.
  split; [vm_compute; reflexivity|]. split; [vm_compute; reflexivity|].
  destruct (Environment.heap desktopGrabbed !! 0%nat) as [w|] eqn:Hw;
    [|vm_compute in Hw; discriminate Hw].
  exists w. split; [reflexivity|].
  vm_compute in Hw. injection Hw as <-.
  repeat split; vm_compute; reflexivity.
Qed.

Lemma handlers_leave_untouched_witness :
  untouched desktopOpened desktopGrabbed ∧
  Environment.zIndexBase desktopGrabbed = 1000.
Proof.
  destruct handlers_leave_untouched as [Hstep Hall].
  split; [exact (Hstep (TitleBarMouseDown 0%nat (at_ 100 100)) desktopOpened)|].
  exact (proj1 (Hall desktopGrabbed visited_desktopGrabbed)).
Defined.

Lemma createWindow_subscribes_witness :
  ∃ w, Environment.heap desktopA !! 0%nat = Some w ∧
       ∀ event, EventEmitter.emit event (Window.listeners w) =
                handlers event (Window.config w) ++ ownListeners event.
Proof.
  destruct (createWindow_subscribes viewport1000x800 (1#2) (1#2) "A"
              (sized 600 400) Environment.new 0%nat desktopA
              wf_new eq_refl desktopA_run) as (w & Hw & H).
  exists w. split; [exact Hw|]. apply H.
  destruct (desktopA_events w Hw) as [Hobj Hnone].
  split; [right; exists []; exact Hobj|]. rewrite Hnone.
  split; [apply NoDup_nil_2|]. intros eh Heh.
  destruct (proj1 (elem_of_nil eh) Heh).
Defined.

Lemma newWindow_opens_on_top_witness :
  ∃ s' w,
    Environment.newWindow viewport1000x800 (1#2) (1#2) "A" Environment.Window
      (sized 600 400) Environment.new = (Ok 0%nat, s') ∧
    Environment.windows s' = [("A", 0%nat)] ∧
    Environment.heap s' !! 0%nat = Some w ∧
    pinned s' 0%nat ∧ wf s' ∧ zOrdered s'.
Proof.
  destruct (merged_accepted "Window" viewport1000x800 (1#2) (1#2) "A"
              (sized 600 400) _ _ Window_registered (wellTyped_sized 600 400))
    as (this & Hnew).
  destruct (newWindow_opens_on_top viewport1000x800 (1#2) (1#2) "A"
              (sized 600 400) _ this Environment.new
              wf_new eq_refl Window_registered Window_events Hnew)
    as (s' & w & Hrun & Hws & Hw & _ & _ & Hp & Hwf & Hz & _).
  exists s', w.
  split; [exact Hrun|]. split; [exact Hws|]. split; [exact Hw|].
  split; [exact Hp|]. split; [exact Hwf|exact Hz].
Defined.

Lemma removeWindow_closes_pinned_witness :
  ∃ s', Environment.removeWindow 0%nat desktopOpened = (Ok tt, s') ∧
        Environment.windows s' = [] ∧ wf s' ∧ zOrdered s'.
Proof.
  destruct (removeWindow_closes_pinned desktopOpened 0%nat
              wf_desktopOpened pinned_desktopOpened)
    as (s' & w & node & _ & _ & Hrun & Hws & Hwf & Hz & _).
  exists s'. split; [exact Hrun|].
  split; [rewrite Hws, desktopOpened_windows; reflexivity|].
  split; [exact Hwf|exact Hz].
Defined.

Example Window_close_handlers :
  handlers "close"
    (Environment.mergeDefaults (sized 600 400)
       (Environment.defaultConfig "Window" 600 400 [] [])) = [].
Proof. vm_compute. reflexivity. Qed.

Lemma newWindow_then_close_witness :
  ∃ s1 s2,
    Environment.newWindow viewport1000x800 (1#2) (1#2) "A" Environment.Window
      (sized 600 400) Environment.new = (Ok 0%nat, s1) ∧
    Environment.emit 0%nat ["close"] s1 = (Ok tt, s2) ∧
    Environment.windows s2 = [] ∧ wf s2.
Proof.
  destruct (merged_accepted "Window" viewport1000x800 (1#2) (1#2) "A"
              (sized 600 400) _ _ Window_registered (wellTyped_sized 600 400))
    as (this & Hnew).
  destruct (newWindow_then_close viewport1000x800 (1#2) (1#2) "A"
              (sized 600 400) _ this Environment.new
              wf_new eq_refl Window_registered Window_events Hnew
              Window_close_handlers)
    as (s1 & s2 & Hopen & Hclose & _ & Hws & Hwf & _).
  exists s1, s2.
  split; [exact Hopen|]. split; [exact Hclose|]. split; [exact Hws|exact Hwf].
Defined.

Lemma titleBar_mouseDown_raises_witness :
  ∃ s', react (TitleBarMouseDown 0%nat (at_ 100 100)) desktopOpened = (Ok tt, s') ∧
        Environment.currentlyDragging s' = Some 0%nat ∧ wf s' ∧ zOrdered s'.
Proof.
  destruct desktopOpened_A as (w & Hw & _ & Hstart & _).
  destruct (titleBar_mouseDown_raises desktopOpened "A" 0%nat w (at_ 100 100))
    as (s' & w' & Hrun & Hcur & _ & _ & _ & _ & Hwf & Hz).
  - apply wf_desktopOpened.
  - rewrite desktopOpened_windows. apply list_elem_of_here.
  - exact Hw.
  - exact Hstart.
  - exists s'. split; [exact Hrun|]. split; [exact Hcur|].
    split; [exact Hwf|exact Hz].
Defined.

Lemma onMouseMove_drags_witness :
  ∃ s', Environment.onMouseMove viewport1000x800 (at_ 170 80) desktopGrabbed =
          (Ok tt, s') ∧
        Environment.currentlyDragging s' = Some 0%nat ∧ wf s'.
Proof.
  destruct desktopGrabbed_A as (Hcur & Hi & w & Hw & Hd & Hdrag & _).
  destruct (onMouseMove_drags desktopGrabbed viewport1000x800 (at_ 170 80))
    as [_ H].
  destruct (H 0%nat w 0%nat (visited_wf _ visited_desktopGrabbed) Hcur Hw Hd Hi Hdrag)
    as (s' & entry & Hrun & _ & _ & Hcur' & _ & _ & _ & Hwf).
  exists s'. split; [exact Hrun|]. split; [exact Hcur'|exact Hwf].
Defined.

Lemma onMouseUp_ends_drag_witness :
  ∃ s', Environment.onMouseUp (at_ 170 80) desktopGrabbed = (Ok tt, s') ∧
        Environment.currentlyDragging s' = None ∧
        Environment.onMouseMove viewport1000x800 (at_ 0 0) s' = (Ok tt, s').
Proof.
  destruct desktopGrabbed_A as (Hcur & _ & w & Hw & Hd & _ & Hend).
  destruct (onMouseUp_ends_drag desktopGrabbed (at_ 170 80) (at_ 0 0)
              viewport1000x800) as [_ H].
  destruct (H 0%nat w (visited_wf _ visited_desktopGrabbed) Hcur Hw Hd Hend)
    as (s' & Hrun & Hcur' & _ & _ & _ & Hmove & _).
  exists s'. split; [exact Hrun|]. split; [exact Hcur'|exact Hmove].
Defined.

Lemma minimize_click_is_saved_witness :
  ∃ s' entry,
    react (MinimizeClick 0%nat) desktopOpened = (Ok tt, s') ∧
    savedEntry s' 0%nat = Some entry ∧
    get (configOfEntry entry) "isMinimized" = JBool true.
Proof.
  destruct desktopOpened_A as (w & Hw & _ & _ & Hmin).
  destruct desktopOpened_fields as [Hi Hshown].
  destruct (minimize_click_is_saved desktopOpened 0%nat w 0%nat
              wf_desktopOpened Hw Hi Hmin)
    as (s' & entry & Hrun & _ & _ & Hentry & Hflag & _).
  exists s', entry. split; [exact Hrun|]. split; [exact Hentry|].
  rewrite Hflag, (Hshown w Hw). reflexivity.
Defined.

Lemma session_stays_well_formed_witness :
  wf desktopGrabbed ∧ wf desktopOpened ∧ zOrdered desktopOpened.
Proof.
  split.
  - exact (proj1 (session_stays_well_formed desktopGrabbed) visited_desktopGrabbed).
  - exact (proj2 (session_stays_well_formed desktopOpened)
             (completed_settled _ completed_desktopOpened)).
Defined.

Lemma createWindow_unregistered_witness :
  ∃ s0,
    Environment.resolveType Environment.MusicPlayerWindow configA Environment.new =
      (Ok (Environment.MusicPlayerWindow, configA), s0) ∧
    Environment.windowTypes s0 !! Environment.ByName "MusicPlayerWindow" = None ∧
    Environment.windowTypes s0 !! Environment.ByClass "MusicPlayerWindow" =
      Some (Environment.registration configA).
Proof.
  destruct (createWindow_unregistered viewport1000x800 (1#2) (1#2) "M"
              Environment.MusicPlayerWindow configA Environment.new
              wf_new eq_refl eq_refl)
    as (s0 & Hres & Hname & Hclass & _).
  exists s0. split; [exact Hres|]. split; [exact Hname|exact Hclass].
Defined.

Lemma registered_window_opens_witness :
  ∃ s' w,
    Environment.newWindow viewport1000x800 (1#2) (1#2) "B" Environment.Window
      (sized 300 200) desktopOpened = (Ok (Environment.nextLoc desktopOpened), s') ∧
    Environment.heap s' !! Environment.nextLoc desktopOpened = Some w ∧
    Window.id w = "B" ∧
    Window.className w = Environment.name Environment.Window.
Proof.
  destruct (registered_window_opens viewport1000x800 (1#2) (1#2) "B"
              (sized 300 200) desktopOpened
              visited_desktopOpened (wellTyped_sized 300 200)
              (plainEvents_sized 300 200))
    as (s' & w & Hrun & _ & _ & Hw & Hid & Hcls & _).
  - rewrite desktopOpened_windows. reflexivity.
  - exists s', w. split; [exact Hrun|]. split; [exact Hw|].
    split; [exact Hid|exact Hcls].
Defined.
